(** * payman-mcp-server: a shallow embedding of [src/index.ts]

    The server exposes a fixed registry of documentation pages through five
    tools.  This development embeds the document cache and fetcher
    ([fetchDocMarkdown]) and the text heuristics of the tools, and checks the
    properties the specification states about them.

    Modelling conventions.
    - A JavaScript string is a sequence of UTF-16 code units.  The model uses
      [string] (one [ascii] per code unit), which covers the code units
      0..255; on that range [toLowerCase] acts code unit by code unit and
      keeps every length.  Where a property depends on that, it is stated for
      these texts, and [Wide] repeats the computation on code units as
      numbers to show what happens beyond them.
    - JavaScript numbers that hold indexes, lengths and millisecond clocks are
      integers here ([Z]); [indexOf] and [findIndex] return [-1] on a miss.
    - The module-level [documentCache] is threaded explicitly; every remote
      request issued by a call is recorded in a list of URLs.  Writes to the
      log ([console.error]), the registration of the resource and the start
      of the server are not modelled. *)

From Stdlib Require Import ZArith String Ascii List Bool Lia.
From Stdlib Require Import Sorting.Sorted Sorting.Permutation.
From stdpp Require Import base option list gmap strings pretty.

Local Open Scope Z_scope.

(** ** JavaScript string and array primitives used by the server *)

Module JS.

Definition NL : ascii := ascii_of_nat 10.
Definition DQ : ascii := ascii_of_nat 34.

(** [str c] is the one-character string. *)
Definition str (c : ascii) : string := String c EmptyString.

(** [String.prototype.toLowerCase] on the code units 0..255: [A-Z] and the
    Latin-1 capitals (U+00C0..U+00DE without the multiplication sign U+00D7)
    move up by 32, everything else is unchanged. *)
Definition lowerChar (c : ascii) : ascii :=
  let n := N_of_ascii c in
  if ((65 <=? n) && (n <=? 90) ||
      (192 <=? n) && (n <=? 222) && negb (n =? 215))%N
  then ascii_of_N (n + 32) else c.

Fixpoint toLowerCase (s : string) : string :=
  match s with
  | EmptyString => EmptyString
  | String c s' => String (lowerChar c) (toLowerCase s')
  end.

(** The regular-expression class [\s] (white space and line terminators)
    on the code units 0..255; [trim] strips the same set. *)
Definition isSpace (c : ascii) : bool :=
  let n := N_of_ascii c in
  ((9 <=? n) && (n <=? 13) || (n =? 32) || (n =? 160))%N.

(** Line terminators: what [^] looks behind for under the [m] flag. *)
Definition isLineTerminator (c : ascii) : bool :=
  let n := N_of_ascii c in ((n =? 10) || (n =? 13))%N.

Definition isNL (c : ascii) : bool := (N_of_ascii c =? 10)%N.

(** [s.startsWith(p)] *)
Fixpoint startsWith (s p : string) {struct p} : bool :=
  match p, s with
  | EmptyString, _ => true
  | String _ _, EmptyString => false
  | String a p', String b s' => if Ascii.eqb a b then startsWith s' p' else false
  end.

(** [s.includes(needle)] *)
Fixpoint includes (s needle : string) : bool :=
  startsWith s needle ||
  match s with
  | EmptyString => false
  | String _ s' => includes s' needle
  end.

(** Position of the first occurrence of [needle] in [s], if any. *)
Fixpoint find (s needle : string) : option nat :=
  if startsWith s needle then Some 0%nat
  else match s with
       | EmptyString => None
       | String _ s' => S <$> find s' needle
       end.

(** [s.indexOf(needle)] *)
Definition indexOf (s needle : string) : Z :=
  match find s needle with
  | Some i => Z.of_nat i
  | None => -1
  end.

Fixpoint sdrop (n : nat) (s : string) : string :=
  match n, s with
  | O, _ => s
  | S _, EmptyString => EmptyString
  | S n', String _ s' => sdrop n' s'
  end.

Fixpoint stake (n : nat) (s : string) : string :=
  match n, s with
  | O, _ => EmptyString
  | S _, EmptyString => EmptyString
  | S n', String c s' => String c (stake n' s')
  end.

Definition len (s : string) : Z := Z.of_nat (String.length s).

(** [s.substring(a, b)]: both arguments are clamped to [0, length] and
    swapped when out of order. *)
Definition substring (s : string) (a b : Z) : string :=
  let a' := Z.min (Z.max a 0) (len s) in
  let b' := Z.min (Z.max b 0) (len s) in
  let lo := Z.min a' b' in
  let hi := Z.max a' b' in
  stake (Z.to_nat (hi - lo)) (sdrop (Z.to_nat lo) s).

(** [s.split("\n")]: never empty, the empty string gives one empty line. *)
Fixpoint splitLines (s : string) : list string :=
  match s with
  | EmptyString => [EmptyString]
  | String c s' =>
      if isNL c then EmptyString :: splitLines s'
      else match splitLines s' with
           | [] => [str c]
           | l :: ls => String c l :: ls
           end
  end.

(** [a.join(sep)] *)
Fixpoint join (sep : string) (a : list string) : string :=
  match a with
  | [] => EmptyString
  | [x] => x
  | x :: a' => x +:+ sep +:+ join sep a'
  end.

(** [s.replace(/\n+/g, " ")]: every maximal run of newlines becomes one
    space.  [inRun] tells that the previous character was a newline. *)
Fixpoint collapseFrom (inRun : bool) (s : string) : string :=
  match s with
  | EmptyString => EmptyString
  | String c s' =>
      if isNL c
      then if inRun then collapseFrom true s'
           else String " " (collapseFrom true s')
      else String c (collapseFrom false s')
  end.

Definition collapseNewlines (s : string) : string := collapseFrom false s.

(** [s.trim()] *)
Fixpoint trimStart (s : string) : string :=
  match s with
  | EmptyString => EmptyString
  | String c s' => if isSpace c then trimStart s' else s
  end.

Fixpoint trimEnd (s : string) : string :=
  match s with
  | EmptyString => EmptyString
  | String c s' =>
      match trimEnd s' with
      | EmptyString => if isSpace c then EmptyString else str c
      | t => String c t
      end
  end.

Definition trim (s : string) : string := trimEnd (trimStart s).

(** Truthiness of a string: the empty string is falsy. *)
Definition truthy (s : string) : bool :=
  match s with EmptyString => false | _ => true end.

(** [a || b] on strings. *)
Definition orElse (a b : string) : string := if truthy a then a else b.

(** *** The separator [/^#+\s+/m] of [content.split]

    [headingMarker s] is the length of the match of [#+\s+] at the start of
    [s], if there is one: a run of one or more [#] and then a run of one or
    more [\s] characters, both greedy. *)
Fixpoint spaceRun (s : string) : nat :=
  match s with
  | String c s' => if isSpace c then S (spaceRun s') else O
  | EmptyString => O
  end.

Fixpoint hashRun (s : string) : nat :=
  match s with
  | String c s' => if Ascii.eqb c "#" then S (hashRun s') else O
  | EmptyString => O
  end.

Definition headingMarker (s : string) : option nat :=
  let h := hashRun s in
  let w := spaceRun (sdrop h s) in
  if (0 <? h)%nat && (0 <? w)%nat then Some (h + w)%nat else None.

Definition consHead (c : ascii) (pieces : list string) : list string :=
  match pieces with
  | [] => [str c]
  | p :: ps => String c p :: ps
  end.

(** [String.prototype.split] with that separator, following the loop of the
    language specification: at every position the separator is tried in
    place; a match closes the current piece and the scan resumes after it.
    [skip] counts the characters of a separator still to pass over, [bol]
    tells that the previous character was a line terminator (or that the
    scan is at the start of the text), which is when [^] holds. *)
Fixpoint splitFrom (skip : nat) (bol : bool) (s : string) : list string :=
  match s with
  | EmptyString => [EmptyString]
  | String c s' =>
      match skip with
      | S k => splitFrom k (isLineTerminator c) s'
      | O =>
          match (if bol then headingMarker s else None) with
          | Some n => EmptyString :: splitFrom (pred n) (isLineTerminator c) s'
          | None => consHead c (splitFrom O (isLineTerminator c) s')
          end
      end
  end.

Definition splitHeadings (s : string) : list string := splitFrom O true s.

(** *** The fenced-block patterns of [content.matchAll]

    [/```(?:t1|t2|...)([\s\S]*?)```/g]: three backticks, the first
    alternative [t] (in the order written) that the text continues with and
    after which a closing fence exists, and the shortest text up to that
    closing fence as group 1.  [fenceAt tags s] gives, for a match starting
    at the head of [s], group 1 and the length of the whole match. *)
Definition fence : string := "```".

Fixpoint firstTag (tags : list string) (rest : string) : option (string * nat) :=
  match tags with
  | [] => None
  | t :: tags' =>
      if startsWith rest t
      then let body := sdrop (String.length t) rest in
           match find body fence with
           | Some k => Some (stake k body, (3 + String.length t + k + 3)%nat)
           | None => firstTag tags' rest
           end
      else firstTag tags' rest
  end.

Definition fenceAt (tags : list string) (s : string) : option (string * nat) :=
  if startsWith s fence then firstTag tags (sdrop 3 s) else None.

(** Group 1 of every match, left to right; matches do not overlap. *)
Fixpoint blocksFrom (tags : list string) (skip : nat) (s : string) : list string :=
  match s with
  | EmptyString => []
  | String _ s' =>
      match skip with
      | S k => blocksFrom tags k s'
      | O =>
          match fenceAt tags s with
          | Some (body, n) => body :: blocksFrom tags (pred n) s'
          | None => blocksFrom tags O s'
          end
      end
  end.

Definition matchAllBlocks (tags : list string) (s : string) : list string :=
  blocksFrom tags O s.

(** [a.slice(from, to)] with relative (negative) indexes as the language
    defines them. *)
Definition relIndex (n : Z) (i : Z) : Z :=
  if i <? 0 then Z.max (n + i) 0 else Z.min i n.

Definition slice {A} (a : list A) (from to : Z) : list A :=
  let n := Z.of_nat (length a) in
  let k := relIndex n from in
  let e := relIndex n to in
  take (Z.to_nat (Z.max (e - k) 0)) (drop (Z.to_nat k) a).

(** [a.findIndex(p)] *)
Fixpoint findIndexFrom {A} (p : A -> bool) (i : Z) (a : list A) : Z :=
  match a with
  | [] => -1
  | x :: a' => if p x then i else findIndexFrom p (i + 1) a'
  end.

Definition findIndex {A} (p : A -> bool) (a : list A) : Z := findIndexFrom p 0 a.

(** [[...new Set(a)]]: the elements of [a] in the order of their first
    occurrence.  [seen] is the set built so far, in insertion order. *)
Fixpoint setAddAll {A} `{EqDecision A} (seen : list A) (a : list A) : list A :=
  match a with
  | [] => seen
  | x :: a' => if bool_decide (x ∈ seen) then setAddAll seen a'
               else setAddAll (seen ++ [x]) a'
  end.

Definition uniq {A} `{EqDecision A} (a : list A) : list A := setAddAll [] a.

(** [a.sort(cmp)]: the language requires a stable sort; [cmp x y <= 0] keeps
    [x] in front of [y].  Insertion from the right is such a sort for a
    consistent comparator. *)
Fixpoint insertBy {A} (cmp : A -> A -> Z) (x : A) (sorted : list A) : list A :=
  match sorted with
  | [] => [x]
  | y :: ys => if cmp x y <=? 0 then x :: y :: ys else y :: insertBy cmp x ys
  end.

Fixpoint sort {A} (cmp : A -> A -> Z) (a : list A) : list A :=
  match a with
  | [] => []
  | x :: a' => insertBy cmp x (sort cmp a')
  end.

End JS.


Definition nl : string := JS.str JS.NL.
Definition dq : string := JS.str JS.DQ.

(** ** Topic registry *)

(** [docTopics]: the enumerated set the argument schemas accept. *)
Inductive Topic :=
| Quickstart | Playground | SetupAndInstallation | CreatePayees | SendPayments
| CreatePayee | SearchPayees | CheckBalances | BillPaymentAgent | ApiReference
| ApiKeys | ErrorHandling.

#[global] Instance Topic_eq_dec : EqDecision Topic.
Proof. solve_decision. Defined.

Definition docTopics : list Topic :=
  [Quickstart; Playground; SetupAndInstallation; CreatePayees; SendPayments;
   CreatePayee; SearchPayees; CheckBalances; BillPaymentAgent; ApiReference;
   ApiKeys; ErrorHandling].

(** The identifier of a topic: the key it has in [pathMap] and
    [topicMetadata]. *)
Definition topicName (t : Topic) : string :=
  match t with
  | Quickstart => "quickstart"
  | Playground => "playground"
  | SetupAndInstallation => "setup-and-installation"
  | CreatePayees => "create-payees"
  | SendPayments => "send-payments"
  | CreatePayee => "create-payee"
  | SearchPayees => "search-payees"
  | CheckBalances => "check-balances"
  | BillPaymentAgent => "bill-payment-agent"
  | ApiReference => "api-reference"
  | ApiKeys => "api-keys"
  | ErrorHandling => "error-handling"
  end.

Definition pathMap (t : Topic) : string :=
  match t with
  | Quickstart => "/overview/quickstart"
  | Playground => "/overview/playground"
  | SetupAndInstallation => "/sdks/setup-and-installation"
  | CreatePayees => "/sdks/create-payees"
  | SendPayments => "/sdks/send-payments"
  | CreatePayee => "/sdks/create-payee"
  | SearchPayees => "/sdks/search-payees"
  | CheckBalances => "/sdks/check-balances"
  | BillPaymentAgent => "/guides/bill-payment-agent"
  | ApiReference => "/api-reference/introduction"
  | ApiKeys => "/api-reference/get-api-key"
  | ErrorHandling => "/api-reference/error-handling"
  end.

Record TopicMeta := { title : string; relatedTopics : list Topic }.

Definition topicMetadata (t : Topic) : TopicMeta :=
  match t with
  | Quickstart =>
      {| title := "Quickstart Guide"; relatedTopics := [SetupAndInstallation; ApiKeys] |}
  | Playground =>
      {| title := "API Playground"; relatedTopics := [ApiReference; ApiKeys] |}
  | SetupAndInstallation =>
      {| title := "Setup and Installation"; relatedTopics := [ApiKeys; Quickstart] |}
  | CreatePayees =>
      {| title := "Create Payees"; relatedTopics := [CreatePayee; SearchPayees] |}
  | SendPayments =>
      {| title := "Send Payments"; relatedTopics := [CheckBalances; CreatePayees] |}
  | CreatePayee =>
      {| title := "Create Payee"; relatedTopics := [CreatePayees; SearchPayees] |}
  | SearchPayees =>
      {| title := "Search Payees"; relatedTopics := [CreatePayee; CreatePayees] |}
  | CheckBalances =>
      {| title := "Check Balances"; relatedTopics := [SendPayments] |}
  | BillPaymentAgent =>
      {| title := "Bill Payment Agent"; relatedTopics := [SendPayments] |}
  | ApiReference =>
      {| title := "API Reference"; relatedTopics := [ErrorHandling; ApiKeys] |}
  | ApiKeys =>
      {| title := "API Keys"; relatedTopics := [ApiReference; SetupAndInstallation] |}
  | ErrorHandling =>
      {| title := "Error Handling"; relatedTopics := [ApiReference] |}
  end.

(** [Object.entries(pathMap)] and [Object.entries(topicMetadata)] list the
    keys in the order the object literals write them, which is the order of
    [docTopics] for both. *)
Definition registryOrder : list Topic := docTopics.

(** ** Document cache and fetcher *)

Record CacheEntry := { content : string; timestamp : Z }.

(** [CACHE_TTL], in milliseconds like [Date.now()]. *)
Definition CACHE_TTL : Z := 3600000.

(** What a [throw] carries: an [Error] with its message, or another value
    with the text [String(error)] gives for it. *)
Inductive Thrown :=
| ErrorObject (message : string)
| NonError (asString : string).

Inductive Completion (A : Type) :=
| Normal (a : A)
| Throw (e : Thrown).
Arguments Normal {A} a.
Arguments Throw {A} e.

(** A response of [node-fetch]: its status and what [response.text()] settles
    to.  [response.ok] holds for the statuses 200..299. *)
Record Response := { status : N; body : Completion string }.

Definition ok (r : Response) : bool := ((200 <=? status r) && (status r <=? 299))%N.

(** The world a call runs in: the clock reading [Date.now()] and the network,
    which answers a URL with a response or rejects. *)
Record Env := { now : Z; fetch : string -> Completion Response }.

Record Fetched := { text : string; cacheAfter : gmap string CacheEntry; requests : list string }.

Definition docUrl (path : string) : string :=
  "https://docs.paymanai.com" +:+ path +:+ ".md".

(** The [try] block of [fetchDocMarkdown]. *)
Definition fetchRemote (env : Env) (cache : gmap string CacheEntry) (path : string)
  : Completion (string * gmap string CacheEntry) :=
  match fetch env (docUrl path) with
  | Throw e => Throw e
  | Normal response =>
      if negb (ok response)
      then Throw (ErrorObject ("Failed to fetch: " +:+ pretty (status response)))
      else match body response with
           | Throw e => Throw e
           | Normal content =>
               Normal (content, <[path := {| content := content; timestamp := now env |}]> cache)
           end
  end.

(** [error instanceof Error ? error.message : String(error)] *)
Definition errorText (e : Thrown) : string :=
  match e with
  | ErrorObject m => m
  | NonError s => s
  end.

Definition placeholder (path : string) (e : Thrown) : string :=
  "Documentation content not available for path: " +:+ path +:+ ".md" +:+ nl +:+
  "Error: " +:+ errorText e.

(** The freshness test [cachedDoc && now - cachedDoc.timestamp < CACHE_TTL]. *)
Definition fresh (env : Env) (entry : option CacheEntry) : bool :=
  match entry with
  | Some cachedDoc => now env - timestamp cachedDoc <? CACHE_TTL
  | None => false
  end.

Definition fetchDocMarkdown (env : Env) (cache : gmap string CacheEntry) (path : string)
  : Fetched :=
  match cache !! path with
  | Some cachedDoc =>
      if now env - timestamp cachedDoc <? CACHE_TTL
      then {| text := content cachedDoc; cacheAfter := cache; requests := [] |}
      else match fetchRemote env cache path with
           | Normal (c, cache') =>
               {| text := c; cacheAfter := cache'; requests := [docUrl path] |}
           | Throw e =>
               {| text := placeholder path e; cacheAfter := cache; requests := [docUrl path] |}
           end
  | None =>
      match fetchRemote env cache path with
      | Normal (c, cache') =>
          {| text := c; cacheAfter := cache'; requests := [docUrl path] |}
      | Throw e =>
          {| text := placeholder path e; cacheAfter := cache; requests := [docUrl path] |}
      end
  end.

(** The fetches a tool issues for a list of paths.  The calls start in one
    synchronous stretch (a [map] of [async] callbacks), so they share the
    clock reading; the paths of a tool are pairwise distinct, so the order in
    which the responses arrive does not change the cache they leave. *)
Fixpoint fetchAll (env : Env) (cache : gmap string CacheEntry) (paths : list string)
  : list string * gmap string CacheEntry * list string :=
  match paths with
  | [] => ([], cache, [])
  | p :: ps =>
      let r := fetchDocMarkdown env cache p in
      let '(cs, cache', rq) := fetchAll env (cacheAfter r) ps in
      (text r :: cs, cache', requests r ++ rq)
  end.

Record ToolResult := { output : string; cacheLeft : gmap string CacheEntry; issued : list string }.

(** ** get-documentation *)

Definition relatedLine (t : Topic) : string :=
  "- " +:+ title (topicMetadata t) +:+ " (use get-documentation with topic " +:+
  dq +:+ topicName t +:+ dq +:+ ")".

Definition relatedTopicsText (topic : Topic) : string :=
  let related := relatedTopics (topicMetadata topic) in
  if (0 <? length related)%nat
  then nl +:+ nl +:+ "## Related Topics" +:+ nl +:+ nl +:+
       JS.join nl (map relatedLine related)
  else EmptyString.

Definition get_documentation (env : Env) (cache : gmap string CacheEntry) (topic : Topic)
  : ToolResult :=
  let r := fetchDocMarkdown env cache (pathMap topic) in
  {| output := text r +:+ relatedTopicsText topic;
     cacheLeft := cacheAfter r;
     issued := requests r |}.

(** ** search-documentation *)

Record SearchResult := {
  sr_title : string; sr_topic : Topic; sr_section : string; sr_excerpt : string }.

(** The window around the first occurrence of the query in a section body,
    as the loop body computes [excerpt]. *)
Definition excerptOf (sectionContent queryLower : string) : string :=
  let index := JS.indexOf (JS.toLowerCase sectionContent) queryLower in
  let start := Z.max 0 (index - 150) in
  let end_ := Z.min (JS.len sectionContent) (index + JS.len queryLower + 150) in
  (if 0 <? start then "..." else EmptyString) +:+
  JS.collapseNewlines (JS.substring sectionContent start end_) +:+
  (if end_ <? JS.len sectionContent then "..." else EmptyString).

(** [lines.slice(1).join("\n")] *)
Definition sectionBody (section : string) : string :=
  let lines := JS.splitLines section in
  JS.join nl (JS.slice lines 1 (Z.of_nat (length lines))).

(** [lines[0] || ""] *)
Definition sectionTitleOf (section : string) : string :=
  JS.orElse (hd EmptyString (JS.splitLines section)) EmptyString.

(** The [for] loop over the sections: [(bestSection, bestContext)] as they
    stand after it, the first section that contains the query deciding. *)
Fixpoint scanSections (sections : list string) (queryLower : string) : string * string :=
  match sections with
  | [] => (EmptyString, EmptyString)
  | section :: rest =>
      if JS.includes (JS.toLowerCase section) queryLower
      then (sectionTitleOf section, excerptOf (sectionBody section) queryLower)
      else scanSections rest queryLower
  end.

(** One callback of [searchPromises], after its fetch. *)
Definition searchOne (query : string) (topic : Topic) (content : string)
  : option SearchResult :=
  let queryLower := JS.toLowerCase query in
  if JS.includes (JS.toLowerCase content) queryLower
  then
    let '(bestSection, bestContext) := scanSections (JS.splitHeadings content) queryLower in
    Some {| sr_title := title (topicMetadata topic);
            sr_topic := topic;
            sr_section := bestSection;
            sr_excerpt := JS.orElse bestContext (JS.substring content 0 200 +:+ "...") |}
  else None.

(** [(await Promise.all(searchPromises)).filter(Boolean)]: the documents in
    registry order, each with the content its fetch gave. *)
Fixpoint searchResults (query : string) (docs : list Topic) (contents : list string)
  : list SearchResult :=
  match docs, contents with
  | topic :: docs', c :: contents' =>
      match searchOne query topic c with
      | Some r => r :: searchResults query docs' contents'
      | None => searchResults query docs' contents'
      end
  | _, _ => []
  end.

Definition formatResult (r : SearchResult) : string :=
  let sectionHeading :=
    if JS.truthy (sr_section r) then "### " +:+ sr_section r +:+ nl +:+ nl else EmptyString in
  "## " +:+ sr_title r +:+ nl +:+ nl +:+ sectionHeading +:+ sr_excerpt r +:+ nl +:+ nl +:+
  "*For full documentation, use the get-documentation tool with topic " +:+
  dq +:+ topicName (sr_topic r) +:+ dq +:+ ".*".

Definition suggestionLine (t : Topic) : string :=
  "- " +:+ title (topicMetadata t) +:+ " (use get-documentation with topic " +:+
  dq +:+ topicName t +:+ dq +:+ ")".

Definition possibleTopics (query : string) : list Topic :=
  List.filter
    (fun t => JS.includes (topicName t) (JS.toLowerCase query) ||
              JS.includes (JS.toLowerCase (title (topicMetadata t))) (JS.toLowerCase query))
    registryOrder.

Definition noResultsText (query : string) : string :=
  let suggestionText :=
    if (0 <? length (possibleTopics query))%nat
    then nl +:+ nl +:+ "You might be interested in these topics:" +:+ nl +:+ nl +:+
         JS.join nl (map suggestionLine (possibleTopics query))
    else EmptyString in
  "No results found for " +:+ dq +:+ query +:+ dq +:+
  ". Try a different search term." +:+ suggestionText.

Definition resultsText (query : string) (results : list SearchResult) : string :=
  "# Search Results for " +:+ dq +:+ query +:+ dq +:+ nl +:+ nl +:+
  JS.join (nl +:+ nl +:+ "---" +:+ nl +:+ nl) (map formatResult results).

Definition search_documentation (env : Env) (cache : gmap string CacheEntry) (query : string)
  : ToolResult :=
  let '(contents, cache', rq) := fetchAll env cache (map pathMap registryOrder) in
  let results := searchResults query registryOrder contents in
  {| output := if (length results =? 0)%nat then noResultsText query
               else resultsText query results;
     cacheLeft := cache';
     issued := rq |}.

(** ** get-code-examples *)

Inductive Sdk := Nodejs | Python.

Definition sdkName (sdk : Sdk) : string :=
  match sdk with Nodejs => "nodejs" | Python => "python" end.

(** The alternatives of [codeBlockRegex], in the order the pattern lists
    them. *)
Definition codeBlockTags (language : Sdk) : list string :=
  match language with
  | Nodejs => ["javascript"; "typescript"; "js"; "nodejs"; "node"]
  | Python => ["python"; "py"]
  end.

(** [relevantBlocks] of one topic's document. *)
Definition relevantBlocks (feature : string) (language : Sdk) (content : string)
  : list string :=
  let featureLower := JS.toLowerCase feature in
  List.filter
    (fun code =>
       JS.includes (JS.toLowerCase code) featureLower ||
       JS.includes
         (JS.toLowerCase
            (JS.substring content
               (Z.max 0 (JS.indexOf content code - 300))
               (JS.indexOf content code)))
         featureLower)
    (map JS.trim (JS.matchAllBlocks (codeBlockTags language) content)).

Record CodeExample := { ce_topic : Topic; ce_title : string; ce_examples : list string }.

Definition potentialTopics (feature : string) : list Topic :=
  List.filter
    (fun t => JS.includes (JS.toLowerCase (topicName t)) (JS.toLowerCase feature) ||
              JS.includes (JS.toLowerCase (title (topicMetadata t))) (JS.toLowerCase feature))
    registryOrder.

Definition topicsToSearch (feature : string) : list Topic :=
  if (0 <? length (potentialTopics feature))%nat then potentialTopics feature
  else registryOrder.

Definition examplesOne (feature : string) (language : Sdk) (topic : Topic) (content : string)
  : option CodeExample :=
  let blocks := relevantBlocks feature language content in
  if (length blocks =? 0)%nat then None
  else Some {| ce_topic := topic; ce_title := title (topicMetadata topic);
               ce_examples := blocks |}.

(** [allExamples]: the topics searched, each with the content its fetch
    gave, without those that yield no block. *)
Fixpoint allExamples (feature : string) (language : Sdk)
    (topics : list Topic) (contents : list string) : list CodeExample :=
  match topics, contents with
  | topic :: topics', c :: contents' =>
      match examplesOne feature language topic c with
      | Some e => e :: allExamples feature language topics' contents'
      | None => allExamples feature language topics' contents'
      end
  | _, _ => []
  end.

(** The examples [get-code-examples] renders, with the cache and the
    requests of its fetches. *)
Definition get_code_examples (env : Env) (cache : gmap string CacheEntry)
    (feature : string) (language : Sdk)
  : list CodeExample * gmap string CacheEntry * list string :=
  let topics := topicsToSearch feature in
  let '(contents, cache', rq) := fetchAll env cache (map pathMap topics) in
  (allExamples feature language topics contents, cache', rq).

(** ** solve-problem *)

Record Category := { category : string; keywords : list string; topics : list Topic }.

Definition problemCategories : list Category :=
  [ {| category := "Authentication";
       keywords := ["api key"; "auth"; "authentication"; "unauthorized"; "401"];
       topics := [ApiKeys; ErrorHandling] |};
    {| category := "Payments";
       keywords := ["payment"; "send payment"; "transaction"; "failed payment"];
       topics := [SendPayments; ErrorHandling] |};
    {| category := "Payees";
       keywords := ["payee"; "recipient"; "create payee"; "add payee"];
       topics := [CreatePayee; CreatePayees] |};
    {| category := "Setup";
       keywords := ["install"; "setup"; "configuration"; "sdk"; "initialize"];
       topics := [SetupAndInstallation; Quickstart] |};
    {| category := "Error Handling";
       keywords := ["error"; "exception"; "crash"; "failed"];
       topics := [ErrorHandling; ApiReference] |} ].

Definition categoryMatches (problemLower : string) (cat : Category) : bool :=
  existsb (fun keyword => JS.includes problemLower keyword) (keywords cat).

Definition matchingCategories (problem : string) : list Category :=
  List.filter (categoryMatches (JS.toLowerCase problem)) problemCategories.

Definition topicsToConsult (problem : string) : list Topic :=
  if (0 <? length (matchingCategories problem))%nat
  then flat_map topics (matchingCategories problem)
  else [ErrorHandling; ApiReference; Quickstart].

(** [uniqueTopics]: the topics the answer lists under "Relevant
    Documentation".  The tool fetches nothing. *)
Definition uniqueTopics (problem : string) : list Topic :=
  JS.uniq (topicsToConsult problem).

(** ** get-sdk-help *)

Definition sdkTopics : list Topic :=
  [SetupAndInstallation; CreatePayees; SendPayments; CreatePayee; SearchPayees;
   CheckBalances].

Definition sdkIdentifier (sdk : Sdk) : list string :=
  match sdk with
  | Nodejs => ["node"; "nodejs"; "javascript"; "js"]
  | Python => ["python"; "py"]
  end.

Definition relevant (sdk : Sdk) (feature content : string) : bool :=
  let contentLower := JS.toLowerCase content in
  let featureLower := JS.toLowerCase feature in
  existsb
    (fun id =>
       JS.includes contentLower id &&
       JS.includes contentLower featureLower &&
       (Z.abs (JS.indexOf contentLower id - JS.indexOf contentLower featureLower) <? 500))
    (sdkIdentifier sdk).

(** The [while] loop: from [headingIndex] down to the first line that starts
    with [#], stopping at line 0. *)
Fixpoint walkUp (lines : list string) (headingIndex : nat) : nat :=
  match headingIndex with
  | O => O
  | S below =>
      if JS.startsWith (default EmptyString (lines !! headingIndex)) "#"
      then headingIndex
      else walkUp lines below
  end.

Record HelpResult := {
  hr_topic : Topic; hr_heading : string; hr_content : string; hr_relevance : Z }.

(** One callback of [helpPromises], after its fetch. *)
Definition helpOne (sdk : Sdk) (feature : string) (topic : Topic) (content : string)
  : option HelpResult :=
  let featureLower := JS.toLowerCase feature in
  if negb (relevant sdk feature content) then None
  else
    let lines := JS.splitLines content in
    let featureIndex :=
      JS.findIndex (fun line => JS.includes (JS.toLowerCase line) featureLower) lines in
    if featureIndex =? -1 then None
    else
      let headingIndex := walkUp lines (Z.to_nat featureIndex) in
      let sectionHeading := default EmptyString (lines !! headingIndex) in
      let sectionContent :=
        JS.join nl (JS.slice lines (Z.of_nat headingIndex) (featureIndex + 20)) in
      Some {| hr_topic := topic;
              hr_heading := sectionHeading;
              hr_content := sectionContent;
              hr_relevance :=
                (if JS.includes (JS.toLowerCase content) (sdkName sdk) then 2 else 1) +
                (if JS.includes (JS.toLowerCase sectionContent) featureLower then 3 else 0) |}.

Fixpoint helpFound (sdk : Sdk) (feature : string)
    (topics : list Topic) (contents : list string) : list HelpResult :=
  match topics, contents with
  | topic :: topics', c :: contents' =>
      match helpOne sdk feature topic c with
      | Some r => r :: helpFound sdk feature topics' contents'
      | None => helpFound sdk feature topics' contents'
      end
  | _, _ => []
  end.

(** The comparator of [helpResults.sort]. *)
Definition byRelevance (a b : HelpResult) : Z := hr_relevance b - hr_relevance a.

(** [helpResults] after the sort, from the contents of the six SDK topics. *)
Definition helpResults (sdk : Sdk) (feature : string) (contents : list string)
  : list HelpResult :=
  JS.sort byRelevance (helpFound sdk feature sdkTopics contents).

Definition sdkUpper (sdk : Sdk) : string :=
  match sdk with Nodejs => "NODEJS" | Python => "PYTHON" end.

Definition helpSection (result : HelpResult) : string :=
  "## From " +:+ title (topicMetadata (hr_topic result)) +:+ nl +:+ nl +:+
  hr_content result +:+ nl +:+ nl +:+
  "*For complete documentation, use get-documentation with topic " +:+
  dq +:+ topicName (hr_topic result) +:+ dq +:+ "*" +:+ nl +:+ nl +:+ "---" +:+ nl +:+ nl.

Definition helpText (sdk : Sdk) (feature : string) (results : list HelpResult) : string :=
  if (length results =? 0)%nat
  then "No specific help found for " +:+ feature +:+ " in the " +:+ sdkName sdk +:+
       " SDK. Try checking the full SDK documentation with get-documentation " +:+
       "or using more generic terms."
  else
    "# " +:+ sdkUpper sdk +:+ " SDK Help: " +:+ feature +:+ nl +:+ nl +:+
    String.concat EmptyString (map helpSection results) +:+
    "## Additional Resources" +:+ nl +:+ nl +:+
    "- Setup and Installation: use get-documentation with topic " +:+
      dq +:+ "setup-and-installation" +:+ dq +:+ nl +:+
    "- Error Handling: use get-documentation with topic " +:+
      dq +:+ "error-handling" +:+ dq +:+ nl +:+
    "- For code examples, try the get-code-examples tool with feature=" +:+
      dq +:+ feature +:+ dq +:+ " and language=" +:+ dq +:+ sdkName sdk +:+ dq +:+ nl.

Definition get_sdk_help (env : Env) (cache : gmap string CacheEntry)
    (sdk : Sdk) (feature : string) : ToolResult :=
  let '(contents, cache', rq) := fetchAll env cache (map pathMap sdkTopics) in
  {| output := helpText sdk feature (helpResults sdk feature contents);
     cacheLeft := cache';
     issued := rq |}.

(** ** Specification-side definitions *)

(** The ways a remote fetch fails: the network rejects, the status is outside
    200..299, or reading the body rejects. *)
Inductive fetchError (env : Env) (path : string) : Thrown -> Prop :=
| NetworkFailure e :
    fetch env (docUrl path) = Throw e -> fetchError env path e
| BadStatus response :
    fetch env (docUrl path) = Normal response ->
    ((status response < 200) \/ (299 < status response))%N ->
    fetchError env path (ErrorObject ("Failed to fetch: " +:+ pretty (status response)))
| BodyFailure response e :
    fetch env (docUrl path) = Normal response ->
    (200 <= status response <= 299)%N ->
    body response = Throw e ->
    fetchError env path e.

(** The contents the fetches of a tool give, in the order of the paths. *)
Definition contentsOf (env : Env) (cache : gmap string CacheEntry) (paths : list string)
  : list string := (fetchAll env cache paths).1.1.

(** Two consecutive [get-documentation] calls for a topic: the second runs on
    the cache the first left. *)
Definition secondCall (env1 env2 : Env) (cache : gmap string CacheEntry) (topic : Topic)
  : ToolResult :=
  get_documentation env2 (cacheLeft (get_documentation env1 cache topic)) topic.

(** Idempotence as the specification words it: a second call made less than
    the time to live after the first returns the same text and issues no
    request. *)
Definition idempotent (env1 env2 : Env) (cache : gmap string CacheEntry) (topic : Topic)
  : Prop :=
  now env1 <= now env2 < now env1 + CACHE_TTL ->
  output (secondCall env1 env2 cache topic) = output (get_documentation env1 cache topic) /\
  issued (secondCall env1 env2 cache topic) = [].

(** A network that is down, and one that serves a page. *)
Definition envDown (t : Z) : Env :=
  {| now := t; fetch := fun _ => Throw (ErrorObject "getaddrinfo ENOTFOUND docs.paymanai.com") |}.

Definition envServing (t : Z) (page : string) : Env :=
  {| now := t; fetch := fun _ => Normal {| status := 200; body := Normal page |} |}.

(** The section the loop of [search-documentation] selects: the first piece
    of the split, in order, whose lower-cased text contains the query. *)
Definition selectedSection (content queryLower section : string) : Prop :=
  exists pre post,
    JS.splitHeadings content = pre ++ section :: post /\
    forallb (fun s => negb (JS.includes (JS.toLowerCase s) queryLower)) pre = true /\
    JS.includes (JS.toLowerCase section) queryLower = true.

(** The window as the specification describes it, for a body in which the
    query of length [q] first occurs at position [i]: the text from
    [max(0, i - 150)] to [min(L, i + q + 150)] with every run of newlines
    collapsed to one space, preceded by an ellipsis when the window starts
    after the start of the body and followed by one when it ends before the
    end of the body: "clipped" read as text of the body being left out on
    that side. *)
Definition windowSpec (body : string) (i q : nat) : string :=
  let L := String.length body in
  let lo := Nat.max 0 (i - 150) in
  let hi := Nat.min L (i + q + 150) in
  (if (0 <? lo)%nat then "..." else EmptyString) +:+
  JS.collapseNewlines (JS.stake (hi - lo) (JS.sdrop lo body)) +:+
  (if (hi <? L)%nat then "..." else EmptyString).

(** The excerpt claim as the specification words it. *)
Definition excerptWindowed (query : string) (topic : Topic) (content : string) : Prop :=
  forall section i,
    selectedSection content (JS.toLowerCase query) section ->
    JS.find (JS.toLowerCase (sectionBody section)) (JS.toLowerCase query) = Some i ->
    exists r,
      searchOne query topic content = Some r /\
      sr_excerpt r = windowSpec (sectionBody section) i (String.length query).

(** The other reading of "clipped": an ellipsis on the side where the reach
    of 150 characters was cut at a bound of the body. *)
Definition windowCutAtBounds (body : string) (i q : nat) : string :=
  let L := String.length body in
  let lo := Nat.max 0 (i - 150) in
  let hi := Nat.min L (i + q + 150) in
  (if (i <? 150)%nat then "..." else EmptyString) +:+
  JS.collapseNewlines (JS.stake (hi - lo) (JS.sdrop lo body)) +:+
  (if (L <? i + q + 150)%nat then "..." else EmptyString).

Definition excerptCutAtBounds (query : string) (topic : Topic) (content : string) : Prop :=
  forall section i,
    selectedSection content (JS.toLowerCase query) section ->
    JS.find (JS.toLowerCase (sectionBody section)) (JS.toLowerCase query) = Some i ->
    exists r,
      searchOne query topic content = Some r /\
      sr_excerpt r = windowCutAtBounds (sectionBody section) i (String.length query).

(** The elements of a list in the order they are first seen, each once:
    what remains when every later repetition is struck out. *)
Fixpoint keepFirst {A} `{EqDecision A} (l : list A) : list A :=
  match l with
  | [] => []
  | x :: l' => x :: filter (fun y => y <> x) (keepFirst l')
  end.

(** A category matches when one of its keywords is contained in the problem,
    letter case apart. *)
Definition categoryTriggered (problem : string) (cat : Category) : bool :=
  existsb
    (fun keyword => JS.includes (JS.toLowerCase problem) (JS.toLowerCase keyword))
    (keywords cat).

(** A line begins with a heading marker, as the specification defines the
    marker: one or more [#] followed by white space. *)
Definition beginsWithMarker (line : string) : bool :=
  match JS.headingMarker line with Some _ => true | None => false end.

(** The excerpt of [get-sdk-help] as the specification words it: from the
    nearest line before the feature line that begins with a heading marker
    (line 0 if there is none) through the line 20 lines past the feature
    line. *)
Fixpoint precedingHeading (lines : list string) (featureIndex : nat) : nat :=
  match featureIndex with
  | O => O
  | S j =>
      if beginsWithMarker (default EmptyString (lines !! j)) then j
      else precedingHeading lines j
  end.

Definition excerptAsStated (lines : list string) (featureIndex : nat) : string :=
  let h := precedingHeading lines featureIndex in
  JS.join nl (take (featureIndex + 20 + 1 - h) (drop h lines)).

Definition excerptClaim (sdk : Sdk) (feature : string) (topic : Topic) (content : string)
  : Prop :=
  forall r f,
    helpOne sdk feature topic content = Some r ->
    JS.findIndex
      (fun line => JS.includes (JS.toLowerCase line) (JS.toLowerCase feature))
      (JS.splitLines content) = Z.of_nat f ->
    hr_content r = excerptAsStated (JS.splitLines content) f.

(** A page with 20 lines after the feature line, a page whose feature line
    is itself a heading, and a page with a line that begins with [#] and is
    no heading. *)
Definition longPage : string :=
  JS.join nl ("# Python SDK" :: "client.pay(amount)" :: replicate 20 "more").

Definition headingPage : string :=
  JS.join nl ["# Python SDK"; "intro"; "## How to pay"; "client.pay(amount)"].

Definition shebangPage : string :=
  JS.join nl ["# Python SDK"; "#!/usr/bin/env python"; "import payman"].

(** Pages for [get-code-examples]: one with a JSON block, one whose code
    also stands in the prose at the start of the page, and one with a Python
    and a JavaScript block. *)
Definition jsonPage : string :=
  JS.join nl
    ["## Create a payee"; "";
     "The API answers:"; "";
     "```json";
     "{ " +:+ dq +:+ "type" +:+ dq +:+ ": " +:+ dq +:+ "payee" +:+ dq +:+ " }";
     "```"].

Definition repeatedPage : string :=
  JS.join nl
    ["client.pay() sends money."; "";
     "To refund a payment, call it with a negative amount:"; "";
     "```python";
     "client.pay()";
     "```"].

Definition twoLanguagePage : string :=
  JS.join nl
    ["## Send a payment"; "";
     "```python";
     "client.payments.send_payment(amount=10)";
     "```"; "";
     "```javascript";
     "await client.payments.sendPayment({ amount: 10 });";
     "```"].

(** [sapp] pushes an append inside the characters written out at the head
    of its left operand. *)
Ltac sapp :=
  repeat match goal with
         | |- context [String ?c ?a +:+ ?b] =>
             change (String c a +:+ b) with (String c (a +:+ b))
         | |- context [EmptyString +:+ ?b] =>
             change (EmptyString +:+ b) with b
         end.

(** ** The answer of get-code-examples *)

(** The label of the fences the answer writes. *)
Definition fenceLabel (language : Sdk) : string :=
  match language with Nodejs => "javascript" | Python => "python" end.

(** The inner [forEach]: the examples of a topic, numbered from
    [index + 1]. *)
Fixpoint examplesText (language : Sdk) (index : nat) (examples : list string) : string :=
  match examples with
  | [] => EmptyString
  | code :: rest =>
      "### Example " +:+ pretty (index + 1)%nat +:+ nl +:+ nl +:+
      "```" +:+ fenceLabel language +:+ nl +:+ code +:+ nl +:+ "```" +:+ nl +:+ nl +:+
      examplesText language (S index) rest
  end.

Definition topicExamplesText (language : Sdk) (topicExamples : CodeExample) : string :=
  "## From " +:+ ce_title topicExamples +:+ nl +:+ nl +:+
  examplesText language O (ce_examples topicExamples) +:+
  "*For more context, check the full documentation: use get-documentation with topic " +:+
  dq +:+ topicName (ce_topic topicExamples) +:+ dq +:+ ".*" +:+ nl +:+ nl +:+
  "---" +:+ nl +:+ nl.

(** The outer [forEach]. *)
Fixpoint allExamplesText (language : Sdk) (all : list CodeExample) : string :=
  match all with
  | [] => EmptyString
  | topicExamples :: rest =>
      topicExamplesText language topicExamples +:+ allExamplesText language rest
  end.

Definition codeExamplesText (feature : string) (language : Sdk) (all : list CodeExample)
  : string :=
  if (length all =? 0)%nat
  then "No " +:+ sdkName language +:+ " code examples found for " +:+ dq +:+ feature +:+ dq +:+
       ". Try searching for a different feature or check the full documentation " +:+
       "using get-documentation."
  else "# " +:+ sdkUpper language +:+ " Code Examples for " +:+ dq +:+ feature +:+ dq +:+
       nl +:+ nl +:+ allExamplesText language all.

Definition get_code_examples_answer (env : Env) (cache : gmap string CacheEntry)
    (feature : string) (language : Sdk) : ToolResult :=
  let '(all, cache', rq) := get_code_examples env cache feature language in
  {| output := codeExamplesText feature language all; cacheLeft := cache'; issued := rq |}.

(** ** The answer of solve-problem *)

Definition sdkGuidance (sdk : Sdk) : string :=
  "## " +:+ sdkUpper sdk +:+ " SDK Specific Guidance" +:+ nl +:+ nl +:+
  "When working with the " +:+ sdkName sdk +:+ " SDK, make sure to:" +:+ nl +:+ nl +:+
  match sdk with
  | Nodejs =>
      "- Check you're using the latest version: `npm view @paymanai/sdk version`" +:+ nl +:+
      "- Update if needed: `npm install @paymanai/sdk@latest`" +:+ nl +:+
      "- Verify your environment variables are set correctly" +:+ nl +:+
      "- Use try/catch blocks to properly handle API errors" +:+ nl +:+ nl
  | Python =>
      "- Check you're using the latest version: `pip show paymanai`" +:+ nl +:+
      "- Update if needed: `pip install --upgrade paymanai`" +:+ nl +:+
      "- Handle exceptions properly with try/except blocks" +:+ nl +:+
      "- Ensure your Python version is compatible (3.7+)" +:+ nl +:+ nl
  end.

Definition troubleshootingSteps : string :=
  "## Troubleshooting Steps" +:+ nl +:+ nl +:+
  "1. **Check your API credentials** - " +:+
    "Verify your API key is valid and correctly formatted" +:+ nl +:+
  "2. **Look for specific error codes** - " +:+
    "Error codes provide detailed information about what went wrong" +:+ nl +:+
  "3. **Check your request format** - " +:+
    "Ensure all required parameters are included and properly formatted" +:+ nl +:+
  "4. **Review rate limits** - Make sure you're not exceeding API rate limits" +:+ nl +:+ nl.

Definition documentationLine (topic : Topic) : string :=
  "- " +:+ title (topicMetadata topic) +:+ ": use get-documentation with topic " +:+
  dq +:+ topicName topic +:+ dq +:+ nl.

Fixpoint documentationLines (consulted : list Topic) : string :=
  match consulted with
  | [] => EmptyString
  | topic :: rest => documentationLine topic +:+ documentationLines rest
  end.

(** [solutionText] as the tool builds it; [sdk] is absent or one of the two
    SDKs. *)
Definition solve_problem (problem : string) (sdk : option Sdk) : string :=
  "# Solution for: " +:+ dq +:+ problem +:+ dq +:+ nl +:+ nl +:+
  (if (0 <? length (matchingCategories problem))%nat
   then "This appears to be a " +:+
        JS.join "/" (map category (matchingCategories problem)) +:+
        " related issue." +:+ nl +:+ nl
   else EmptyString) +:+
  (match sdk with
   | Some s => sdkGuidance s
   | None => EmptyString
   end) +:+
  troubleshootingSteps +:+
  "## Relevant Documentation" +:+ nl +:+ nl +:+
  documentationLines (uniqueTopics problem).

(** The keywords that decide the categories: the table without the keywords
    that contain another keyword of their category. *)
Definition decidingKeywords (cat : Category) : list string :=
  List.filter
    (fun keyword =>
       negb (existsb
               (fun other => negb (String.eqb other keyword) && JS.includes keyword other)
               (keywords cat)))
    (keywords cat).

(** The topics that occur in the table of categories or in the default. *)
Definition routedTopics : list Topic :=
  [ApiKeys; ErrorHandling; SendPayments; CreatePayee; CreatePayees;
   SetupAndInstallation; Quickstart; ApiReference].

(** The cache the fetches of a tool leave, and the requests they issue. *)
Definition cacheOf (env : Env) (cache : gmap string CacheEntry) (paths : list string)
  : gmap string CacheEntry := (fetchAll env cache paths).1.2.

Definition requestsOf (env : Env) (cache : gmap string CacheEntry) (paths : list string)
  : list string := (fetchAll env cache paths).2.

(** ** Texts with code units above 255

    The strings of this development hold the code units 0..255, on which
    [toLowerCase] maps unit to unit.  Beyond them it does not always: U+0130
    (capital I with dot above) becomes the two units U+0069 U+0307.  The
    excerpt of [search-documentation] takes an index and a length in the
    lower-cased text and cuts the text as it is with them, so this is where
    the difference shows.  [Wide] repeats the excerpt computation on code
    units as numbers, for texts made of the units below 256 and U+0130; what
    [toLowerCase] does to other units is left open ([None]). *)
Module Wide.

(** The code units of a string of the development. *)
Definition ofString (s : string) : list N := map N_of_ascii (list_ascii_of_string s).

(** [toLowerCase] on one code unit. *)
Definition lowerUnit (u : N) : option (list N) :=
  if (u <? 256)%N then Some [N_of_ascii (JS.lowerChar (ascii_of_N u))]
  else if (u =? 304)%N then Some [105; 775]%N
  else None.

Fixpoint toLowerCase (s : list N) : option (list N) :=
  match s with
  | [] => Some []
  | u :: s' =>
      match lowerUnit u, toLowerCase s' with
      | Some l, Some r => Some (l ++ r)
      | _, _ => None
      end
  end.

Fixpoint startsWith (s p : list N) {struct p} : bool :=
  match p, s with
  | [], _ => true
  | _ :: _, [] => false
  | a :: p', b :: s' => if (a =? b)%N then startsWith s' p' else false
  end.

Fixpoint find (s needle : list N) : option nat :=
  if startsWith s needle then Some 0%nat
  else match s with
       | [] => None
       | _ :: s' => S <$> find s' needle
       end.

Definition indexOf (s needle : list N) : Z :=
  match find s needle with
  | Some i => Z.of_nat i
  | None => -1
  end.

Definition len (s : list N) : Z := Z.of_nat (length s).

Definition substring (s : list N) (a b : Z) : list N :=
  let a' := Z.min (Z.max a 0) (len s) in
  let b' := Z.min (Z.max b 0) (len s) in
  let lo := Z.min a' b' in
  let hi := Z.max a' b' in
  take (Z.to_nat (hi - lo)) (drop (Z.to_nat lo) s).

Fixpoint collapseFrom (inRun : bool) (s : list N) : list N :=
  match s with
  | [] => []
  | u :: s' =>
      if (u =? 10)%N
      then if inRun then collapseFrom true s'
           else 32%N :: collapseFrom true s'
      else u :: collapseFrom false s'
  end.

Definition collapseNewlines (s : list N) : list N := collapseFrom false s.

(** The loop body of [search-documentation] that computes [excerpt], on code
    units. *)
Definition excerptOf (sectionContent queryLower : list N) : option (list N) :=
  match toLowerCase sectionContent with
  | None => None
  | Some lowered =>
      let index := indexOf lowered queryLower in
      let start := Z.max 0 (index - 150) in
      let end_ := Z.min (len sectionContent) (index + len queryLower + 150) in
      Some ((if 0 <? start then ofString "..." else []) ++
            collapseNewlines (substring sectionContent start end_) ++
            (if end_ <? len sectionContent then ofString "..." else []))
  end.

(** The query stands at index [i] of the body, letter case apart: the units
    of the body from [i], as many as the query has, lower-case to what the
    query lower-cases to. *)
Definition occursAt (body query : list N) (i : nat) : bool :=
  bool_decide (i + length query <= length body)%nat &&
  match toLowerCase (take (length query) (drop i body)), toLowerCase query with
  | Some a, Some b => bool_decide (a = b)
  | _, _ => false
  end.

Definition firstOccurrence (body query : list N) (i : nat) : Prop :=
  occursAt body query i = true /\
  forallb (fun j => negb (occursAt body query j)) (seq 0 i) = true.

(** The window as the specification describes it, on code units. *)
Definition windowSpec (body : list N) (i q : nat) : list N :=
  let L := length body in
  let lo := Nat.max 0 (i - 150) in
  let hi := Nat.min L (i + q + 150) in
  (if (0 <? lo)%nat then ofString "..." else []) ++
  collapseNewlines (take (hi - lo) (drop lo body)) ++
  (if (hi <? L)%nat then ofString "..." else []).

(** The excerpt claim as the specification words it, for a section body. *)
Definition excerptWindowed (body query : list N) : Prop :=
  forall queryLower i,
    toLowerCase query = Some queryLower ->
    firstOccurrence body query i ->
    excerptOf body queryLower = Some (windowSpec body i (length query)).

(** A section body that begins with 200 capital I with dot above, followed by
    the word needle between spaces and 300 letters z. *)
Definition dottedBody : list N :=
  replicate 200 304%N ++ ofString " needle " ++ replicate 300 122%N.

End Wide.

(** ** Facts about the string primitives *)

Lemma app_nil_s (b : string) : EmptyString +:+ b = b.
Proof. reflexivity. Qed.

Lemma app_cons_s (c : ascii) (a b : string) : String c a +:+ b = String c (a +:+ b).
Proof. reflexivity. Qed.

Lemma app_empty_r (s : string) : s +:+ EmptyString = s.
Proof. induction s as [|c s IH]; sapp; [done | by rewrite IH]. Qed.

Lemma app_assoc_s (a b c : string) : (a +:+ b) +:+ c = a +:+ b +:+ c.
Proof. induction a as [|x a IH]; sapp; [done | by rewrite IH]. Qed.

Lemma length_app_s (a b : string) :
  String.length (a +:+ b) = (String.length a + String.length b)%nat.
Proof. induction a as [|x a IH]; sapp; simpl; [done | by rewrite IH]. Qed.

Lemma startsWith_app (p r : string) : JS.startsWith (p +:+ r) p = true.
Proof.
  induction p as [|c p IH]; sapp; simpl; [done |].
  by rewrite Ascii.eqb_refl.
Qed.

Lemma startsWith_inv (s p : string) :
  JS.startsWith s p = true -> exists r, s = p +:+ r.
Proof.
  revert s. induction p as [|c p IH]; intros s H.
  - by exists s.
  - destruct s as [|d s]; simpl in H; [done |].
    destruct (Ascii.eqb c d) eqn:E; [| done].
    apply Ascii.eqb_eq in E as ->.
    destruct (IH _ H) as [r ->]. by exists r.
Qed.

Lemma startsWith_empty (s : string) : JS.startsWith s EmptyString = true.
Proof. by destruct s. Qed.

Lemma includes_here (s n : string) :
  JS.startsWith s n = true -> JS.includes s n = true.
Proof. intros H. destruct s; simpl in *; by rewrite H. Qed.

Lemma includes_cons (c : ascii) (s n : string) :
  JS.includes s n = true -> JS.includes (String c s) n = true.
Proof. intros H. cbn [JS.includes]. rewrite H. apply orb_true_r. Qed.

Lemma includes_app_l (a s n : string) :
  JS.includes s n = true -> JS.includes (a +:+ s) n = true.
Proof.
  intros H. induction a as [|c a IH]; sapp; [done |].
  by apply includes_cons.
Qed.

Lemma includes_intro (a n b : string) : JS.includes (a +:+ n +:+ b) n = true.
Proof. apply includes_app_l, includes_here, startsWith_app. Qed.

Lemma includes_inv (s n : string) :
  JS.includes s n = true -> exists a b, s = a +:+ n +:+ b.
Proof.
  induction s as [|c s IH]; simpl; intros H.
  - rewrite orb_false_r in H. apply startsWith_inv in H as [r ->].
    by exists EmptyString, r.
  - apply orb_true_iff in H as [H | H].
    + apply startsWith_inv in H as [r ->]. by exists EmptyString, r.
    + destruct (IH H) as (a & b & ->). by exists (String c a), b.
Qed.

Lemma includes_app_r (s b n : string) :
  JS.includes s n = true -> JS.includes (s +:+ b) n = true.
Proof.
  intros H. apply includes_inv in H as (a & r & ->).
  rewrite !app_assoc_s. apply includes_intro.
Qed.

Lemma includes_refl (s : string) : JS.includes s s = true.
Proof.
  pose proof (includes_intro EmptyString s EmptyString) as H.
  simpl in H. by rewrite app_empty_r in H.
Qed.

Lemma includes_trans (s m n : string) :
  JS.includes s m = true -> JS.includes m n = true -> JS.includes s n = true.
Proof.
  intros H1 H2.
  apply includes_inv in H1 as (a & b & ->).
  by apply includes_app_l, includes_app_r.
Qed.

Lemma find_includes (s n : string) :
  JS.includes s n = true <-> is_Some (JS.find s n).
Proof.
  induction s as [|c s IH]; simpl.
  - rewrite orb_false_r. destruct (JS.startsWith _ _).
    + split; [intros _; by exists 0%nat | done].
    + split; [done | by intros [? ?]].
  - destruct (JS.startsWith _ _); simpl.
    + split; [intros _; by exists 0%nat | done].
    + rewrite IH. split; intros [i Hi].
      * rewrite Hi. by exists (S i).
      * destruct (JS.find s n) as [k|]; [by exists k | done].
Qed.

Lemma indexOf_miss (s n : string) :
  JS.indexOf s n = -1 <-> JS.includes s n = false.
Proof.
  unfold JS.indexOf. pose proof (find_includes s n) as H.
  destruct (JS.find s n) as [i|].
  - split; [lia |]. intros E. rewrite E in H. destruct H as [_ H].
    by discriminate H.
  - split; [| done]. intros _. destruct (JS.includes s n); [| done].
    destruct H as [H _]. by destruct H.
Qed.

Lemma indexOf_find (s n : string) (i : nat) :
  JS.find s n = Some i -> JS.indexOf s n = Z.of_nat i.
Proof. unfold JS.indexOf. by intros ->. Qed.

(** The position [find] gives is one where the needle stands, it leaves room
    for the needle, and no earlier position has it. *)
Lemma find_spec (s n : string) (i : nat) :
  JS.find s n = Some i ->
  JS.startsWith (JS.sdrop i s) n = true /\
  (i + String.length n <= String.length s)%nat /\
  forall j, (j < i)%nat -> JS.startsWith (JS.sdrop j s) n = false.
Proof.
  revert i. induction s as [|c s IH]; intros i; simpl.
  - destruct (JS.startsWith EmptyString n) eqn:E; [| done].
    intros [= <-]. split; [done |]. split; [| lia].
    apply startsWith_inv in E as [r E]. destruct n; [simpl; lia | done].
  - destruct (JS.startsWith (String c s) n) eqn:E.
    + intros [= <-]. split; [done |]. split; [| lia].
      apply startsWith_inv in E as [r E].
      apply (f_equal String.length) in E. rewrite length_app_s in E.
      simpl in E. lia.
    + destruct (JS.find s n) as [k|] eqn:F; [| done].
      intros [= <-]. destruct (IH k eq_refl) as (H1 & H2 & H3).
      split; [done |]. split; [simpl; lia |].
      intros [|j] Hj; [done |]. simpl. apply H3. lia.
Qed.

Lemma lowerChar_length (s : string) : String.length (JS.toLowerCase s) = String.length s.
Proof. induction s as [|c s IH]; simpl; [done | by rewrite IH]. Qed.

Lemma toLowerCase_app (a b : string) :
  JS.toLowerCase (a +:+ b) = JS.toLowerCase a +:+ JS.toLowerCase b.
Proof. induction a as [|c a IH]; sapp; simpl; [done | by rewrite IH]. Qed.

Lemma includes_lower (s m n : string) :
  JS.includes s m = true ->
  JS.includes (JS.toLowerCase m) n = true ->
  JS.includes (JS.toLowerCase s) n = true.
Proof.
  intros H1 H2. apply includes_inv in H1 as (a & b & ->).
  rewrite !toLowerCase_app. by apply includes_app_l, includes_app_r.
Qed.

Lemma length_sdrop (n : nat) (s : string) :
  String.length (JS.sdrop n s) = (String.length s - n)%nat.
Proof.
  revert s. induction n as [|n IH]; intros [|c s]; simpl; try done.
Qed.

Lemma length_stake (n : nat) (s : string) :
  String.length (JS.stake n s) = Nat.min n (String.length s).
Proof.
  revert s. induction n as [|n IH]; intros [|c s]; simpl; try done.
  by rewrite IH.
Qed.

Lemma join_includes (sep x : string) (l : list string) :
  x ∈ l -> JS.includes (JS.join sep l) x = true.
Proof.
  induction l as [|y l IH]; intros H; [by apply elem_of_nil in H |].
  apply elem_of_cons in H as [-> | H].
  - destruct l; simpl; [apply includes_refl |].
    apply (includes_intro EmptyString).
  - specialize (IH H). destruct l as [|z l]; [by apply elem_of_nil in H |].
    change (JS.join sep (y :: z :: l)) with (y +:+ sep +:+ JS.join sep (z :: l)).
    by do 2 apply includes_app_l.
Qed.

(** *** The primitives on small inputs *)

Example splitHeadings_sections :
  JS.splitHeadings
    (JS.join nl ["intro"; "# A"; "text #1"; "##  B"; ""; "more"; "#not a heading"]) =
  ["intro" +:+ nl;
   "A" +:+ nl +:+ "text #1" +:+ nl;
   "B" +:+ nl +:+ nl +:+ "more" +:+ nl +:+ "#not a heading"].
Proof. reflexivity. Qed.

Example splitHeadings_marker_spans_lines :
  JS.splitHeadings ("#" +:+ nl +:+ "# B") = [EmptyString; EmptyString; "B"].
Proof. reflexivity. Qed.

Example splitLines_trailing_newline :
  JS.splitLines ("a" +:+ nl +:+ nl +:+ "b" +:+ nl) = ["a"; EmptyString; "b"; EmptyString].
Proof. reflexivity. Qed.

Example matchAllBlocks_python :
  JS.matchAllBlocks ["python"; "py"]
    ("```js" +:+ nl +:+ "f()" +:+ nl +:+ "``` and ```py" +:+ nl +:+ "g()" +:+ nl +:+ "```") =
  [nl +:+ "g()" +:+ nl].
Proof. reflexivity. Qed.

Example collapseNewlines_runs :
  JS.collapseNewlines ("a" +:+ nl +:+ nl +:+ nl +:+ "b" +:+ nl +:+ "c") = "a b c".
Proof. reflexivity. Qed.

Example substring_clamps_and_swaps :
  JS.substring "payments" (-3) 3 = "pay" /\
  JS.substring "payments" 5 2 = "yme" /\
  JS.substring "payments" 3 100 = "ments".
Proof. repeat split. Qed.

Example trim_both_ends :
  JS.trim (nl +:+ "  client.pay()  " +:+ nl) = "client.pay()".
Proof. reflexivity. Qed.

Example toLowerCase_ascii : JS.toLowerCase "Send PAYMENT #1" = "send payment #1".
Proof. reflexivity. Qed.

Example uniq_first_seen : JS.uniq [ApiKeys; ErrorHandling; ErrorHandling; ApiReference; ApiKeys]
                          = [ApiKeys; ErrorHandling; ApiReference].
Proof. reflexivity. Qed.

Example slice_relative : JS.slice [1; 2; 3; 4; 5] 1 (-1) = [2; 3; 4] /\
                         JS.slice [1; 2; 3] 2 30 = [3].
Proof. split; reflexivity. Qed.

(** ** The document cache and the fetcher *)

Lemma fetchRemote_error (env : Env) (cache : gmap string CacheEntry) (path : string) e :
  fetchError env path e -> fetchRemote env cache path = Throw e.
Proof.
  unfold fetchRemote, ok. intros [e' H | response H Hs | response e' H Hs Hb]; rewrite H.
  - done.
  - replace ((200 <=? status response)%N && (status response <=? 299)%N) with false; [done |].
    symmetry. apply andb_false_iff.
    destruct Hs; [left; by apply N.leb_gt | right; by apply N.leb_gt].
  - replace ((200 <=? status response)%N && (status response <=? 299)%N) with true.
    + simpl. by rewrite Hb.
    + symmetry. apply andb_true_iff. split; apply N.leb_le; lia.
Qed.

(** The content a remote fetch gives does not depend on the cache it is
    stored into. *)
Lemma fetchRemote_cache (env : Env) (c1 c2 : gmap string CacheEntry) (path : string) :
  match fetchRemote env c1 path, fetchRemote env c2 path with
  | Normal (t1, c1'), Normal (t2, c2') =>
      t1 = t2 /\
      c1' = <[path := {| content := t1; timestamp := now env |}]> c1 /\
      c2' = <[path := {| content := t1; timestamp := now env |}]> c2
  | Throw e1, Throw e2 => e1 = e2
  | _, _ => False
  end.
Proof.
  unfold fetchRemote. destruct (fetch env (docUrl path)) as [response | e]; [| done].
  destruct (negb (ok response)); [done |].
  by destruct (body response).
Qed.

Lemma fetch_miss (env : Env) (cache : gmap string CacheEntry) (path : string) :
  fresh env (cache !! path) = false ->
  fetchDocMarkdown env cache path =
    match fetchRemote env cache path with
    | Normal (c, cache') => {| text := c; cacheAfter := cache'; requests := [docUrl path] |}
    | Throw e => {| text := placeholder path e; cacheAfter := cache; requests := [docUrl path] |}
    end.
Proof.
  unfold fetchDocMarkdown, fresh. destruct (cache !! path) as [entry|]; [| done].
  by intros ->.
Qed.

Lemma fetch_hit (env : Env) (cache : gmap string CacheEntry) (path : string) entry :
  cache !! path = Some entry ->
  now env - timestamp entry < CACHE_TTL ->
  fetchDocMarkdown env cache path =
    {| text := content entry; cacheAfter := cache; requests := [] |}.
Proof.
  intros H Hage. unfold fetchDocMarkdown. rewrite H.
  by apply Z.ltb_lt in Hage as ->.
Qed.

Lemma fetch_miss_requests (env : Env) (cache : gmap string CacheEntry) (path : string) :
  fresh env (cache !! path) = false ->
  requests (fetchDocMarkdown env cache path) = [docUrl path].
Proof.
  intros H. rewrite (fetch_miss _ _ _ H).
  by destruct (fetchRemote env cache path) as [[c cache']|e].
Qed.

(** C1.  The time to live is 3600 seconds (the clock counts milliseconds).
    A call answers from the cache, that is with the content of the entry and
    without a request, exactly when the path has an entry whose age
    [now - timestamp] is below the time to live.  An entry that is at least
    that old is treated as absent: the call issues the request, and its text
    and requests are those of the same call on the cache without the
    entry. *)
Theorem cache_freshness (env : Env) (cache : gmap string CacheEntry) (path : string) :
  CACHE_TTL = 3600 * 1000 /\
  ((exists entry, cache !! path = Some entry /\
      text (fetchDocMarkdown env cache path) = content entry /\
      requests (fetchDocMarkdown env cache path) = [] /\
      cacheAfter (fetchDocMarkdown env cache path) = cache)
   <->
   (exists entry, cache !! path = Some entry /\ now env - timestamp entry < CACHE_TTL)) /\
  (forall entry,
      cache !! path = Some entry ->
      CACHE_TTL <= now env - timestamp entry ->
      requests (fetchDocMarkdown env cache path) = [docUrl path] /\
      text (fetchDocMarkdown env cache path) =
        text (fetchDocMarkdown env (delete path cache) path) /\
      requests (fetchDocMarkdown env cache path) =
        requests (fetchDocMarkdown env (delete path cache) path)).
Proof.
  split; [done |]. split.
  - split.
    + intros (entry & H & _ & Hreq & _). exists entry. split; [done |].
      destruct (Z.ltb_spec (now env - timestamp entry) CACHE_TTL) as [Hlt | Hge];
        [done |].
      rewrite fetch_miss_requests in Hreq; [done |].
      unfold fresh. rewrite H. by apply Z.ltb_ge.
    + intros (entry & H & Hage). exists entry.
      by rewrite (fetch_hit _ _ _ _ H Hage).
  - intros entry H Hage.
    assert (fresh env (cache !! path) = false) as Hstale.
    { unfold fresh. rewrite H. by apply Z.ltb_ge. }
    assert (fresh env (delete path cache !! path) = false) as Habsent.
    { by rewrite lookup_delete_eq. }
    rewrite (fetch_miss _ _ _ Hstale), (fetch_miss _ _ _ Habsent).
    pose proof (fetchRemote_cache env cache (delete path cache) path) as Hsame.
    destruct (fetchRemote env cache path) as [[t1 c1]|e1],
             (fetchRemote env (delete path cache) path) as [[t2 c2]|e2];
      simpl; try done.
    + by destruct Hsame as (-> & _).
    + by subst.
Qed.



(** ** get-documentation *)

(** C5, as stated, fails: when the first call's fetch fails nothing is
    cached, so a second call a millisecond later fetches again and, the
    network being back, returns the page instead of the placeholder. *)
Lemma idempotence_fails_after_failed_fetch :
  ~ idempotent (envDown 0) (envServing 1 "# Quickstart") ∅ Quickstart.
Proof.
  intros H. destruct H as [Hout Hreq].
  - unfold CACHE_TTL. simpl. lia.
  - vm_compute in Hreq. discriminate Hreq.
Qed.

(** C5, amended.  When the first call obtained the document -- from a fresh
    cache entry or by a successful fetch -- and the second call is made while
    the entry the first call left is younger than the time to live, the
    second call returns the same text, issues no request and leaves the
    cache as it is.  When the first call found no fresh entry and its fetch
    failed, it answers with the placeholder and leaves the cache as it was:
    the failure is not stored, and an entry that was stale stays.  A second
    call whose clock reading is not before that of the first then finds no
    fresh entry either: it issues the request again and answers as a call on
    the cache the first call started from. *)
Theorem get_documentation_idempotent
    (env1 env2 : Env) (cache : gmap string CacheEntry) (topic : Topic) :
  ((fresh env1 (cache !! pathMap topic) = true \/
    exists c cache', fetchRemote env1 cache (pathMap topic) = Normal (c, cache')) ->
   (forall entry,
       cacheLeft (get_documentation env1 cache topic) !! pathMap topic = Some entry ->
       now env2 - timestamp entry < CACHE_TTL) ->
   output (secondCall env1 env2 cache topic) = output (get_documentation env1 cache topic) /\
   issued (secondCall env1 env2 cache topic) = [] /\
   cacheLeft (secondCall env1 env2 cache topic) =
     cacheLeft (get_documentation env1 cache topic)) /\
  (forall e,
      fresh env1 (cache !! pathMap topic) = false ->
      fetchRemote env1 cache (pathMap topic) = Throw e ->
      output (get_documentation env1 cache topic) =
        placeholder (pathMap topic) e +:+ relatedTopicsText topic /\
      issued (get_documentation env1 cache topic) = [docUrl (pathMap topic)] /\
      cacheLeft (get_documentation env1 cache topic) = cache /\
      (now env1 <= now env2 ->
       fresh env2 (cache !! pathMap topic) = false /\
       issued (secondCall env1 env2 cache topic) = [docUrl (pathMap topic)] /\
       secondCall env1 env2 cache topic = get_documentation env2 cache topic)).
Proof.
  unfold secondCall, get_documentation. cbn [output issued cacheLeft].
  set (path := pathMap topic). split.
  - intros Hfirst Hwindow.
    assert (exists entry,
               cacheAfter (fetchDocMarkdown env1 cache path) !! path = Some entry /\
               text (fetchDocMarkdown env1 cache path) = content entry)
      as (entry & Hentry & Htext).
    { destruct (fresh env1 (cache !! path)) eqn:Hfresh.
      - unfold fresh in Hfresh. destruct (cache !! path) as [entry|] eqn:H; [| done].
        apply Z.ltb_lt in Hfresh. exists entry.
        by rewrite (fetch_hit _ _ _ _ H Hfresh).
      - destruct Hfirst as [Habs | (c & cache' & Hok)]; [done |].
        rewrite (fetch_miss _ _ _ Hfresh).
        pose proof (fetchRemote_cache env1 cache cache path) as Hsame.
        rewrite Hok in Hsame. destruct Hsame as (_ & -> & _).
        rewrite Hok. cbn [cacheAfter text].
        eexists. by rewrite lookup_insert_eq. }
    rewrite (fetch_hit env2 _ _ _ Hentry (Hwindow _ Hentry)).
    cbn [text requests cacheAfter]. by rewrite Htext.
  - intros e Hstale Hfail.
    rewrite (fetch_miss _ _ _ Hstale), Hfail. cbn [text requests cacheAfter].
    split; [done |]. split; [done |]. split; [done |]. intros Hclock.
    assert (fresh env2 (cache !! path) = false) as Hstale2.
    { unfold fresh in *. destruct (cache !! path) as [entry|]; [| done].
      apply Z.ltb_ge in Hstale. apply Z.ltb_ge. lia. }
    split; [done |]. split; [| done]. by apply fetch_miss_requests.
Qed.

Lemma get_documentation_idempotent_witness :
  (output (secondCall (envServing 0 "# Quickstart") (envDown 3599999) ∅ Quickstart) =
     output (get_documentation (envServing 0 "# Quickstart") ∅ Quickstart) /\
   issued (secondCall (envServing 0 "# Quickstart") (envDown 3599999) ∅ Quickstart) = []) /\
  issued (secondCall (envDown 0) (envServing 1 "# Quickstart") ∅ Quickstart) =
    [docUrl (pathMap Quickstart)].
Proof.
  destruct (get_documentation_idempotent
              (envServing 0 "# Quickstart") (envDown 3599999) ∅ Quickstart)
    as [Hfirst _].
  destruct (get_documentation_idempotent
              (envDown 0) (envServing 1 "# Quickstart") ∅ Quickstart)
    as [_ Hfailed].
  split.
  - destruct Hfirst as (Hout & Hreq & _).
    + right. eexists _, _. reflexivity.
    + intros entry H. vm_compute in H. injection H as <-. reflexivity.
    + split; [exact Hout | exact Hreq].
  - destruct (Hfailed (ErrorObject "getaddrinfo ENOTFOUND docs.paymanai.com"))
      as (_ & _ & _ & Hagain).
    + reflexivity.
    + reflexivity.
    + destruct Hagain as (_ & Hreq & _); [simpl; lia | exact Hreq].
Defined.

(** ** The fetches of a tool *)

Lemma fetchAll_length (env : Env) (cache : gmap string CacheEntry) (paths : list string) :
  length (contentsOf env cache paths) = length paths.
Proof.
  unfold contentsOf. revert cache. induction paths as [|p ps IH]; intros cache; [done |].
  simpl. specialize (IH (cacheAfter (fetchDocMarkdown env cache p))).
  destruct (fetchAll env _ ps) as [[cs c'] rq]. simpl in *. by rewrite IH.
Qed.

(** Every content is what [fetchDocMarkdown] returned for the path at that
    position, on the cache the earlier fetches left. *)
Lemma fetchAll_lookup (env : Env) (cache : gmap string CacheEntry) (paths : list string)
    (i : nat) (p : string) :
  paths !! i = Some p ->
  exists cache_i,
    contentsOf env cache paths !! i = Some (text (fetchDocMarkdown env cache_i p)).
Proof.
  unfold contentsOf. revert cache i. induction paths as [|q ps IH]; intros cache i H; [done |].
  simpl. specialize (IH (cacheAfter (fetchDocMarkdown env cache q))).
  destruct (fetchAll env _ ps) as [[cs c'] rq]. simpl in *.
  destruct i as [|i]; simpl in *.
  - injection H as ->. by exists cache.
  - by apply IH.
Qed.

(** ** search-documentation *)

Lemma searchOne_topic (query : string) (topic : Topic) (c : string) (r : SearchResult) :
  searchOne query topic c = Some r -> sr_topic r = topic.
Proof.
  unfold searchOne. destruct (JS.includes _ _); [| done].
  destruct (scanSections _ _) as [s x]. by intros [= <-].
Qed.

Lemma searchOne_match (query : string) (topic : Topic) (c : string) :
  JS.includes (JS.toLowerCase c) (JS.toLowerCase query) = true ->
  is_Some (searchOne query topic c).
Proof.
  unfold searchOne. intros ->. by destruct (scanSections _ _).
Qed.

Lemma searchResults_sublist (query : string) (docs : list Topic) (contents : list string) :
  sublist (map sr_topic (searchResults query docs contents)) docs.
Proof.
  revert contents. induction docs as [|topic docs IH]; intros contents; [done |].
  destruct contents as [|c contents]; simpl; [apply sublist_nil_l |].
  destruct (searchOne query topic c) as [r|] eqn:E; simpl.
  - rewrite (searchOne_topic _ _ _ _ E). by apply sublist_skip.
  - by apply sublist_cons.
Qed.

Lemma searchResults_contain (query : string) (docs : list Topic) (contents : list string)
    (i : nat) (topic : Topic) (c : string) :
  docs !! i = Some topic ->
  contents !! i = Some c ->
  JS.includes (JS.toLowerCase c) (JS.toLowerCase query) = true ->
  topic ∈ map sr_topic (searchResults query docs contents).
Proof.
  revert contents i. induction docs as [|d docs IH]; intros contents i Hd Hc Hin; [done |].
  destruct contents as [|c0 contents]; [done |].
  destruct i as [|i]; simpl in Hd, Hc.
  - injection Hd as ->. injection Hc as ->. simpl.
    destruct (searchOne_match query topic c Hin) as [r E]. rewrite E. simpl.
    rewrite (searchOne_topic _ _ _ _ E). apply list_elem_of_here.
  - simpl. specialize (IH contents i Hd Hc Hin).
    destruct (searchOne query d c0); simpl; [by apply list_elem_of_further | done].
Qed.

Lemma registry_NoDup : NoDup registryOrder.
Proof. apply (bool_decide_unpack _). by vm_compute. Qed.

(** C3.  Every registered document is fetched, and a document whose fetched
    content contains the query (both lower-cased) has its topic among the
    results.  The results hold each topic at most once and list the topics
    in registry order; the output renders them in that order, each with the
    identifier of its topic. *)
Theorem search_containment (env : Env) (cache : gmap string CacheEntry) (query : string) :
  let contents := contentsOf env cache (map pathMap registryOrder) in
  let results := searchResults query registryOrder contents in
  (forall i topic,
      registryOrder !! i = Some topic ->
      exists cache_i,
        contents !! i = Some (text (fetchDocMarkdown env cache_i (pathMap topic)))) /\
  (forall i topic c,
      registryOrder !! i = Some topic ->
      contents !! i = Some c ->
      JS.includes (JS.toLowerCase c) (JS.toLowerCase query) = true ->
      topic ∈ map sr_topic results) /\
  NoDup (map sr_topic results) /\
  sublist (map sr_topic results) registryOrder /\
  (results <> [] ->
   output (search_documentation env cache query) = resultsText query results) /\
  (forall r,
      r ∈ results ->
      JS.includes (resultsText query results) (formatResult r) = true /\
      JS.includes (formatResult r) (topicName (sr_topic r)) = true).
Proof.
  intros contents results.
  split; [| split; [| split; [| split; [| split]]]].
  - intros i topic H. apply fetchAll_lookup. by rewrite list_lookup_fmap, H.
  - intros i topic c. apply searchResults_contain.
  - eapply sublist_NoDup; [apply registry_NoDup | apply searchResults_sublist].
  - apply searchResults_sublist.
  - intros Hne. unfold search_documentation. subst results contents. unfold contentsOf in *.
    destruct (fetchAll env cache (map pathMap registryOrder)) as [[cs c'] rq].
    cbn [fst output] in *.
    destruct (searchResults query registryOrder cs); [done | done].
  - intros r Hr. split.
    + unfold resultsText. do 5 apply includes_app_l.
      apply join_includes. by apply list_elem_of_fmap_2.
    + unfold formatResult. do 10 apply includes_app_l.
      apply includes_here, startsWith_app.
Qed.

(** *** The pieces of the split are parts of the content *)

Lemma includes_sdrop (k : nat) (s x : string) :
  JS.includes (JS.sdrop k s) x = true -> JS.includes s x = true.
Proof.
  revert s. induction k as [|k IH]; intros [|c s]; simpl; try done.
  intros H. fold (JS.includes s x). rewrite (IH _ H). apply orb_true_r.
Qed.

Lemma splitFrom_parts (skip : nat) (bol : bool) (s : string) :
  exists p ps,
    JS.splitFrom skip bol s = p :: ps /\
    JS.startsWith (JS.sdrop skip s) p = true /\
    forall x, x ∈ ps -> JS.includes s x = true.
Proof.
  revert skip bol. induction s as [|c s IH]; intros skip bol.
  - exists EmptyString, []. split; [by destruct skip |].
    split; [by destruct skip |]. by intros x Hx%elem_of_nil.
  - destruct skip as [|k].
    + cbn [JS.splitFrom].
      destruct (if bol then JS.headingMarker (String c s) else None) as [n|].
      * destruct (IH (pred n) (JS.isLineTerminator c)) as (p & ps & -> & Hp & Hps).
        exists EmptyString, (p :: ps). split; [done |]. split; [done |].
        intros x [-> | Hx]%elem_of_cons; apply includes_cons.
        -- eapply includes_sdrop. by apply includes_here.
        -- by apply Hps.
      * destruct (IH O (JS.isLineTerminator c)) as (p & ps & -> & Hp & Hps).
        exists (String c p), ps. split; [done |]. split.
        -- simpl. by rewrite Ascii.eqb_refl.
        -- intros x Hx. apply includes_cons. by apply Hps.
    + cbn [JS.splitFrom JS.sdrop].
      destruct (IH k (JS.isLineTerminator c)) as (p & ps & -> & Hp & Hps).
      exists p, ps. split; [done |]. split; [done |].
      intros x Hx. apply includes_cons. by apply Hps.
Qed.

Lemma splitHeadings_includes (content section : string) :
  section ∈ JS.splitHeadings content -> JS.includes content section = true.
Proof.
  unfold JS.splitHeadings.
  destruct (splitFrom_parts O true content) as (p & ps & -> & Hp & Hps).
  intros [-> | Hx]%elem_of_cons; [by apply includes_here | by apply Hps].
Qed.

Lemma selectedSection_content (content queryLower section : string) :
  selectedSection content queryLower section ->
  JS.includes (JS.toLowerCase content) queryLower = true.
Proof.
  intros (pre & post & Hsplit & _ & Hin).
  eapply includes_lower; [| exact Hin].
  apply splitHeadings_includes. rewrite Hsplit.
  apply elem_of_app. right. apply list_elem_of_here.
Qed.

Lemma scanSections_selected (pre post : list string) (section queryLower : string) :
  forallb (fun s => negb (JS.includes (JS.toLowerCase s) queryLower)) pre = true ->
  JS.includes (JS.toLowerCase section) queryLower = true ->
  scanSections (pre ++ section :: post) queryLower =
    (sectionTitleOf section, excerptOf (sectionBody section) queryLower).
Proof.
  intros Hpre Hin. induction pre as [|s pre IH]; simpl.
  - by rewrite Hin.
  - simpl in Hpre. apply andb_true_iff in Hpre as [Hs Hpre].
    apply negb_true_iff in Hs. rewrite Hs. by apply IH.
Qed.

(** *** The window of the excerpt *)

Lemma substring_nat (s : string) (lo hi : nat) :
  (lo <= hi <= String.length s)%nat ->
  JS.substring s (Z.of_nat lo) (Z.of_nat hi) = JS.stake (hi - lo) (JS.sdrop lo s).
Proof.
  intros H. unfold JS.substring, JS.len.
  rewrite (Z.max_l (Z.of_nat lo) 0), (Z.max_l (Z.of_nat hi) 0) by lia.
  rewrite (Z.min_l (Z.of_nat lo)), (Z.min_l (Z.of_nat hi)) by lia.
  rewrite Z.min_l, Z.max_r by lia.
  rewrite Nat2Z.id. f_equal. lia.
Qed.

Lemma excerptOf_window (body query : string) (i : nat) :
  JS.find (JS.toLowerCase body) (JS.toLowerCase query) = Some i ->
  excerptOf body (JS.toLowerCase query) = windowSpec body i (String.length query).
Proof.
  intros H. unfold excerptOf, windowSpec. rewrite (indexOf_find _ _ _ H).
  destruct (find_spec _ _ _ H) as (_ & Hroom & _).
  rewrite !lowerChar_length in Hroom.
  set (lo := Nat.max 0 (i - 150)).
  set (hi := Nat.min (String.length body) (i + String.length query + 150)).
  assert (Z.max 0 (Z.of_nat i - 150) = Z.of_nat lo) as -> by lia.
  assert (Z.min (JS.len body) (Z.of_nat i + JS.len (JS.toLowerCase query) + 150)
          = Z.of_nat hi) as ->.
  { unfold JS.len. rewrite lowerChar_length. lia. }
  rewrite substring_nat by lia.
  assert ((0 <? Z.of_nat lo) = (0 <? lo)%nat) as ->.
  { destruct (Z.ltb_spec 0 (Z.of_nat lo)), (Nat.ltb_spec 0 lo); try done; lia. }
  assert ((Z.of_nat hi <? JS.len body) = (hi <? String.length body)%nat) as ->.
  { unfold JS.len.
    destruct (Z.ltb_spec (Z.of_nat hi) (Z.of_nat (String.length body))),
             (Nat.ltb_spec hi (String.length body)); try done; lia. }
  done.
Qed.

Lemma length_zero_empty (s : string) : String.length s = O -> s = EmptyString.
Proof. by destruct s. Qed.

Lemma app_empty_inv (a b : string) :
  a +:+ b = EmptyString -> a = EmptyString /\ b = EmptyString.
Proof. destruct a; [intros H; split; [done | exact H] | done]. Qed.

Lemma collapse_empty (s : string) :
  JS.collapseNewlines s = EmptyString -> s = EmptyString.
Proof.
  unfold JS.collapseNewlines. destruct s as [|c s]; [done |].
  simpl. by destruct (JS.isNL c).
Qed.

Lemma find_empty_needle (s : string) : JS.find s EmptyString = Some O.
Proof. by destruct s. Qed.

(** The window is empty only for the empty query in an empty body. *)
Lemma windowSpec_empty (body query : string) (i : nat) :
  JS.find (JS.toLowerCase body) (JS.toLowerCase query) = Some i ->
  windowSpec body i (String.length query) = EmptyString <->
  query = EmptyString /\ body = EmptyString.
Proof.
  intros H. split.
  - unfold windowSpec. intros E.
    apply app_empty_inv in E as [_ E]. apply app_empty_inv in E as [E _].
    apply collapse_empty in E. apply (f_equal String.length) in E.
    rewrite length_stake, length_sdrop in E. simpl in E.
    destruct (find_spec _ _ _ H) as (_ & Hroom & _).
    rewrite !lowerChar_length in Hroom.
    assert (String.length query = O) as Hq by lia.
    apply length_zero_empty in Hq as ->. simpl in H.
    rewrite find_empty_needle in H. injection H as <-.
    split; [done |]. apply length_zero_empty. simpl in E. lia.
  - intros [-> ->]. simpl in H. by injection H as <-.
Qed.

(** ** solve-problem *)

Lemma setAddAll_keepFirst {A} `{EqDecision A} (seen l : list A) :
  JS.setAddAll seen l = seen ++ filter (fun y => y ∉ seen) (keepFirst l).
Proof.
  revert seen. induction l as [|x l IH]; intros seen; simpl.
  - by rewrite filter_nil, app_nil_r.
  - case_bool_decide as Hx.
    + rewrite IH, filter_cons_False by (intros Hn; by apply Hn).
      f_equal. symmetry. apply list_filter_filter_l.
      intros y Hy ->. by apply Hy.
    + rewrite IH, filter_cons_True by done.
      rewrite <- app_assoc. simpl. do 2 f_equal.
      rewrite list_filter_filter. apply list_filter_iff.
      intros y. rewrite elem_of_app, list_elem_of_singleton. tauto.
Qed.

Lemma uniq_keepFirst {A} `{EqDecision A} (l : list A) : JS.uniq l = keepFirst l.
Proof.
  unfold JS.uniq. rewrite setAddAll_keepFirst. simpl.
  induction (keepFirst l) as [|x k IH]; [done |].
  rewrite filter_cons_True by apply not_elem_of_nil. by rewrite IH.
Qed.

Lemma keepFirst_elem_of {A} `{EqDecision A} (l : list A) (x : A) :
  x ∈ keepFirst l <-> x ∈ l.
Proof.
  induction l as [|y l IH]; simpl; [done |].
  rewrite !elem_of_cons, list_elem_of_filter, IH.
  destruct (decide (x = y)); tauto.
Qed.

Lemma keepFirst_NoDup {A} `{EqDecision A} (l : list A) : NoDup (keepFirst l).
Proof.
  induction l as [|y l IH]; simpl; [apply NoDup_nil_2 |].
  apply NoDup_cons_2.
  - rewrite list_elem_of_filter. by intros [Hne _].
  - by apply NoDup_filter.
Qed.

Lemma matchingCategories_triggered (problem : string) :
  matchingCategories problem = List.filter (categoryTriggered problem) problemCategories.
Proof. reflexivity. Qed.

(** C7.  The categories consulted are those with a keyword contained in the
    problem, letter case apart.  When there is one, the topics listed are
    the topics of these categories in first-seen order, each once -- so a
    topic is listed exactly when it is a topic of a matching category; when
    there is none, the topics are error-handling, api-reference and
    quickstart.  The problem "I got a 401 unauthorized error" matches the
    Authentication category, and api-keys is among its topics. *)
Theorem problem_routing (problem : string) :
  matchingCategories problem = List.filter (categoryTriggered problem) problemCategories /\
  (matchingCategories problem <> [] ->
   uniqueTopics problem = keepFirst (flat_map topics (matchingCategories problem)) /\
   forall t,
     t ∈ uniqueTopics problem <->
     exists cat,
       cat ∈ problemCategories /\ categoryTriggered problem cat = true /\ t ∈ topics cat) /\
  (matchingCategories problem = [] ->
   uniqueTopics problem = [ErrorHandling; ApiReference; Quickstart]) /\
  NoDup (uniqueTopics problem) /\
  "Authentication" ∈ map category (matchingCategories "I got a 401 unauthorized error") /\
  ApiKeys ∈ uniqueTopics "I got a 401 unauthorized error".
Proof.
  split; [apply matchingCategories_triggered |].
  split; [| split; [| split; [| split]]].
  - intros Hne. unfold uniqueTopics, topicsToConsult.
    destruct (matchingCategories problem) as [|c cs] eqn:E; [done |].
    cbn [length Nat.ltb Nat.leb]. rewrite uniq_keepFirst. split; [done |].
    intros t. rewrite keepFirst_elem_of, list_elem_of_In, in_flat_map.
    rewrite <- E, matchingCategories_triggered. split.
    + intros (cat & Hcat & Ht). apply filter_In in Hcat as [Hcat Htrig].
      exists cat. by rewrite !list_elem_of_In.
    + intros (cat & Hcat & Htrig & Ht). exists cat.
      rewrite filter_In, <- !list_elem_of_In. done.
  - intros E. unfold uniqueTopics, topicsToConsult. by rewrite E.
  - unfold uniqueTopics. rewrite uniq_keepFirst. apply keepFirst_NoDup.
  - vm_compute. apply list_elem_of_here.
  - vm_compute. apply list_elem_of_here.
Qed.

(** ** get-sdk-help *)

Lemma findIndexFrom_spec {A} (p : A -> bool) (i : Z) (l : list A) :
  (JS.findIndexFrom p i l = -1 /\ forall x, x ∈ l -> p x = false) \/
  (exists f x,
      JS.findIndexFrom p i l = i + Z.of_nat f /\
      l !! f = Some x /\ p x = true /\
      forall j y, (j < f)%nat -> l !! j = Some y -> p y = false).
Proof.
  revert i. induction l as [|a l IH]; intros i; simpl.
  - left. split; [done |]. by intros x Hx%elem_of_nil.
  - destruct (p a) eqn:Ha.
    + right. exists O, a. repeat split; [lia | done |]. intros j y Hj. lia.
    + destruct (IH (i + 1)) as [[E Hall] | (f & x & E & Hx & Hp & Hbefore)].
      * left. split; [done |]. by intros x [-> | Hx]%elem_of_cons; [| apply Hall].
      * right. exists (S f), x. repeat split; [lia | done | done |].
        intros [|j] y Hj Hy; simpl in Hy; [by injection Hy as <- |].
        apply (Hbefore j); [lia | done].
Qed.

Lemma walkUp_spec (lines : list string) (f : nat) :
  (walkUp lines f <= f)%nat /\
  (walkUp lines f = O \/
   JS.startsWith (default EmptyString (lines !! walkUp lines f)) "#" = true) /\
  forall j, (walkUp lines f < j <= f)%nat ->
            JS.startsWith (default EmptyString (lines !! j)) "#" = false.
Proof.
  induction f as [|f (IH1 & IH2 & IH3)]; cbn [walkUp].
  - split; [done |]. split; [by left |]. intros j Hj. lia.
  - destruct (JS.startsWith (default EmptyString (lines !! S f)) "#") eqn:E.
    + split; [done |]. split; [by right |]. intros j Hj. lia.
    + split; [lia |]. split; [done |]. intros j Hj.
      destruct (decide (j = S f)) as [-> | Hne]; [done |]. apply IH3. lia.
Qed.

Lemma slice_window {A} (l : list A) (h f : nat) :
  (h <= f < length l)%nat ->
  JS.slice l (Z.of_nat h) (Z.of_nat f + 20) = take (f + 20 - h) (drop h l).
Proof.
  intros H. unfold JS.slice, JS.relIndex.
  destruct (Z.ltb_spec (Z.of_nat h) 0) as [? | _]; [lia |].
  destruct (Z.ltb_spec (Z.of_nat f + 20) 0) as [? | _]; [lia |].
  rewrite (Z.min_l (Z.of_nat h)) by lia. rewrite Nat2Z.id.
  destruct (decide (f + 20 <= length l)%nat) as [Hle | Hgt].
  - f_equal. lia.
  - rewrite !take_ge; [done | rewrite length_drop; lia | rewrite length_drop; lia].
Qed.

(** What a result of [helpOne] is made of. *)
Lemma helpOne_inv (sdk : Sdk) (feature : string) (topic : Topic) (content : string)
    (r : HelpResult) :
  helpOne sdk feature topic content = Some r ->
  exists f line,
    JS.splitLines content !! f = Some line /\
    JS.includes (JS.toLowerCase line) (JS.toLowerCase feature) = true /\
    (forall j y, (j < f)%nat -> JS.splitLines content !! j = Some y ->
                 JS.includes (JS.toLowerCase y) (JS.toLowerCase feature) = false) /\
    hr_topic r = topic /\
    hr_heading r =
      default EmptyString (JS.splitLines content !! walkUp (JS.splitLines content) f) /\
    hr_content r =
      JS.join nl (take (f + 20 - walkUp (JS.splitLines content) f)
                       (drop (walkUp (JS.splitLines content) f) (JS.splitLines content))) /\
    hr_relevance r =
      (if JS.includes (JS.toLowerCase content) (sdkName sdk) then 2 else 1) +
      (if JS.includes (JS.toLowerCase (hr_content r)) (JS.toLowerCase feature)
       then 3 else 0).
Proof.
  unfold helpOne. destruct (relevant sdk feature content); [| done]. cbn [negb].
  unfold JS.findIndex.
  destruct (findIndexFrom_spec
              (fun line => JS.includes (JS.toLowerCase line) (JS.toLowerCase feature))
              0 (JS.splitLines content))
    as [[E _] | (f & line & E & Hline & Hp & Hbefore)]; rewrite E.
  - done.
  - destruct (Z.eqb_spec (0 + Z.of_nat f) (-1)) as [? | _]; [lia |].
    replace (0 + Z.of_nat f) with (Z.of_nat f) by lia. rewrite Nat2Z.id.
    pose proof (walkUp_spec (JS.splitLines content) f) as (Hle & _ & _).
    rewrite slice_window by (split; [done | by eapply lookup_lt_Some]).
    intros [= <-]. exists f, line. by cbn.
Qed.

Lemma helpOne_none (sdk : Sdk) (feature : string) (topic : Topic) (content : string) :
  (forall line, line ∈ JS.splitLines content ->
                JS.includes (JS.toLowerCase line) (JS.toLowerCase feature) = false) ->
  helpOne sdk feature topic content = None.
Proof.
  intros Hall. destruct (helpOne sdk feature topic content) as [r|] eqn:E; [| done].
  apply helpOne_inv in E as (f & line & Hline & Hp & _).
  rewrite Hall in Hp; [done |]. apply list_elem_of_lookup. by exists f.
Qed.

(** The excerpt holds the line in which the feature was found. *)
Lemma helpOne_excerpt_has_feature (sdk : Sdk) (feature : string) (topic : Topic)
    (content : string) (r : HelpResult) :
  helpOne sdk feature topic content = Some r ->
  JS.includes (JS.toLowerCase (hr_content r)) (JS.toLowerCase feature) = true.
Proof.
  intros E. apply helpOne_inv in E as (f & line & Hline & Hp & _ & _ & _ & -> & _).
  pose proof (walkUp_spec (JS.splitLines content) f) as (Hle & _ & _).
  eapply includes_lower; [| exact Hp].
  apply join_includes, list_elem_of_lookup.
  exists (f - walkUp (JS.splitLines content) f)%nat.
  rewrite lookup_take_lt by lia. rewrite lookup_drop.
  by replace (walkUp (JS.splitLines content) f + (f - walkUp (JS.splitLines content) f))%nat
    with f by lia.
Qed.

(** C8, as stated, fails on three counts.  On [longPage] the feature is on
    line 1 and 20 lines follow it: the excerpt ends with line 20 and leaves
    out line 21, the line 20 lines past the feature line.  On [headingPage]
    the feature first occurs in a heading line: the excerpt starts at that
    line, not at a heading before it.  On [shebangPage] the line above the
    feature line begins with [#] without being a heading (no white space
    follows the [#]): the excerpt starts there, not at the heading above. *)
Lemma sdk_excerpt_differs_from_statement :
  ~ excerptClaim Python "pay" SendPayments longPage /\
  ~ excerptClaim Python "pay" SendPayments headingPage /\
  ~ excerptClaim Python "payman" SendPayments shebangPage.
Proof.
  split; [| split]; intros H.
  - destruct (helpOne Python "pay" SendPayments longPage) as [r|] eqn:E;
      [| by vm_compute in E].
    specialize (H r 1%nat E). vm_compute in E. injection E as <-.
    assert (Hf : JS.findIndex
                   (fun line => JS.includes (JS.toLowerCase line) (JS.toLowerCase "pay"))
                   (JS.splitLines longPage) = Z.of_nat 1) by (by vm_compute).
    specialize (H Hf). vm_compute in H. discriminate H.
  - destruct (helpOne Python "pay" SendPayments headingPage) as [r|] eqn:E;
      [| by vm_compute in E].
    specialize (H r 2%nat E). vm_compute in E. injection E as <-.
    assert (Hf : JS.findIndex
                   (fun line => JS.includes (JS.toLowerCase line) (JS.toLowerCase "pay"))
                   (JS.splitLines headingPage) = Z.of_nat 2) by (by vm_compute).
    specialize (H Hf). vm_compute in H. discriminate H.
  - destruct (helpOne Python "payman" SendPayments shebangPage) as [r|] eqn:E;
      [| by vm_compute in E].
    specialize (H r 2%nat E). vm_compute in E. injection E as <-.
    assert (Hf : JS.findIndex
                   (fun line => JS.includes (JS.toLowerCase line) (JS.toLowerCase "payman"))
                   (JS.splitLines shebangPage) = Z.of_nat 2) by (by vm_compute).
    specialize (H Hf). vm_compute in H. discriminate H.
Qed.

(** C8, amended.  A topic gives a result exactly when its document passes
    the relevance test and some line of it contains the feature, letter case
    apart; so a topic in which no line contains the feature gives none.  A
    result comes with the first line [f] that contains the feature and the
    heading line [h]: the nearest line at or above [f] whose first character
    is [#], whatever follows it, or line 0 when there is none.  Its heading
    is line [h], and its excerpt is made of the lines from [h] up to, and not
    including, line [f + 20]: through the 19th line after the feature
    line. *)
Theorem sdk_help_excerpt (sdk : Sdk) (feature : string) (topic : Topic) (content : string) :
  (is_Some (helpOne sdk feature topic content) <->
   relevant sdk feature content = true /\
   exists line,
     line ∈ JS.splitLines content /\
     JS.includes (JS.toLowerCase line) (JS.toLowerCase feature) = true) /\
  ((forall line, line ∈ JS.splitLines content ->
                 JS.includes (JS.toLowerCase line) (JS.toLowerCase feature) = false) ->
   helpOne sdk feature topic content = None) /\
  (forall r,
      helpOne sdk feature topic content = Some r ->
      exists f h line,
        JS.splitLines content !! f = Some line /\
        JS.includes (JS.toLowerCase line) (JS.toLowerCase feature) = true /\
        (forall j y, (j < f)%nat -> JS.splitLines content !! j = Some y ->
                     JS.includes (JS.toLowerCase y) (JS.toLowerCase feature) = false) /\
        (h <= f)%nat /\
        (h = O \/
         JS.startsWith (default EmptyString (JS.splitLines content !! h)) "#" = true) /\
        (forall j, (h < j <= f)%nat ->
                   JS.startsWith (default EmptyString (JS.splitLines content !! j)) "#"
                   = false) /\
        hr_heading r = default EmptyString (JS.splitLines content !! h) /\
        hr_content r = JS.join nl (take (f + 20 - h) (drop h (JS.splitLines content)))).
Proof.
  split; [| split; [apply helpOne_none |]].
  - split.
    + intros [r E]. split.
      * unfold helpOne in E. by destruct (relevant sdk feature content).
      * apply helpOne_inv in E as (f & line & Hline & Hp & _).
        exists line. split; [| done]. apply list_elem_of_lookup. by exists f.
    + intros (Hrel & line & Hline & Hp).
      unfold helpOne. rewrite Hrel. cbn [negb]. unfold JS.findIndex.
      destruct (findIndexFrom_spec
                  (fun line => JS.includes (JS.toLowerCase line) (JS.toLowerCase feature))
                  0 (JS.splitLines content))
        as [[_ Hall] | (f & x & E & _)].
      * by rewrite (Hall line Hline) in Hp.
      * rewrite E. destruct (Z.eqb_spec (0 + Z.of_nat f) (-1)) as [? | _]; [lia | done].
  - intros r E. apply helpOne_inv in E as (f & line & Hline & Hp & Hfirst & _ & Hh & Hc & _).
    pose proof (walkUp_spec (JS.splitLines content) f) as (Hle & Hhead & Hnone).
    exists f, (walkUp (JS.splitLines content) f), line. by repeat split.
Qed.

(** *** The sort *)

Lemma insertBy_perm {A} (cmp : A -> A -> Z) (x : A) (l : list A) :
  JS.insertBy cmp x l ≡ₚ x :: l.
Proof.
  induction l as [|y l IH]; simpl; [done |].
  destruct (cmp x y <=? 0); [done |].
  rewrite IH. apply Permutation_swap.
Qed.

Lemma sort_perm {A} (cmp : A -> A -> Z) (l : list A) : JS.sort cmp l ≡ₚ l.
Proof.
  induction l as [|x l IH]; simpl; [done |].
  by rewrite insertBy_perm, IH.
Qed.

Lemma insertBy_sorted (x : HelpResult) (l : list HelpResult) :
  StronglySorted (fun a b => hr_relevance b <= hr_relevance a) l ->
  StronglySorted (fun a b => hr_relevance b <= hr_relevance a)
    (JS.insertBy byRelevance x l).
Proof.
  induction 1 as [|y l Hsorted IH Hy]; simpl.
  - apply SSorted_cons; [apply SSorted_nil | apply Forall_nil_2].
  - unfold byRelevance at 1. destruct (Z.leb_spec (hr_relevance y - hr_relevance x) 0).
    + apply SSorted_cons; [by apply SSorted_cons |].
      apply Forall_cons_2; [lia |].
      eapply Forall_impl; [exact Hy |]. simpl. intros z Hz. lia.
    + apply SSorted_cons; [done |].
      rewrite insertBy_perm. apply Forall_cons_2; [lia | done].
Qed.

Lemma sort_sorted (l : list HelpResult) :
  StronglySorted (fun a b => hr_relevance b <= hr_relevance a) (JS.sort byRelevance l).
Proof.
  induction l as [|x l IH]; simpl; [apply SSorted_nil | by apply insertBy_sorted].
Qed.

Lemma insertBy_stable (v : Z) (x : HelpResult) (l : list HelpResult) :
  filter (fun r => hr_relevance r = v) (JS.insertBy byRelevance x l) =
  filter (fun r => hr_relevance r = v) (x :: l).
Proof.
  induction l as [|y l IH]; simpl; [done |].
  unfold byRelevance at 1. destruct (Z.leb_spec (hr_relevance y - hr_relevance x) 0); [done |].
  rewrite (filter_cons _ y), IH, !(filter_cons _ x), (filter_cons _ y).
  destruct (decide (hr_relevance y = v)), (decide (hr_relevance x = v)); try done. lia.
Qed.

Lemma sort_stable (v : Z) (l : list HelpResult) :
  filter (fun r => hr_relevance r = v) (JS.sort byRelevance l) =
  filter (fun r => hr_relevance r = v) l.
Proof.
  induction l as [|x l IH]; simpl; [done |].
  by rewrite insertBy_stable, !(filter_cons _ x), IH.
Qed.

Lemma helpOne_topic (sdk : Sdk) (feature : string) (topic : Topic) (c : string)
    (r : HelpResult) :
  helpOne sdk feature topic c = Some r -> hr_topic r = topic.
Proof. intros E. by apply helpOne_inv in E as (f & line & _ & _ & _ & -> & _). Qed.

Lemma helpFound_sublist (sdk : Sdk) (feature : string)
    (topics : list Topic) (contents : list string) :
  sublist (map hr_topic (helpFound sdk feature topics contents)) topics.
Proof.
  revert contents. induction topics as [|topic topics IH]; intros contents; [done |].
  destruct contents as [|c contents]; simpl; [apply sublist_nil_l |].
  destruct (helpOne sdk feature topic c) as [r|] eqn:E; simpl.
  - rewrite (helpOne_topic _ _ _ _ _ E). by apply sublist_skip.
  - by apply sublist_cons.
Qed.

Lemma helpFound_elem (sdk : Sdk) (feature : string)
    (topics : list Topic) (contents : list string) (r : HelpResult) :
  r ∈ helpFound sdk feature topics contents ->
  exists i topic c,
    topics !! i = Some topic /\ contents !! i = Some c /\
    helpOne sdk feature topic c = Some r.
Proof.
  revert contents. induction topics as [|topic topics IH]; intros contents; simpl.
  - by intros H%elem_of_nil.
  - destruct contents as [|c contents]; [by intros H%elem_of_nil |].
    destruct (helpOne sdk feature topic c) as [r0|] eqn:E.
    + intros [-> | H]%elem_of_cons.
      * by exists O, topic, c.
      * destruct (IH _ H) as (i & t & c' & ? & ? & ?). by exists (S i), t, c'.
    + intros H. destruct (IH _ H) as (i & t & c' & ? & ? & ?). by exists (S i), t, c'.
Qed.

(** C9.  Every result of [get-sdk-help] comes from one of the six SDK topics
    and the content fetched for it, and its score is 2 when the lower-cased
    document contains the name of the SDK, 1 otherwise, plus 3 when the
    excerpt contains the feature (letter case apart).  The results are in
    non-increasing order of score; the sort only reorders them, and results
    of equal score keep the order of the topic scan.  The output renders the
    results in that order. *)
Theorem sdk_help_ranking
    (env : Env) (cache : gmap string CacheEntry) (sdk : Sdk) (feature : string) :
  let contents := contentsOf env cache (map pathMap sdkTopics) in
  let found := helpFound sdk feature sdkTopics contents in
  let results := helpResults sdk feature contents in
  (forall r,
      r ∈ results ->
      exists i topic c,
        sdkTopics !! i = Some topic /\ contents !! i = Some c /\
        helpOne sdk feature topic c = Some r /\
        hr_relevance r =
          (if JS.includes (JS.toLowerCase c) (sdkName sdk) then 2 else 1) +
          (if JS.includes (JS.toLowerCase (hr_content r)) (JS.toLowerCase feature)
           then 3 else 0)) /\
  StronglySorted (fun a b => hr_relevance b <= hr_relevance a) results /\
  results ≡ₚ found /\
  (forall v,
      filter (fun r => hr_relevance r = v) results =
      filter (fun r => hr_relevance r = v) found) /\
  sublist (map hr_topic found) sdkTopics /\
  output (get_sdk_help env cache sdk feature) = helpText sdk feature results.
Proof.
  intros contents found results.
  split; [| split; [| split; [| split; [| split]]]].
  - intros r Hr. unfold results, helpResults in Hr. rewrite sort_perm in Hr.
    destruct (helpFound_elem _ _ _ _ _ Hr) as (i & topic & c & Ht & Hc & E).
    exists i, topic, c. repeat split; try done.
    by apply helpOne_inv in E as (f & line & _ & _ & _ & _ & _ & _ & ->).
  - apply sort_sorted.
  - apply sort_perm.
  - intros v. apply sort_stable.
  - apply helpFound_sublist.
  - unfold get_sdk_help. subst results contents. unfold contentsOf.
    by destruct (fetchAll env cache (map pathMap sdkTopics)) as [[cs c'] rq].
Qed.

(** C10.  Every result of [get-sdk-help] has score 4 or 5: the excerpt holds
    the line in which the feature was found, so the 3 points for the excerpt
    are always given, on top of 1 or 2. *)
Theorem sdk_help_scores (sdk : Sdk) (feature : string) (contents : list string) :
  Forall (fun r => hr_relevance r = 4 \/ hr_relevance r = 5)
         (helpResults sdk feature contents).
Proof.
  apply Forall_forall. intros r Hr. unfold helpResults in Hr. rewrite sort_perm in Hr.
  destruct (helpFound_elem _ _ _ _ _ Hr) as (i & topic & c & _ & _ & E).
  pose proof (helpOne_excerpt_has_feature _ _ _ _ _ E) as Hex.
  apply helpOne_inv in E as (f & line & _ & _ & _ & _ & _ & _ & ->).
  rewrite Hex. destruct (JS.includes (JS.toLowerCase c) (sdkName sdk)); [by right | by left].
Qed.

(** ** get-code-examples *)

(** *** The pattern for nodejs and blocks tagged [json] *)

Lemma no_tick_cons (c : ascii) (s : string) :
  JS.includes (String c s) "`" = false ->
  Ascii.eqb "`" c = false /\ JS.includes s "`" = false.
Proof.
  cbn [JS.includes JS.startsWith]. intros H. apply orb_false_iff in H as [H1 H2].
  split; [| done]. by destruct (Ascii.eqb "`" c).
Qed.

Lemma blocksFrom_no_tick (tags : list string) (pre s : string) :
  JS.includes pre "`" = false ->
  JS.blocksFrom tags O (pre +:+ s) = JS.blocksFrom tags O s.
Proof.
  induction pre as [|c pre IH]; intros H; sapp; [done |].
  apply no_tick_cons in H as [Hc H]. cbn [JS.blocksFrom].
  unfold JS.fenceAt, JS.fence. cbn [JS.startsWith]. rewrite Hc. by apply IH.
Qed.

Lemma find_fence_after (body r : string) :
  JS.includes body "`" = false ->
  JS.find (body +:+ JS.fence +:+ r) JS.fence = Some (String.length body).
Proof.
  induction body as [|c body IH]; intros H; sapp.
  - unfold JS.fence. sapp. by destruct r.
  - apply no_tick_cons in H as [Hc H]. cbn [JS.find String.length].
    unfold JS.fence at 2. cbn [JS.startsWith]. rewrite Hc, (IH H). done.
Qed.

Lemma stake_app (a b : string) : JS.stake (String.length a) (a +:+ b) = a.
Proof. induction a as [|c a IH]; sapp; simpl; [by destruct b | by rewrite IH]. Qed.

Lemma blocksFrom_exhaust (tags : list string) (k : nat) (s : string) :
  (String.length s <= k)%nat -> JS.blocksFrom tags k s = [].
Proof.
  revert k. induction s as [|c s IH]; intros k H; [done |].
  destruct k as [|k]; simpl in H; [lia |]. cbn [JS.blocksFrom]. apply IH. lia.
Qed.

Lemma find_skip (c : ascii) (s : string) :
  Ascii.eqb "`" c = false ->
  JS.find (String c s) JS.fence = S <$> JS.find s JS.fence.
Proof. intros H. cbn [JS.find]. unfold JS.fence at 1. cbn [JS.startsWith]. by rewrite H. Qed.

Lemma fenceAt_json (body : string) :
  JS.includes body "`" = false ->
  JS.fenceAt (codeBlockTags Nodejs) ("```json" +:+ body +:+ "```") =
    Some ("on" +:+ body, (10 + String.length body)%nat).
Proof.
  intros Hbody. unfold JS.fenceAt.
  set (rest := "json" +:+ body +:+ JS.fence +:+ EmptyString).
  change ("```json" +:+ body +:+ "```") with (JS.fence +:+ rest).
  rewrite startsWith_app.
  change (JS.sdrop 3 (JS.fence +:+ rest)) with rest.
  cbn [codeBlockTags JS.firstTag].
  change (JS.startsWith rest "javascript") with false.
  change (JS.startsWith rest "typescript") with false.
  change (JS.startsWith rest "js") with true. cbv iota.
  change (JS.sdrop (String.length "js") rest)
    with (String "o" (String "n" (body +:+ JS.fence +:+ EmptyString))).
  rewrite !find_skip by done. rewrite (find_fence_after _ _ Hbody).
  cbn [fmap option_fmap option_map JS.stake]. rewrite stake_app.
  do 2 f_equal. simpl. lia.
Qed.

(** Every fenced block tagged [json] is a match of the pattern for nodejs:
    [js] is a prefix of the tag, and the rest of the tag, [on], opens the
    captured code. *)
Lemma json_block_matches_nodejs (pre body : string) :
  JS.includes pre "`" = false ->
  JS.includes body "`" = false ->
  JS.matchAllBlocks (codeBlockTags Nodejs) (pre +:+ "```json" +:+ body +:+ "```") =
    ["on" +:+ body].
Proof.
  intros Hpre Hbody. unfold JS.matchAllBlocks.
  rewrite (blocksFrom_no_tick _ _ _ Hpre).
  pose proof (fenceAt_json body Hbody) as Hfence.
  remember ("```json" +:+ body +:+ "```") as page eqn:Hpage.
  assert (String.length page = (10 + String.length body)%nat) as Hlen.
  { rewrite Hpage, !length_app_s. simpl. lia. }
  destruct page as [|c page]; [done |].
  cbn [JS.blocksFrom]. rewrite Hfence. f_equal.
  apply blocksFrom_exhaust. simpl in *. lia.
Qed.

(** C6.  The code at three pages.  On [twoLanguagePage] the filter does what
    the specification says: asked for Python and a feature of the Python
    block, it returns that block and not the JavaScript one.  On [jsonPage]
    it does not: [json] is not one of the tags of nodejs, but the pattern
    accepts it by its prefix [js], so the JSON block is returned as a nodejs
    example, with the rest of the tag, [on], at the head of the code.  On
    [repeatedPage] it does not either: the text before the Python block
    contains the feature, but the 300 characters are taken before the first
    place where the code of the block stands in the page, here the start of
    the page, so the block is dropped. *)
Theorem code_example_filter_at_pages :
  relevantBlocks "send_payment" Python twoLanguagePage =
    ["client.payments.send_payment(amount=10)"] /\
  (("json" ∉ codeBlockTags Nodejs) /\
   relevantBlocks "payee" Nodejs jsonPage =
     ["on" +:+ nl +:+
      "{ " +:+ dq +:+ "type" +:+ dq +:+ ": " +:+ dq +:+ "payee" +:+ dq +:+ " }"]) /\
  (JS.matchAllBlocks (codeBlockTags Python) repeatedPage = [nl +:+ "client.pay()" +:+ nl] /\
   JS.indexOf repeatedPage "```python" = 81 /\
   JS.includes (JS.toLowerCase (JS.substring repeatedPage 0 81)) "refund" = true /\
   JS.indexOf repeatedPage "client.pay()" = 0 /\
   relevantBlocks "refund" Python repeatedPage = [] /\
   examplesOne "refund" Python SendPayments repeatedPage = None).
Proof.
  split; [by vm_compute |]. split; [split | by vm_compute].
  - apply (bool_decide_unpack _). by vm_compute.
  - by vm_compute.
Qed.

(** * Further properties of the code *)

(** ** The fetcher and the cache *)

Lemma fetchRemote_success (env : Env) (cache : gmap string CacheEntry) (path c : string)
    (cache' : gmap string CacheEntry) :
  fetchRemote env cache path = Normal (c, cache') <->
  exists response,
    fetch env (docUrl path) = Normal response /\ ok response = true /\
    body response = Normal c /\
    cache' = <[path := {| content := c; timestamp := now env |}]> cache.
Proof.
  unfold fetchRemote. split.
  - destruct (fetch env (docUrl path)) as [response|e]; [| done].
    destruct (ok response) eqn:Hok; [| done]. cbn [negb].
    destruct (body response) as [c0|e] eqn:Hb; [| done].
    intros [= <- <-]. by exists response.
  - intros (response & -> & -> & -> & ->). done.
Qed.

(** The three ways a call ends. *)
Lemma fetch_cases (env : Env) (cache : gmap string CacheEntry) (path : string) :
  (exists entry,
      cache !! path = Some entry /\ now env - timestamp entry < CACHE_TTL /\
      fetchDocMarkdown env cache path =
        {| text := content entry; cacheAfter := cache; requests := [] |}) \/
  (exists c,
      fresh env (cache !! path) = false /\
      fetchRemote env cache path =
        Normal (c, <[path := {| content := c; timestamp := now env |}]> cache) /\
      fetchDocMarkdown env cache path =
        {| text := c;
           cacheAfter := <[path := {| content := c; timestamp := now env |}]> cache;
           requests := [docUrl path] |}) \/
  (exists e,
      fresh env (cache !! path) = false /\
      fetchRemote env cache path = Throw e /\
      fetchDocMarkdown env cache path =
        {| text := placeholder path e; cacheAfter := cache; requests := [docUrl path] |}).
Proof.
  destruct (fresh env (cache !! path)) eqn:Hfresh.
  - left. unfold fresh in Hfresh. destruct (cache !! path) as [entry|] eqn:H; [| done].
    apply Z.ltb_lt in Hfresh. exists entry. by rewrite (fetch_hit _ _ _ _ H Hfresh).
  - right. rewrite (fetch_miss _ _ _ Hfresh).
    destruct (fetchRemote env cache path) as [[c cache']|e] eqn:E.
    + left. exists c. apply fetchRemote_success in E as (response & _ & _ & _ & ->). done.
    + right. by exists e.
Qed.

(** What a call does for a path depends on the entry of that path only. *)
Lemma fetch_depends_on_entry (env : Env) (c1 c2 : gmap string CacheEntry) (path : string) :
  c1 !! path = c2 !! path ->
  text (fetchDocMarkdown env c1 path) = text (fetchDocMarkdown env c2 path) /\
  requests (fetchDocMarkdown env c1 path) = requests (fetchDocMarkdown env c2 path) /\
  cacheAfter (fetchDocMarkdown env c1 path) !! path =
    cacheAfter (fetchDocMarkdown env c2 path) !! path.
Proof.
  intros H. pose proof H as H'. unfold fetchDocMarkdown. rewrite <- H.
  pose proof (fetchRemote_cache env c1 c2 path) as Hsame.
  destruct (c1 !! path) as [entry|] eqn:E1;
    [destruct (now env - timestamp entry <? CACHE_TTL); [cbn; rewrite ?E1; auto |] |];
    (destruct (fetchRemote env c1 path) as [[t1 c1']|e1],
              (fetchRemote env c2 path) as [[t2 c2']|e2]; try done; cbn;
     [destruct Hsame as (-> & -> & ->); rewrite ?lookup_insert_eq; auto
     | subst; rewrite ?E1; auto]).
Qed.

Lemma fetch_frame (env : Env) (cache : gmap string CacheEntry) (path q : string) :
  q <> path -> cacheAfter (fetchDocMarkdown env cache path) !! q = cache !! q.
Proof.
  intros Hne.
  destruct (fetch_cases env cache path)
    as [(entry & _ & _ & ->) | [(c & _ & _ & ->) | (e & _ & _ & ->)]]; cbn; try done.
  by rewrite lookup_insert_ne.
Qed.

(** A call that did not end in an error leaves a fresh copy of what it
    returned, so a call made while that copy is young answers from it. *)
Lemma fetch_then_hit (env1 env2 : Env) (cache : gmap string CacheEntry) (path : string) :
  (fresh env1 (cache !! path) = true \/
   exists c cache', fetchRemote env1 cache path = Normal (c, cache')) ->
  (forall entry,
      cacheAfter (fetchDocMarkdown env1 cache path) !! path = Some entry ->
      now env2 - timestamp entry < CACHE_TTL) ->
  fetchDocMarkdown env2 (cacheAfter (fetchDocMarkdown env1 cache path)) path =
    {| text := text (fetchDocMarkdown env1 cache path);
       cacheAfter := cacheAfter (fetchDocMarkdown env1 cache path);
       requests := [] |}.
Proof.
  intros Hfirst Hwindow.
  destruct (fetch_cases env1 cache path)
    as [(entry & H & Hage & E) | [(c & _ & _ & E) | (e & Hmiss & Herr & E)]].
  - rewrite E in *. cbn in *. by rewrite (fetch_hit env2 _ _ _ H (Hwindow _ H)).
  - rewrite E in *. cbn in *.
    by rewrite (fetch_hit env2 _ _ _ (lookup_insert_eq _ _ _) (Hwindow _ (lookup_insert_eq _ _ _))).
  - destruct Hfirst as [Hf | (c & cache' & Hok)]; congruence.
Qed.

(** X1.  A successful fetch and the lookup after it.  When the path has no
    fresh entry and the server answers with a 2xx status and a readable body,
    the call returns the body, issues the one request for the page, and
    stores the body under the path with the clock reading of the call; any
    call for the path made less than the time to live after that reading
    returns the same body from the cache, whatever the network does. *)
Theorem fetch_success_then_cached
    (env : Env) (cache : gmap string CacheEntry) (path : string)
    (response : Response) (c : string) :
  fresh env (cache !! path) = false ->
  fetch env (docUrl path) = Normal response ->
  (200 <= status response <= 299)%N ->
  body response = Normal c ->
  text (fetchDocMarkdown env cache path) = c /\
  requests (fetchDocMarkdown env cache path) = [docUrl path] /\
  cacheAfter (fetchDocMarkdown env cache path) !! path =
    Some {| content := c; timestamp := now env |} /\
  forall env',
    now env' - now env < CACHE_TTL ->
    fetchDocMarkdown env' (cacheAfter (fetchDocMarkdown env cache path)) path =
      {| text := c;
         cacheAfter := cacheAfter (fetchDocMarkdown env cache path);
         requests := [] |}.
Proof.
  intros Hmiss Hfetch Hstatus Hbody.
  assert (fetchRemote env cache path =
            Normal (c, <[path := {| content := c; timestamp := now env |}]> cache)) as Hok.
  { apply fetchRemote_success. exists response. repeat split; try done.
    unfold ok. apply andb_true_iff. split; apply N.leb_le; lia. }
  rewrite (fetch_miss _ _ _ Hmiss), Hok. cbn [text requests cacheAfter].
  split; [done |]. split; [done |]. split; [apply lookup_insert_eq |].
  intros env' Hage.
  rewrite (fetch_hit env' _ path {| content := c; timestamp := now env |});
    [done | apply lookup_insert_eq | done].
Qed.

Lemma fetch_success_then_cached_witness :
  text (fetchDocMarkdown (envDown 3000000)
          (cacheAfter (fetchDocMarkdown (envServing 5 "# Quickstart") ∅ "/overview/quickstart"))
          "/overview/quickstart") = "# Quickstart".
Proof.
  destruct (fetch_success_then_cached (envServing 5 "# Quickstart") ∅ "/overview/quickstart"
              {| status := 200; body := Normal "# Quickstart" |} "# Quickstart")
    as (_ & _ & _ & Hagain).
  - reflexivity.
  - reflexivity.
  - split; by vm_compute.
  - reflexivity.
  - rewrite (Hagain (envDown 3000000)); [reflexivity | by vm_compute].
Defined.

(** X2.  What a call may do to the cache and the network.  It issues no
    request or the one request for the page of its path.  It leaves the
    entries of all other paths as they are and never removes an entry.  It
    changes the cache only after a fetch that succeeded -- a 2xx answer with
    a readable body -- and then by storing exactly the text it returns, with
    the clock reading of the call: a placeholder is never stored. *)
Theorem fetch_cache_invariant (env : Env) (cache : gmap string CacheEntry) (path : string) :
  (requests (fetchDocMarkdown env cache path) = [] \/
   requests (fetchDocMarkdown env cache path) = [docUrl path]) /\
  (forall q, q <> path -> cacheAfter (fetchDocMarkdown env cache path) !! q = cache !! q) /\
  dom cache ⊆ dom (cacheAfter (fetchDocMarkdown env cache path)) /\
  (cacheAfter (fetchDocMarkdown env cache path) = cache \/
   exists response,
     fetch env (docUrl path) = Normal response /\ ok response = true /\
     body response = Normal (text (fetchDocMarkdown env cache path)) /\
     cacheAfter (fetchDocMarkdown env cache path) =
       <[path := {| content := text (fetchDocMarkdown env cache path);
                    timestamp := now env |}]> cache).
Proof.
  split; [| split; [| split]].
  - destruct (fetch_cases env cache path)
      as [(entry & _ & _ & ->) | [(c & _ & _ & ->) | (e & _ & _ & ->)]]; cbn; auto.
  - intros q Hq. by apply fetch_frame.
  - destruct (fetch_cases env cache path)
      as [(entry & _ & _ & ->) | [(c & _ & _ & ->) | (e & _ & _ & ->)]]; cbn; try done.
    rewrite dom_insert. set_solver.
  - destruct (fetch_cases env cache path)
      as [(entry & _ & _ & ->) | [(c & _ & Hok & ->) | (e & _ & _ & ->)]]; cbn; auto.
    right. apply fetchRemote_success in Hok as (response & ? & ? & ? & _).
    by exists response.
Qed.

(** ** The fetches of a tool, one by one *)

Lemma fetchAll_cons (env : Env) (cache : gmap string CacheEntry) (p : string)
    (ps : list string) :
  contentsOf env cache (p :: ps) =
    text (fetchDocMarkdown env cache p)
    :: contentsOf env (cacheAfter (fetchDocMarkdown env cache p)) ps /\
  cacheOf env cache (p :: ps) = cacheOf env (cacheAfter (fetchDocMarkdown env cache p)) ps /\
  requestsOf env cache (p :: ps) =
    requests (fetchDocMarkdown env cache p)
    ++ requestsOf env (cacheAfter (fetchDocMarkdown env cache p)) ps.
Proof.
  unfold contentsOf, cacheOf, requestsOf. simpl.
  by destruct (fetchAll env (cacheAfter (fetchDocMarkdown env cache p)) ps) as [[cs c'] rq].
Qed.

Lemma fetchAll_independent_aux (env : Env) (paths : list string) :
  NoDup paths ->
  forall cache,
    contentsOf env cache paths = map (fun p => text (fetchDocMarkdown env cache p)) paths /\
    requestsOf env cache paths =
      concat (map (fun p => requests (fetchDocMarkdown env cache p)) paths) /\
    forall q,
      cacheOf env cache paths !! q =
        if decide (q ∈ paths) then cacheAfter (fetchDocMarkdown env cache q) !! q
        else cache !! q.
Proof.
  induction 1 as [|p ps Hp Hnodup IH]; intros cache.
  - split; [done |]. split; [done |]. intros q. by rewrite decide_False by apply not_elem_of_nil.
  - destruct (fetchAll_cons env cache p ps) as (-> & -> & ->).
    destruct (IH (cacheAfter (fetchDocMarkdown env cache p))) as (-> & -> & Hcache).
    assert (forall q, q ∈ ps ->
              cacheAfter (fetchDocMarkdown env cache p) !! q = cache !! q) as Hframe.
    { intros q Hq. apply fetch_frame. intros ->. done. }
    split; [| split].
    + simpl. f_equal. apply map_ext_in. intros q Hq%list_elem_of_In.
      by apply fetch_depends_on_entry, Hframe.
    + simpl. f_equal. f_equal. apply map_ext_in. intros q Hq%list_elem_of_In.
      by apply fetch_depends_on_entry, Hframe.
    + intros q. rewrite Hcache. destruct (decide (q ∈ ps)) as [Hq | Hq].
      * rewrite decide_True by (by apply list_elem_of_further).
        by apply fetch_depends_on_entry, Hframe.
      * destruct (decide (q = p)) as [-> | Hne].
        -- by rewrite decide_True by apply list_elem_of_here.
        -- rewrite decide_False by (by intros [? | ?]%elem_of_cons).
           by apply fetch_frame.
Qed.

(** X3.  The fetches of a tool do not interfere.  For pairwise distinct
    paths, each content and each request is that of a single call for its
    path on the cache the tool started from, and the cache the tool leaves
    holds, for each of its paths, the entry that single call leaves and, for
    every other path, the entry it had.  So the outcome does not depend on
    the order in which the fetches are issued or settle. *)
Theorem fetchAll_independent
    (env : Env) (cache : gmap string CacheEntry) (paths : list string) :
  NoDup paths ->
  contentsOf env cache paths = map (fun p => text (fetchDocMarkdown env cache p)) paths /\
  requestsOf env cache paths =
    concat (map (fun p => requests (fetchDocMarkdown env cache p)) paths) /\
  forall q,
    cacheOf env cache paths !! q =
      if decide (q ∈ paths) then cacheAfter (fetchDocMarkdown env cache q) !! q
      else cache !! q.
Proof. intros Hnodup. by apply fetchAll_independent_aux. Qed.

Lemma fetchAll_independent_witness :
  contentsOf (envServing 7 "page") ∅ (map pathMap sdkTopics) = replicate 6 "page" /\
  length (requestsOf (envServing 7 "page") ∅ (map pathMap sdkTopics)) = 6%nat.
Proof.
  destruct (fetchAll_independent (envServing 7 "page") ∅ (map pathMap sdkTopics))
    as (Hc & Hr & _).
  - apply (bool_decide_unpack _). by vm_compute.
  - rewrite Hc, Hr. split; reflexivity.
Defined.

Lemma registry_paths_NoDup : NoDup (map pathMap registryOrder).
Proof. apply (bool_decide_unpack _). by vm_compute. Qed.

Lemma concat_map_nil {A B} (f : A -> list B) (l : list A) :
  (forall x, x ∈ l -> f x = []) -> concat (map f l) = [].
Proof.
  induction l as [|x l IH]; intros H; [done |]. simpl.
  rewrite (H x) by apply list_elem_of_here. simpl.
  apply IH. intros y Hy. apply H. by apply list_elem_of_further.
Qed.

(** After the fetches of a tool, a call for one of its paths that did not
    fail, made while the entry is young, is answered from the cache. *)
Lemma fetchAll_then_hit (env1 env2 : Env) (cache : gmap string CacheEntry)
    (paths : list string) (p : string) :
  NoDup paths ->
  p ∈ paths ->
  (fresh env1 (cache !! p) = true \/
   exists c cache', fetchRemote env1 cache p = Normal (c, cache')) ->
  (forall entry, cacheOf env1 cache paths !! p = Some entry ->
                 now env2 - timestamp entry < CACHE_TTL) ->
  text (fetchDocMarkdown env2 (cacheOf env1 cache paths) p) =
    text (fetchDocMarkdown env1 cache p) /\
  requests (fetchDocMarkdown env2 (cacheOf env1 cache paths) p) = [] /\
  cacheAfter (fetchDocMarkdown env2 (cacheOf env1 cache paths) p) !! p =
    cacheOf env1 cache paths !! p.
Proof.
  intros Hnodup Hp Hfirst Hwindow.
  destruct (fetchAll_independent_aux env1 paths Hnodup cache) as (_ & _ & Hcache1).
  assert (cacheOf env1 cache paths !! p =
            cacheAfter (fetchDocMarkdown env1 cache p) !! p) as Hentry.
  { by rewrite Hcache1, decide_True. }
  destruct (fetch_depends_on_entry env2 _ _ p Hentry) as (-> & -> & ->).
  rewrite fetch_then_hit; [by rewrite Hentry | done |].
  intros entry He. apply Hwindow. by rewrite Hentry.
Qed.

(** A second round of fetches of the same paths, made while the entries the
    first round left are young, is answered from the cache when no fetch of
    the first round failed. *)
Lemma fetchAll_again (env1 env2 : Env) (cache : gmap string CacheEntry)
    (paths : list string) :
  NoDup paths ->
  (forall p, p ∈ paths ->
             fresh env1 (cache !! p) = true \/
             exists c cache', fetchRemote env1 cache p = Normal (c, cache')) ->
  (forall p entry, p ∈ paths ->
                   cacheOf env1 cache paths !! p = Some entry ->
                   now env2 - timestamp entry < CACHE_TTL) ->
  contentsOf env2 (cacheOf env1 cache paths) paths = contentsOf env1 cache paths /\
  requestsOf env2 (cacheOf env1 cache paths) paths = [] /\
  cacheOf env2 (cacheOf env1 cache paths) paths = cacheOf env1 cache paths.
Proof.
  intros Hnodup Hfirst Hwindow.
  destruct (fetchAll_independent_aux env1 paths Hnodup cache) as (Hc1 & _ & _).
  destruct (fetchAll_independent_aux env2 paths Hnodup (cacheOf env1 cache paths))
    as (Hc2 & Hr2 & Hcache2).
  pose proof (fun p Hp => fetchAll_then_hit env1 env2 cache paths p Hnodup Hp
                            (Hfirst p Hp) (fun entry => Hwindow p entry Hp)) as Hone.
  split; [| split].
  - rewrite Hc2, Hc1. apply map_ext_in. intros p Hp%list_elem_of_In. by apply Hone.
  - rewrite Hr2. apply concat_map_nil. intros p Hp. by apply Hone.
  - apply map_eq. intros q. rewrite Hcache2.
    destruct (decide (q ∈ paths)) as [Hq | Hq]; [by apply Hone | done].
Qed.

Lemma registry_complete (topic : Topic) : topic ∈ registryOrder.
Proof. destruct topic; apply (bool_decide_unpack _); by vm_compute. Qed.

Lemma registry_path_elem (topic : Topic) : pathMap topic ∈ map pathMap registryOrder.
Proof. apply list_elem_of_fmap_2, registry_complete. Qed.

Lemma search_parts (env : Env) (cache : gmap string CacheEntry) (query : string) :
  output (search_documentation env cache query) =
    (let results :=
       searchResults query registryOrder
         (contentsOf env cache (map pathMap registryOrder)) in
     if (length results =? 0)%nat then noResultsText query else resultsText query results) /\
  cacheLeft (search_documentation env cache query) =
    cacheOf env cache (map pathMap registryOrder) /\
  issued (search_documentation env cache query) =
    requestsOf env cache (map pathMap registryOrder).
Proof.
  unfold search_documentation, contentsOf, cacheOf, requestsOf.
  by destruct (fetchAll env cache (map pathMap registryOrder)) as [[cs c'] rq].
Qed.

(** X4.  A search warms the cache for every tool.  When no fetch of a search
    failed, then, while the entries it left are young, any further search
    issues no request and leaves the cache as it is, the same search returns
    the same answer, and [get-documentation] for any topic issues no request
    either. *)
Theorem search_warms_cache
    (env1 env2 : Env) (cache : gmap string CacheEntry) (query1 query2 : string) :
  (forall topic,
      fresh env1 (cache !! pathMap topic) = true \/
      exists c cache', fetchRemote env1 cache (pathMap topic) = Normal (c, cache')) ->
  (forall topic entry,
      cacheLeft (search_documentation env1 cache query1) !! pathMap topic = Some entry ->
      now env2 - timestamp entry < CACHE_TTL) ->
  issued (search_documentation env2
            (cacheLeft (search_documentation env1 cache query1)) query2) = [] /\
  cacheLeft (search_documentation env2
               (cacheLeft (search_documentation env1 cache query1)) query2) =
    cacheLeft (search_documentation env1 cache query1) /\
  output (search_documentation env2
            (cacheLeft (search_documentation env1 cache query1)) query1) =
    output (search_documentation env1 cache query1) /\
  forall topic,
    issued (get_documentation env2
              (cacheLeft (search_documentation env1 cache query1)) topic) = [].
Proof.
  intros Hfirst Hwindow.
  destruct (search_parts env1 cache query1) as (Hout1 & Hcache1 & _).
  rewrite Hcache1 in *.
  assert (forall p, p ∈ map pathMap registryOrder ->
            fresh env1 (cache !! p) = true \/
            exists c cache', fetchRemote env1 cache p = Normal (c, cache')) as Hfirst'.
  { intros p (topic & -> & _)%list_elem_of_fmap. apply Hfirst. }
  assert (forall p entry, p ∈ map pathMap registryOrder ->
            cacheOf env1 cache (map pathMap registryOrder) !! p = Some entry ->
            now env2 - timestamp entry < CACHE_TTL) as Hwindow'.
  { intros p entry (topic & -> & _)%list_elem_of_fmap. apply Hwindow. }
  destruct (fetchAll_again env1 env2 cache _ registry_paths_NoDup Hfirst' Hwindow')
    as (Hc & Hr & Hk).
  split; [| split; [| split]].
  - by destruct (search_parts env2 (cacheOf env1 cache (map pathMap registryOrder)) query2)
      as (_ & _ & ->).
  - by destruct (search_parts env2 (cacheOf env1 cache (map pathMap registryOrder)) query2)
      as (_ & -> & _).
  - destruct (search_parts env2 (cacheOf env1 cache (map pathMap registryOrder)) query1)
      as (-> & _ & _).
    by rewrite Hc, Hout1.
  - intros topic. unfold get_documentation. cbn [issued].
    apply (fetchAll_then_hit env1 env2 cache _ _ registry_paths_NoDup
             (registry_path_elem topic) (Hfirst topic) (Hwindow topic)).
Qed.

Lemma search_warms_cache_witness :
  issued (search_documentation (envDown 1000)
            (cacheLeft (search_documentation (envServing 0 "# Pay") ∅ "pay")) "refund") = [] /\
  issued (get_documentation (envDown 1000)
            (cacheLeft (search_documentation (envServing 0 "# Pay") ∅ "pay")) ApiKeys) = [].
Proof.
  destruct (search_warms_cache (envServing 0 "# Pay") (envDown 1000) ∅ "pay" "refund")
    as (Hreq & _ & _ & Hdoc).
  - intros topic. right. eexists _, _. reflexivity.
  - intros topic entry H. destruct topic; vm_compute in H; injection H as <-; reflexivity.
  - split; [exact Hreq | exact (Hdoc ApiKeys)].
Defined.

(** ** The registry and get-documentation *)

(** X6.  The registry is well formed: distinct topics have distinct paths
    (so no two topics share a cache entry or a URL) and distinct
    identifiers; the registry order lists every topic once; every topic has
    one or two related topics, without repetition, and is not related to
    itself. *)
Theorem registry_well_formed :
  (forall t1 t2, pathMap t1 = pathMap t2 -> t1 = t2) /\
  (forall t1 t2, topicName t1 = topicName t2 -> t1 = t2) /\
  (forall t1 t2, docUrl (pathMap t1) = docUrl (pathMap t2) -> t1 = t2) /\
  NoDup registryOrder /\
  (forall t, t ∈ registryOrder) /\
  (forall t,
      (1 <= length (relatedTopics (topicMetadata t)) <= 2)%nat /\
      NoDup (relatedTopics (topicMetadata t)) /\
      t ∉ relatedTopics (topicMetadata t)).
Proof.
  split; [| split; [| split; [| split; [| split]]]].
  - intros [] [] H; try reflexivity; discriminate H.
  - intros [] [] H; try reflexivity; discriminate H.
  - intros [] [] H; try reflexivity; discriminate H.
  - apply registry_NoDup.
  - apply registry_complete.
  - intros []; (split; [simpl; lia |]);
      split; apply (bool_decide_unpack _); by vm_compute.
Qed.

(** X7.  Every answer of [get-documentation] begins with the text the
    fetcher returned and carries the section of related topics, with the
    line of each related topic -- also when the fetch failed: then the
    answer is the placeholder followed by that section, and the cache is
    left as it was. *)
Theorem get_documentation_answer
    (env : Env) (cache : gmap string CacheEntry) (topic : Topic) :
  JS.startsWith (output (get_documentation env cache topic))
    (text (fetchDocMarkdown env cache (pathMap topic))) = true /\
  JS.includes (output (get_documentation env cache topic)) "## Related Topics" = true /\
  (forall t, t ∈ relatedTopics (topicMetadata topic) ->
             JS.includes (output (get_documentation env cache topic)) (relatedLine t) = true) /\
  (forall e,
      fresh env (cache !! pathMap topic) = false ->
      fetchError env (pathMap topic) e ->
      output (get_documentation env cache topic) =
        placeholder (pathMap topic) e +:+ relatedTopicsText topic /\
      cacheLeft (get_documentation env cache topic) = cache).
Proof.
  unfold get_documentation. cbn [output cacheLeft].
  split; [apply startsWith_app |].
  assert (relatedTopicsText topic =
            nl +:+ nl +:+ "## Related Topics" +:+ nl +:+ nl +:+
            JS.join nl (map relatedLine (relatedTopics (topicMetadata topic)))) as Hrel.
  { destruct topic; reflexivity. }
  split; [| split].
  - apply includes_app_l. rewrite Hrel. do 2 apply includes_app_l.
    apply includes_here, startsWith_app.
  - intros t Ht. apply includes_app_l. rewrite Hrel. do 5 apply includes_app_l.
    apply join_includes. by apply list_elem_of_fmap_2.
  - intros e Hmiss Herr.
    by rewrite (fetch_miss _ _ _ Hmiss), (fetchRemote_error _ cache _ _ Herr).
Qed.

(** ** More facts about strings *)

Lemma eqb_NL (c : ascii) : Ascii.eqb JS.NL c = JS.isNL c.
Proof.
  unfold JS.isNL. destruct (Ascii.eqb_spec JS.NL c) as [<- | Hne]; [done |].
  symmetry. apply N.eqb_neq. intros H. apply Hne.
  rewrite <- (ascii_N_embedding c), H. done.
Qed.

Lemma includes_nl_cons (c : ascii) (s : string) :
  JS.includes (String c s) nl = JS.isNL c || JS.includes s nl.
Proof.
  cbn [JS.includes]. f_equal. unfold nl, JS.str. cbn [JS.startsWith].
  rewrite eqb_NL. by destruct (JS.isNL c).
Qed.

Lemma includes_nl_app (a b : string) :
  JS.includes (a +:+ b) nl = JS.includes a nl || JS.includes b nl.
Proof.
  induction a as [|c a IH]; sapp; [done |].
  by rewrite !includes_nl_cons, IH, orb_assoc.
Qed.

Lemma isNL_lower (c : ascii) : JS.isNL (JS.lowerChar c) = JS.isNL c.
Proof. by destruct c as [[] [] [] [] [] [] [] []]. Qed.

Lemma includes_nl_lower (s : string) :
  JS.includes (JS.toLowerCase s) nl = JS.includes s nl.
Proof.
  induction s as [|c s IH]; [done |]. cbn [JS.toLowerCase].
  by rewrite !includes_nl_cons, isNL_lower, IH.
Qed.

Lemma collapse_no_nl (inRun : bool) (s : string) :
  JS.includes (JS.collapseFrom inRun s) nl = false.
Proof.
  revert inRun. induction s as [|c s IH]; intros inRun; [done |].
  cbn [JS.collapseFrom]. destruct (JS.isNL c) eqn:Hc.
  - destruct inRun; [apply IH |]. rewrite includes_nl_cons. apply IH.
  - by rewrite includes_nl_cons, Hc, IH.
Qed.

Lemma length_collapse (inRun : bool) (s : string) :
  (String.length (JS.collapseFrom inRun s) <= String.length s)%nat.
Proof.
  revert inRun. induction s as [|c s IH]; intros inRun; [done |].
  cbn [JS.collapseFrom]. destruct (JS.isNL c); [destruct inRun |]; simpl;
    pose proof (IH true); pose proof (IH false); lia.
Qed.

(** A text without a newline stands unchanged in the collapsed text. *)
Lemma collapse_keeps_head (inRun : bool) (m c : string) :
  JS.includes m nl = false ->
  JS.startsWith (JS.collapseFrom inRun (m +:+ c)) m = true.
Proof.
  revert inRun. induction m as [|d m IH]; intros inRun H; [apply startsWith_empty |].
  rewrite includes_nl_cons in H. apply orb_false_iff in H as [Hd Hm].
  sapp. cbn [JS.collapseFrom]. rewrite Hd. cbn [JS.startsWith].
  rewrite Ascii.eqb_refl. by apply IH.
Qed.

Lemma collapse_keeps (inRun : bool) (a m c : string) :
  JS.includes m nl = false ->
  JS.includes (JS.collapseFrom inRun (a +:+ m +:+ c)) m = true.
Proof.
  intros Hm. revert inRun. induction a as [|d a IH]; intros inRun; sapp.
  - by apply includes_here, collapse_keeps_head.
  - cbn [JS.collapseFrom]. destruct (JS.isNL d); [destruct inRun |];
      try apply includes_cons; apply IH.
Qed.

Lemma stake_sdrop (n : nat) (s : string) : JS.stake n s +:+ JS.sdrop n s = s.
Proof.
  revert s. induction n as [|n IH]; intros [|c s]; simpl; sapp; try done.
  by rewrite IH.
Qed.

Lemma sdrop_sdrop (n m : nat) (s : string) :
  JS.sdrop m (JS.sdrop n s) = JS.sdrop (n + m) s.
Proof.
  revert s. induction n as [|n IH]; intros [|c s]; simpl; try done.
  by destruct m.
Qed.

Lemma stake_add (n m : nat) (s : string) :
  JS.stake (n + m) s = JS.stake n s +:+ JS.stake m (JS.sdrop n s).
Proof.
  revert s. induction n as [|n IH]; intros [|c s]; simpl; sapp; try done.
  - by destruct m.
  - by rewrite IH.
Qed.

Lemma stake_ge (n : nat) (s : string) :
  (String.length s <= n)%nat -> JS.stake n s = s.
Proof.
  revert s. induction n as [|n IH]; intros [|c s] H; simpl in *; try done; [lia |].
  rewrite IH; [done | lia].
Qed.

Lemma startsWith_stake (s p : string) :
  JS.startsWith s p = true -> JS.stake (String.length p) s = p.
Proof. intros [r ->]%startsWith_inv. apply stake_app. Qed.

Lemma lower_stake (n : nat) (s : string) :
  JS.toLowerCase (JS.stake n s) = JS.stake n (JS.toLowerCase s).
Proof.
  revert s. induction n as [|n IH]; intros [|c s]; simpl; try done. by rewrite IH.
Qed.

Lemma lower_sdrop (n : nat) (s : string) :
  JS.toLowerCase (JS.sdrop n s) = JS.sdrop n (JS.toLowerCase s).
Proof.
  revert s. induction n as [|n IH]; intros [|c s]; simpl; try done.
Qed.

Lemma includes_stake (n : nat) (s x : string) :
  JS.includes (JS.stake n s) x = true -> JS.includes s x = true.
Proof.
  intros H. rewrite <- (stake_sdrop n s). by apply includes_app_r.
Qed.

Lemma indexOf_range (s n : string) : -1 <= JS.indexOf s n <= JS.len s.
Proof.
  unfold JS.indexOf, JS.len. destruct (JS.find s n) as [i|] eqn:E; [| lia].
  destruct (find_spec _ _ _ E) as (_ & H & _). lia.
Qed.

Lemma length_substring (s : string) (a b : Z) :
  Z.of_nat (String.length (JS.substring s a b)) <= Z.abs (b - a).
Proof.
  unfold JS.substring. rewrite length_stake. unfold JS.len. lia.
Qed.

Lemma splitLines_no_nl (s l : string) :
  l ∈ JS.splitLines s -> JS.includes l nl = false.
Proof.
  revert l. induction s as [|c s IH]; intros l; cbn [JS.splitLines].
  - by intros ->%list_elem_of_singleton.
  - destruct (JS.isNL c) eqn:Hc.
    + intros [-> | H]%elem_of_cons; [done | by apply IH].
    + destruct (JS.splitLines s) as [|l0 ls].
      { intros ->%list_elem_of_singleton. unfold JS.str.
        by rewrite includes_nl_cons, Hc. }
      intros [-> | H]%elem_of_cons.
      * rewrite includes_nl_cons, Hc. apply IH, list_elem_of_here.
      * by apply IH, list_elem_of_further.
Qed.

Lemma splitLines_nonempty (s : string) : JS.splitLines s <> [].
Proof.
  destruct s as [|c s]; [done |]. cbn [JS.splitLines].
  destruct (JS.isNL c); [done |]. by destruct (JS.splitLines s).
Qed.

(** ** More on search-documentation *)

Lemma scanSections_result (sections : list string) (queryLower : string) :
  scanSections sections queryLower = (EmptyString, EmptyString) \/
  exists section,
    section ∈ sections /\
    JS.includes (JS.toLowerCase section) queryLower = true /\
    scanSections sections queryLower =
      (sectionTitleOf section, excerptOf (sectionBody section) queryLower).
Proof.
  induction sections as [|s sections IH]; [by left |]. cbn [scanSections].
  destruct (JS.includes (JS.toLowerCase s) queryLower) eqn:E.
  - right. exists s. split; [apply list_elem_of_here | done].
  - destruct IH as [-> | (section & Hin & Hs & ->)]; [by left |].
    right. exists section. split; [by apply list_elem_of_further | done].
Qed.

Lemma sectionTitleOf_no_nl (section : string) :
  JS.includes (sectionTitleOf section) nl = false.
Proof.
  unfold sectionTitleOf, JS.orElse.
  pose proof (splitLines_no_nl section) as H.
  destruct (JS.splitLines section) as [|l ls]; [done |]. cbn [hd].
  destruct (JS.truthy l); [apply H, list_elem_of_here | done].
Qed.

Lemma excerptOf_no_nl (body queryLower : string) :
  JS.includes (excerptOf body queryLower) nl = false.
Proof.
  unfold excerptOf. cbv zeta. rewrite !includes_nl_app.
  unfold JS.collapseNewlines. rewrite collapse_no_nl.
  by destruct (0 <? _), (_ <? JS.len body).
Qed.

Lemma excerptOf_length (body queryLower : string) :
  (String.length (excerptOf body queryLower) <= String.length queryLower + 306)%nat.
Proof.
  unfold excerptOf. cbv zeta. rewrite !length_app_s.
  pose proof (indexOf_range (JS.toLowerCase body) queryLower) as Hidx.
  unfold JS.len in Hidx. rewrite lowerChar_length in Hidx.
  set (index := JS.indexOf (JS.toLowerCase body) queryLower) in *.
  pose proof (length_collapse false
                (JS.substring body (Z.max 0 (index - 150))
                   (Z.min (JS.len body) (index + JS.len queryLower + 150)))) as Hc.
  pose proof (length_substring body (Z.max 0 (index - 150))
                (Z.min (JS.len body) (index + JS.len queryLower + 150))) as Hs.
  unfold JS.collapseNewlines. unfold JS.len in *.
  assert (forall b : bool, (String.length (if b then "..." else EmptyString) <= 3)%nat) as H3.
  { intros []; simpl; lia. }
  pose proof (H3 (0 <? Z.max 0 (index - 150))).
  pose proof (H3 (Z.min (Z.of_nat (String.length body))
                    (index + Z.of_nat (String.length queryLower) + 150)
                  <? Z.of_nat (String.length body))).
  lia.
Qed.

(** X8.  The shape of a search result.  The section heading of a result is
    one line.  Its excerpt is at most 306 characters longer than the
    lower-cased query, whose length is the one the window is computed with,
    and it is one line as well, unless it is the fallback: the first 200
    characters of the document followed by an ellipsis. *)
Theorem search_result_shape (query : string) (topic : Topic) (content : string)
    (r : SearchResult) :
  searchOne query topic content = Some r ->
  JS.includes (sr_section r) nl = false /\
  (String.length (sr_excerpt r) <= String.length (JS.toLowerCase query) + 306)%nat /\
  (JS.includes (sr_excerpt r) nl = false \/
   sr_excerpt r = JS.substring content 0 200 +:+ "...").
Proof.
  unfold searchOne. destruct (JS.includes _ _); [| done].
  assert ((String.length (JS.substring content 0 200 +:+ "...")
           <= String.length (JS.toLowerCase query) + 306)%nat) as Hfallback.
  { rewrite length_app_s. pose proof (length_substring content 0 200). simpl. lia. }
  destruct (scanSections_result (JS.splitHeadings content) (JS.toLowerCase query))
    as [-> | (section & _ & _ & ->)]; intros [= <-]; cbn [sr_section sr_excerpt].
  - split; [done |]. split; [done | by right].
  - split; [apply sectionTitleOf_no_nl |].
    pose proof (excerptOf_length (sectionBody section) (JS.toLowerCase query)) as Hlen.
    pose proof (excerptOf_no_nl (sectionBody section) (JS.toLowerCase query)) as Hnl.
    unfold JS.orElse.
    destruct (JS.truthy (excerptOf (sectionBody section) (JS.toLowerCase query)));
      [by split; [| left] | by split; [| right]].
Qed.

Lemma search_result_shape_witness :
  exists r,
    searchOne "pay" SendPayments ("# Payments" +:+ nl +:+ "How to" +:+ nl +:+ "pay.") = Some r /\
    (String.length (sr_excerpt r) <= 309)%nat.
Proof.
  eexists. split; [reflexivity |].
  apply (search_result_shape "pay" SendPayments
           ("# Payments" +:+ nl +:+ "How to" +:+ nl +:+ "pay.")).
  reflexivity.
Defined.

(** The window holds the place where the query was found. *)
Lemma window_holds_match (body query : string) (i : nat) :
  JS.find (JS.toLowerCase body) (JS.toLowerCase query) = Some i ->
  JS.includes query nl = false ->
  JS.includes (JS.toLowerCase (windowSpec body i (String.length query)))
    (JS.toLowerCase query) = true.
Proof.
  intros Hfind Hnl. destruct (find_spec _ _ _ Hfind) as (Hat & Hroom & _).
  rewrite !lowerChar_length in Hroom.
  set (q := String.length query) in *.
  set (m := JS.stake q (JS.sdrop i body)).
  assert (JS.toLowerCase m = JS.toLowerCase query) as Hm.
  { unfold m. rewrite lower_stake, lower_sdrop. unfold q.
    rewrite <- (lowerChar_length query). by apply startsWith_stake. }
  assert (JS.includes m nl = false) as Hmnl.
  { by rewrite <- includes_nl_lower, Hm, includes_nl_lower. }
  unfold windowSpec. cbv zeta.
  set (lo := Nat.max 0 (i - 150)).
  set (hi := Nat.min (String.length body) (i + q + 150)).
  assert (JS.stake (hi - lo) (JS.sdrop lo body) =
            JS.stake (i - lo) (JS.sdrop lo body) +:+ m +:+
            JS.stake (hi - lo - (i - lo) - q) (JS.sdrop (i + q) body)) as ->.
  { replace (hi - lo)%nat with ((i - lo) + (q + (hi - lo - (i - lo) - q)))%nat at 1 by lia.
    rewrite stake_add, sdrop_sdrop. replace (lo + (i - lo))%nat with i by lia.
    rewrite stake_add, sdrop_sdrop. done. }
  eapply includes_lower; [| rewrite Hm; apply includes_refl].
  apply includes_app_l, includes_app_r. unfold JS.collapseNewlines.
  by apply collapse_keeps.
Qed.

(** X9.  The excerpt shows the match, on the texts of this development:
    code units below 256, on which lower-casing changes no length.  When the
    query has no newline and occurs in the body of the selected section, the
    excerpt of the result contains the query, letter case apart.  (Beyond
    these texts the window can miss the match: see [Wide.dottedBody].) *)
Theorem excerpt_shows_match
    (query : string) (topic : Topic) (content section : string) :
  selectedSection content (JS.toLowerCase query) section ->
  JS.includes query nl = false ->
  JS.includes (JS.toLowerCase (sectionBody section)) (JS.toLowerCase query) = true ->
  exists r,
    searchOne query topic content = Some r /\
    sr_section r = sectionTitleOf section /\
    JS.includes (JS.toLowerCase (sr_excerpt r)) (JS.toLowerCase query) = true.
Proof.
  intros Hsel Hnl Hbody.
  pose proof (selectedSection_content _ _ _ Hsel) as Hcontent.
  destruct Hsel as (pre & post & Hsplit & Hpre & Hin).
  apply find_includes in Hbody as [i Hfind].
  unfold searchOne. rewrite Hcontent, Hsplit.
  rewrite (scanSections_selected _ _ _ _ Hpre Hin), (excerptOf_window _ _ _ Hfind).
  eexists. split; [done |]. cbn [sr_section sr_excerpt]. split; [done |].
  pose proof (window_holds_match _ _ _ Hfind Hnl) as Hwin.
  unfold JS.orElse.
  destruct (windowSpec (sectionBody section) i (String.length query)); [| done].
  cbn [JS.truthy]. cbn [JS.toLowerCase] in Hwin.
  apply includes_inv in Hwin as (a & b & Hq). destruct a; [| done].
  destruct (JS.toLowerCase query); [| done]. apply includes_here, startsWith_empty.
Qed.

Lemma excerpt_shows_match_witness :
  exists r,
    searchOne "Refund" SendPayments
      ("# Payments" +:+ nl +:+ "To refund a payment" +:+ nl +:+ "call the API.") = Some r /\
    JS.includes (JS.toLowerCase (sr_excerpt r)) "refund" = true.
Proof.
  destruct (excerpt_shows_match "Refund" SendPayments
              ("# Payments" +:+ nl +:+ "To refund a payment" +:+ nl +:+ "call the API.")
              ("Payments" +:+ nl +:+ "To refund a payment" +:+ nl +:+ "call the API."))
    as (r & Hr & _ & Hin).
  - exists [EmptyString], []. by vm_compute.
  - reflexivity.
  - reflexivity.
  - exists r. split; [exact Hr | exact Hin].
Defined.

Lemma substring_head (s : string) (n : nat) :
  JS.substring s 0 (Z.min (Z.of_nat (String.length s)) (Z.of_nat n)) = JS.stake n s.
Proof.
  unfold JS.substring, JS.len.
  destruct (decide (n <= String.length s)%nat) as [Hle | Hgt].
  - rewrite (Z.min_r _ (Z.of_nat n)) by lia.
    replace (Z.min (Z.max 0 0) _) with 0 by lia.
    replace (Z.min (Z.max (Z.of_nat n) 0) _) with (Z.of_nat n) by lia.
    replace (Z.max 0 (Z.of_nat n) - Z.min 0 (Z.of_nat n)) with (Z.of_nat n) by lia.
    replace (Z.min 0 (Z.of_nat n)) with 0 by lia. by rewrite Nat2Z.id.
  - rewrite (Z.min_l _ (Z.of_nat n)) by lia.
    replace (Z.min (Z.max 0 0) _) with 0 by lia.
    replace (Z.min (Z.max (Z.of_nat (String.length s)) 0) _)
      with (Z.of_nat (String.length s)) by lia.
    replace (Z.max 0 (Z.of_nat (String.length s)) - Z.min 0 (Z.of_nat (String.length s)))
      with (Z.of_nat (String.length s)) by lia.
    replace (Z.min 0 (Z.of_nat (String.length s))) with 0 by lia.
    rewrite Nat2Z.id. change (Z.to_nat 0) with O. cbn [JS.sdrop].
    rewrite !stake_ge; [done | lia | lia].
Qed.

(** The excerpt when the query is not in the body: [indexOf] gives -1, and
    the window runs from 0 to [queryLength + 149]. *)
Lemma excerptOf_miss (body query : string) :
  JS.includes (JS.toLowerCase body) (JS.toLowerCase query) = false ->
  excerptOf body (JS.toLowerCase query) =
    JS.collapseNewlines (JS.stake (String.length query + 149) body) +:+
    (if (String.length query + 149 <? String.length body)%nat then "..." else EmptyString).
Proof.
  intros Hmiss. apply indexOf_miss in Hmiss. unfold excerptOf. rewrite Hmiss. cbv zeta.
  unfold JS.len. rewrite lowerChar_length.
  replace (Z.max 0 (-1 - 150)) with 0 by lia.
  replace (-1 + Z.of_nat (String.length query) + 150)
    with (Z.of_nat (String.length query + 149)) by lia.
  rewrite substring_head. cbn [Z.ltb Z.compare]. sapp. f_equal.
  destruct (Z.ltb_spec (Z.min (Z.of_nat (String.length body))
                          (Z.of_nat (String.length query + 149)))
              (Z.of_nat (String.length body))),
           (Nat.ltb_spec (String.length query + 149) (String.length body));
    try done; lia.
Qed.

(** X10.  A match in the heading only.  When the lower-cased selected
    section contains the lower-cased query but the lower-cased body does not
    (the query stands in the heading line), [indexOf] gives -1 and the
    excerpt is the beginning of the body: its first [queryLower.length + 149]
    characters, newline runs collapsed, with an ellipsis behind them when
    the body is longer.  When the body is empty, the excerpt is the first
    200 characters of the document followed by an ellipsis. *)
Theorem excerpt_of_heading_match
    (query : string) (topic : Topic) (content section : string) :
  selectedSection content (JS.toLowerCase query) section ->
  JS.includes (JS.toLowerCase (sectionBody section)) (JS.toLowerCase query) = false ->
  exists r,
    searchOne query topic content = Some r /\
    sr_section r = sectionTitleOf section /\
    (sectionBody section <> EmptyString ->
     sr_excerpt r =
       JS.collapseNewlines
         (JS.stake (String.length (JS.toLowerCase query) + 149) (sectionBody section)) +:+
       (if (String.length (JS.toLowerCase query) + 149 <? String.length (sectionBody section))%nat
        then "..." else EmptyString)) /\
    (sectionBody section = EmptyString ->
     sr_excerpt r = JS.substring content 0 200 +:+ "...").
Proof.
  intros Hsel Hbody. rewrite (lowerChar_length query).
  pose proof (selectedSection_content _ _ _ Hsel) as Hcontent.
  destruct Hsel as (pre & post & Hsplit & Hpre & Hin).
  unfold searchOne. rewrite Hcontent, Hsplit.
  rewrite (scanSections_selected _ _ _ _ Hpre Hin), (excerptOf_miss _ _ Hbody).
  eexists. split; [done |]. cbn [sr_section sr_excerpt]. split; [done |]. split.
  - intros Hne. destruct (sectionBody section) as [|c body]; [done |].
    replace (String.length query + 149)%nat with (S (String.length query + 148)) by lia.
    cbn [JS.stake]. unfold JS.collapseNewlines, JS.orElse. cbn [JS.collapseFrom].
    by destruct (JS.isNL c).
  - intros ->. generalize (String.length query + 149)%nat. by intros [].
Qed.

Lemma excerpt_of_heading_match_witness :
  exists r,
    searchOne "payments" SendPayments ("# Payments" +:+ nl +:+ "Send money.") = Some r /\
    sr_section r = "Payments" /\ sr_excerpt r = "Send money.".
Proof.
  destruct (excerpt_of_heading_match "payments" SendPayments
              ("# Payments" +:+ nl +:+ "Send money.") ("Payments" +:+ nl +:+ "Send money."))
    as (r & Hr & Hsec & Hex & _).
  - exists [EmptyString], []. by vm_compute.
  - reflexivity.
  - exists r. split; [exact Hr |]. split; [exact Hsec |]. by apply Hex.
Defined.

Lemma searchOne_inv (query : string) (topic : Topic) (c : string) (r : SearchResult) :
  searchOne query topic c = Some r ->
  JS.includes (JS.toLowerCase c) (JS.toLowerCase query) = true /\
  sr_topic r = topic /\ sr_title r = title (topicMetadata topic).
Proof.
  unfold searchOne. destruct (JS.includes _ _); [| done].
  destruct (scanSections _ _) as [s x]. by intros [= <-].
Qed.

Lemma searchResults_sound (query : string) (docs : list Topic) (contents : list string) :
  Forall
    (fun r =>
       exists i c,
         docs !! i = Some (sr_topic r) /\ contents !! i = Some c /\
         JS.includes (JS.toLowerCase c) (JS.toLowerCase query) = true /\
         sr_title r = title (topicMetadata (sr_topic r)))
    (searchResults query docs contents).
Proof.
  revert contents. induction docs as [|topic docs IH]; intros contents; [apply Forall_nil_2 |].
  destruct contents as [|c contents]; [apply Forall_nil_2 |]. cbn [searchResults].
  assert (Forall
            (fun r =>
               exists i c0,
                 (topic :: docs) !! i = Some (sr_topic r) /\
                 (c :: contents) !! i = Some c0 /\
                 JS.includes (JS.toLowerCase c0) (JS.toLowerCase query) = true /\
                 sr_title r = title (topicMetadata (sr_topic r)))
            (searchResults query docs contents)) as Hrest.
  { eapply Forall_impl; [apply IH |]. intros r (i & c0 & ? & ? & ? & ?).
    by exists (S i), c0. }
  destruct (searchOne query topic c) as [r|] eqn:E; [| done].
  apply Forall_cons_2; [| done].
  apply searchOne_inv in E as (Hin & -> & Ht). by exists O, c.
Qed.

Lemma searchResults_all (query : string) (docs : list Topic) (contents : list string) :
  length contents = length docs ->
  Forall (fun c => JS.includes (JS.toLowerCase c) (JS.toLowerCase query) = true) contents ->
  map sr_topic (searchResults query docs contents) = docs.
Proof.
  revert contents. induction docs as [|topic docs IH]; intros [|c contents] Hlen Hall;
    try done.
  apply Forall_cons in Hall as [Hc Hall]. cbn [searchResults].
  destruct (searchOne_match query topic c Hc) as [r E]. rewrite E. cbn [map].
  rewrite (searchOne_topic _ _ _ _ E), IH; [done | by injection Hlen | done].
Qed.

(** X11.  A search lists only what matches, and the empty query matches
    everything.  Every result belongs to a registered topic whose fetched
    content contains the query, letter case apart, and carries the title of
    that topic.  For the empty query the results are all twelve topics, in
    registry order. *)
Theorem search_results_sound
    (env : Env) (cache : gmap string CacheEntry) (query : string) :
  Forall
    (fun r =>
       exists i c,
         registryOrder !! i = Some (sr_topic r) /\
         contentsOf env cache (map pathMap registryOrder) !! i = Some c /\
         JS.includes (JS.toLowerCase c) (JS.toLowerCase query) = true /\
         sr_title r = title (topicMetadata (sr_topic r)))
    (searchResults query registryOrder (contentsOf env cache (map pathMap registryOrder))) /\
  map sr_topic
    (searchResults EmptyString registryOrder
       (contentsOf env cache (map pathMap registryOrder))) = registryOrder.
Proof.
  split; [apply searchResults_sound |].
  apply searchResults_all.
  - by rewrite fetchAll_length, length_map.
  - apply Forall_forall. intros c _. apply includes_here, startsWith_empty.
Qed.

Lemma searchResults_none (query : string) (docs : list Topic) (contents : list string) :
  Forall (fun c => JS.includes (JS.toLowerCase c) (JS.toLowerCase query) = false) contents ->
  searchResults query docs contents = [].
Proof.
  revert contents. induction docs as [|topic docs IH]; intros [|c contents] Hall; try done.
  apply Forall_cons in Hall as [Hc Hall]. cbn [searchResults].
  unfold searchOne. rewrite Hc. by apply IH.
Qed.

Lemma filter_sublist_bool {A} (f : A -> bool) (l : list A) : sublist (List.filter f l) l.
Proof.
  induction l as [|x l IH]; [done |]. cbn [List.filter].
  destruct (f x); [by apply sublist_skip | by apply sublist_cons].
Qed.

(** X12.  A search without a match.  When no fetched content contains the
    query, the answer is the no-results message; the query is then not
    empty; the topics suggested are the registered topics, in registry
    order, whose identifier or lower-cased title contains the lower-cased
    query; and when there is none, the answer is the bare sentence. *)
Theorem search_without_match
    (env : Env) (cache : gmap string CacheEntry) (query : string) :
  Forall (fun c => JS.includes (JS.toLowerCase c) (JS.toLowerCase query) = false)
         (contentsOf env cache (map pathMap registryOrder)) ->
  output (search_documentation env cache query) = noResultsText query /\
  query <> EmptyString /\
  sublist (possibleTopics query) registryOrder /\
  (forall t,
      t ∈ possibleTopics query <->
      JS.includes (topicName t) (JS.toLowerCase query) = true \/
      JS.includes (JS.toLowerCase (title (topicMetadata t))) (JS.toLowerCase query) = true) /\
  (possibleTopics query = [] ->
   output (search_documentation env cache query) =
     "No results found for " +:+ dq +:+ query +:+ dq +:+ ". Try a different search term.").
Proof.
  intros Hnone.
  assert (output (search_documentation env cache query) = noResultsText query) as Hout.
  { destruct (search_parts env cache query) as (-> & _ & _).
    by rewrite (searchResults_none _ _ _ Hnone). }
  split; [done |]. split; [| split; [| split]].
  - intros ->. pose proof (fetchAll_length env cache (map pathMap registryOrder)) as Hlen.
    destruct (contentsOf env cache (map pathMap registryOrder)) as [|c cs]; [done |].
    apply Forall_cons in Hnone as [Hc _]. cbn [JS.toLowerCase] in Hc.
    by rewrite (includes_here _ _ (startsWith_empty _)) in Hc.
  - apply filter_sublist_bool.
  - intros t. unfold possibleTopics. rewrite list_elem_of_In, filter_In, orb_true_iff.
    rewrite <- list_elem_of_In. pose proof (registry_complete t). tauto.
  - intros Hno. rewrite Hout. unfold noResultsText. rewrite Hno. cbn [length Nat.ltb Nat.leb].
    by rewrite !app_empty_r.
Qed.

Lemma search_without_match_witness :
  output (search_documentation (envServing 0 "# Payments") ∅ "zzz-no-such-term") =
    "No results found for " +:+ dq +:+ "zzz-no-such-term" +:+ dq +:+
    ". Try a different search term.".
Proof.
  destruct (search_without_match (envServing 0 "# Payments") ∅ "zzz-no-such-term")
    as (_ & _ & _ & _ & Hbare).
  - apply (bool_decide_unpack _). by vm_compute.
  - apply Hbare. reflexivity.
Defined.

(** ** More on get-code-examples *)

Lemma trimStart_suffix (s : string) : exists k, JS.trimStart s = JS.sdrop k s.
Proof.
  induction s as [|c s (k & IH)]; [by exists O |]. cbn [JS.trimStart].
  destruct (JS.isSpace c); [by exists (S k) | by exists O].
Qed.

Lemma trimStart_cases (s : string) :
  JS.trimStart s = EmptyString \/
  exists c t, JS.trimStart s = String c t /\ JS.isSpace c = false.
Proof.
  induction s as [|c s IH]; [by left |]. cbn [JS.trimStart].
  destruct (JS.isSpace c) eqn:Hc; [done |]. right. by exists c, s.
Qed.

Lemma trimEnd_prefix (s : string) : JS.startsWith s (JS.trimEnd s) = true.
Proof.
  induction s as [|c s IH]; [done |]. cbn [JS.trimEnd].
  destruct (JS.trimEnd s) as [|d t].
  - destruct (JS.isSpace c); [done |]. unfold JS.str. cbn [JS.startsWith].
    by rewrite Ascii.eqb_refl.
  - cbn [JS.startsWith] in *. by rewrite Ascii.eqb_refl.
Qed.

Lemma trimEnd_idem (s : string) : JS.trimEnd (JS.trimEnd s) = JS.trimEnd s.
Proof.
  induction s as [|c s IH]; [done |]. cbn [JS.trimEnd].
  destruct (JS.trimEnd s) as [|d t] eqn:E.
  - destruct (JS.isSpace c) eqn:Hc; [done |]. unfold JS.str. cbn [JS.trimEnd]. by rewrite Hc.
  - change (JS.trimEnd (String c (String d t)))
      with (match JS.trimEnd (String d t) with
            | EmptyString => if JS.isSpace c then EmptyString else JS.str c
            | String a u => String c (String a u)
            end).
    by rewrite IH.
Qed.

Lemma trimEnd_head (c : ascii) (t : string) :
  JS.isSpace c = false ->
  exists u, JS.trimEnd (String c t) = String c u.
Proof.
  intros Hc. cbn [JS.trimEnd]. destruct (JS.trimEnd t) as [|d u].
  - rewrite Hc. by exists EmptyString.
  - by exists (String d u).
Qed.

Lemma trim_idem (s : string) : JS.trim (JS.trim s) = JS.trim s.
Proof.
  unfold JS.trim. destruct (trimStart_cases s) as [-> | (c & t & -> & Hc)]; [done |].
  destruct (trimEnd_head c t Hc) as [u Hu].
  assert (JS.trimStart (JS.trimEnd (String c t)) = JS.trimEnd (String c t)) as ->.
  { rewrite Hu. cbn [JS.trimStart]. by rewrite Hc. }
  apply trimEnd_idem.
Qed.

Lemma includes_trim (s : string) : JS.includes s (JS.trim s) = true.
Proof.
  unfold JS.trim. destruct (trimStart_suffix s) as [k ->].
  eapply includes_sdrop. apply includes_here, trimEnd_prefix.
Qed.

Lemma sdrop_app (a r : string) : JS.sdrop (String.length a) (a +:+ r) = r.
Proof. induction a as [|c a IH]; sapp; simpl; [by destruct r | done]. Qed.

(** The text before the first occurrence of a needle holds no occurrence. *)
Lemma stake_find_free (x n : string) (k : nat) :
  JS.find x n = Some k -> n <> EmptyString ->
  JS.includes (JS.stake k x) n = false.
Proof.
  intros Hfind Hn. destruct (find_spec _ _ _ Hfind) as (_ & _ & Hfirst).
  destruct (JS.includes (JS.stake k x) n) eqn:E; [| done].
  apply includes_inv in E as (a & b & E).
  assert (String.length a < k)%nat as Ha.
  { apply (f_equal String.length) in E. rewrite length_stake, !length_app_s in E.
    destruct n; [done |]. simpl in E. lia. }
  specialize (Hfirst _ Ha).
  rewrite <- (stake_sdrop k x), E, !app_assoc_s, sdrop_app in Hfirst.
  by rewrite startsWith_app in Hfirst.
Qed.

Lemma firstTag_parts (tags : list string) (rest body : string) (n : nat) :
  JS.firstTag tags rest = Some (body, n) ->
  JS.includes rest body = true /\ JS.includes body JS.fence = false.
Proof.
  induction tags as [|t tags IH]; [done |]. cbn [JS.firstTag].
  destruct (JS.startsWith rest t); [| done].
  destruct (JS.find (JS.sdrop (String.length t) rest) JS.fence) as [k|] eqn:E; [| done].
  intros [= <- <-]. split.
  - eapply includes_sdrop, includes_stake, includes_refl.
  - by apply (stake_find_free _ _ _ E).
Qed.

Lemma blocksFrom_parts (tags : list string) (skip : nat) (s b : string) :
  b ∈ JS.blocksFrom tags skip s ->
  JS.includes s b = true /\ JS.includes b JS.fence = false.
Proof.
  revert skip. induction s as [|c s IH]; intros skip; [by intros H%elem_of_nil |].
  cbn [JS.blocksFrom]. destruct skip as [|k].
  - destruct (JS.fenceAt tags (String c s)) as [[body n]|] eqn:E.
    + intros [-> | H]%elem_of_cons.
      * unfold JS.fenceAt in E. destruct (JS.startsWith (String c s) JS.fence); [| done].
        apply firstTag_parts in E as [Hin Hfree]. split; [| done].
        by eapply includes_sdrop.
      * destruct (IH _ H) as [Hin Hfree]. split; [by apply includes_cons | done].
    + intros H. destruct (IH _ H) as [Hin Hfree]. split; [by apply includes_cons | done].
  - intros H. destruct (IH _ H) as [Hin Hfree]. split; [by apply includes_cons | done].
Qed.

(** X13.  Every code example is text of the document.  Each block
    [get-code-examples] keeps for a document stands in that document as it
    is, has no white space at either end, and contains no fence of three
    backticks, so fencing it again in the answer is safe. *)
Theorem code_examples_are_document_text (feature : string) (language : Sdk) (content : string) :
  Forall
    (fun code =>
       JS.includes content code = true /\
       JS.trim code = code /\
       JS.includes code "```" = false)
    (relevantBlocks feature language content).
Proof.
  apply Forall_forall. intros code Hcode. unfold relevantBlocks in Hcode.
  apply list_elem_of_In, filter_In in Hcode as [Hcode _].
  apply list_elem_of_In, list_elem_of_fmap in Hcode as (b & -> & Hb).
  apply blocksFrom_parts in Hb as [Hin Hfree]. split; [| split].
  - eapply includes_trans; [exact Hin | apply includes_trim].
  - apply trim_idem.
  - destruct (JS.includes (JS.trim b) "```") eqn:E; [| done].
    rewrite <- Hfree. symmetry. eapply includes_trans; [apply includes_trim | exact E].
Qed.

Lemma allExamples_sublist (feature : string) (language : Sdk)
    (topics : list Topic) (contents : list string) :
  sublist (map ce_topic (allExamples feature language topics contents)) topics.
Proof.
  revert contents. induction topics as [|topic topics IH]; intros contents; [done |].
  destruct contents as [|c contents]; cbn [allExamples]; [apply sublist_nil_l |].
  unfold examplesOne. destruct (length _ =? 0)%nat; cbn [map ce_topic].
  - by apply sublist_cons.
  - by apply sublist_skip.
Qed.

Lemma allExamples_entries (feature : string) (language : Sdk)
    (topics : list Topic) (contents : list string) :
  Forall
    (fun e =>
       ce_examples e <> [] /\
       ce_title e = title (topicMetadata (ce_topic e)) /\
       exists i c,
         topics !! i = Some (ce_topic e) /\ contents !! i = Some c /\
         ce_examples e = relevantBlocks feature language c)
    (allExamples feature language topics contents).
Proof.
  revert contents. induction topics as [|topic topics IH]; intros contents; [apply Forall_nil_2 |].
  destruct contents as [|c contents]; cbn [allExamples]; [apply Forall_nil_2 |].
  assert (Forall
            (fun e =>
               ce_examples e <> [] /\
               ce_title e = title (topicMetadata (ce_topic e)) /\
               exists i c0,
                 (topic :: topics) !! i = Some (ce_topic e) /\
                 (c :: contents) !! i = Some c0 /\
                 ce_examples e = relevantBlocks feature language c0)
            (allExamples feature language topics contents)) as Hrest.
  { eapply Forall_impl; [apply IH |]. intros e (? & ? & i & c0 & ? & ? & ?).
    split; [done |]. split; [done |]. by exists (S i), c0. }
  unfold examplesOne. destruct (relevantBlocks feature language c) as [|b bs] eqn:E.
  - done.
  - cbn [length Nat.eqb]. apply Forall_cons_2; [| done]. cbn [ce_examples ce_title ce_topic].
    split; [done |]. split; [done |]. by exists O, c.
Qed.

(** X14.  The topics of [get-code-examples].  The tool always searches at
    least one topic.  When the identifier or the title of some topic contains
    the feature, letter case apart, it searches exactly the topics for which
    that holds, each once and in registry order; when there is none it
    searches all twelve.  The topics of its
    examples are among the topics searched, in registry order, each once;
    every one of them comes with at least one block, which are the blocks
    kept for the content fetched for it, and with the title of the topic. *)
Theorem code_example_topics
    (env : Env) (cache : gmap string CacheEntry) (feature : string) (language : Sdk) :
  let topics := topicsToSearch feature in
  let contents := contentsOf env cache (map pathMap topics) in
  let examples := allExamples feature language topics contents in
  topics <> [] /\
  sublist topics registryOrder /\
  (potentialTopics feature = [] -> topics = registryOrder) /\
  (potentialTopics feature <> [] ->
   forall t,
     t ∈ topics <->
     JS.includes (JS.toLowerCase (topicName t)) (JS.toLowerCase feature) = true \/
     JS.includes (JS.toLowerCase (title (topicMetadata t))) (JS.toLowerCase feature) = true) /\
  (forall t, t ∈ potentialTopics feature -> t ∈ topics) /\
  NoDup topics /\
  sublist (map ce_topic examples) topics /\
  NoDup (map ce_topic examples) /\
  Forall
    (fun e =>
       ce_examples e <> [] /\
       ce_title e = title (topicMetadata (ce_topic e)) /\
       exists i c,
         topics !! i = Some (ce_topic e) /\ contents !! i = Some c /\
         ce_examples e = relevantBlocks feature language c)
    examples /\
  (get_code_examples env cache feature language).1.1 = examples.
Proof.
  intros topics contents examples.
  assert (sublist topics registryOrder) as Hsub.
  { unfold topics, topicsToSearch. destruct (0 <? _)%nat; [apply filter_sublist_bool | done]. }
  assert (forall t,
             t ∈ potentialTopics feature <->
             JS.includes (JS.toLowerCase (topicName t)) (JS.toLowerCase feature) = true \/
             JS.includes (JS.toLowerCase (title (topicMetadata t))) (JS.toLowerCase feature)
             = true) as Hpot.
  { intros t. unfold potentialTopics. rewrite list_elem_of_In, filter_In, orb_true_iff.
    rewrite <- list_elem_of_In. pose proof (registry_complete t). tauto. }
  split; [| split; [done | split; [| split; [| split; [| split; [| split; [| split; [| split]]]]]]]].
  - unfold topics, topicsToSearch. destruct (potentialTopics feature); done.
  - unfold topics, topicsToSearch. by intros ->.
  - intros Hne t. rewrite <- Hpot. unfold topics, topicsToSearch.
    by destruct (potentialTopics feature).
  - intros t Ht. unfold topics, topicsToSearch.
    destruct (potentialTopics feature) as [|p ps] eqn:E; [by apply elem_of_nil in Ht | done].
  - eapply sublist_NoDup; [apply registry_NoDup | exact Hsub].
  - apply allExamples_sublist.
  - eapply sublist_NoDup; [| apply allExamples_sublist].
    eapply sublist_NoDup; [apply registry_NoDup | exact Hsub].
  - apply allExamples_entries.
  - unfold get_code_examples, examples, contents, topics, contentsOf.
    by destruct (fetchAll env cache (map pathMap (topicsToSearch feature))) as [[cs c'] rq].
Qed.

Lemma startsWith_cong (a s p : string) :
  JS.startsWith s p = true -> JS.startsWith (a +:+ s) (a +:+ p) = true.
Proof.
  intros H. induction a as [|c a IH]; sapp; [done |].
  cbn [JS.startsWith]. by rewrite Ascii.eqb_refl.
Qed.

Lemma examplesText_includes (language : Sdk) (index : nat) (examples : list string)
    (code : string) :
  code ∈ examples ->
  JS.includes (examplesText language index examples)
    ("```" +:+ fenceLabel language +:+ nl +:+ code +:+ nl +:+ "```") = true.
Proof.
  revert index. induction examples as [|x examples IH]; intros index H;
    [by apply elem_of_nil in H |].
  cbn [examplesText]. apply elem_of_cons in H as [<- | H].
  - do 4 apply includes_app_l. apply includes_here.
    do 5 apply startsWith_cong. apply startsWith_app.
  - do 12 apply includes_app_l. by apply IH.
Qed.

Lemma allExamplesText_includes (language : Sdk) (all : list CodeExample) (e : CodeExample) :
  e ∈ all ->
  JS.includes (allExamplesText language all) (topicExamplesText language e) = true.
Proof.
  induction all as [|x all IH]; intros H; [by apply elem_of_nil in H |].
  cbn [allExamplesText]. apply elem_of_cons in H as [<- | H].
  - apply includes_here, startsWith_app.
  - apply includes_app_l. by apply IH.
Qed.

(** X15.  The answer of [get-code-examples].  Without an example the answer
    is the sentence that names the language and the feature.  Otherwise it
    holds, for every topic with examples, the title of the topic, every
    block of the topic between fences labelled [javascript] (for nodejs) or
    [python], and the pointer to the topic. *)
Theorem code_examples_answer (feature : string) (language : Sdk) (all : list CodeExample) :
  (all = [] ->
   codeExamplesText feature language all =
     "No " +:+ sdkName language +:+ " code examples found for " +:+ dq +:+ feature +:+ dq +:+
     ". Try searching for a different feature or check the full documentation " +:+
     "using get-documentation.") /\
  Forall
    (fun e =>
       JS.includes (codeExamplesText feature language all) ("## From " +:+ ce_title e) = true /\
       Forall
         (fun code =>
            JS.includes (codeExamplesText feature language all)
              ("```" +:+ fenceLabel language +:+ nl +:+ code +:+ nl +:+ "```") = true)
         (ce_examples e) /\
       JS.includes (codeExamplesText feature language all)
         ("use get-documentation with topic " +:+ dq +:+ topicName (ce_topic e) +:+ dq) = true)
    all.
Proof.
  split; [by intros -> |].
  apply Forall_forall. intros e He.
  assert (JS.includes (codeExamplesText feature language all)
            (topicExamplesText language e) = true) as Hin.
  { unfold codeExamplesText. destruct all as [|x all]; [by apply elem_of_nil in He |].
    cbn [length Nat.eqb]. do 8 apply includes_app_l.
    by apply allExamplesText_includes. }
  split; [| split].
  - eapply includes_trans; [exact Hin |]. unfold topicExamplesText.
    rewrite <- app_assoc_s. apply includes_app_r, includes_refl.
  - apply Forall_forall. intros code Hcode.
    eapply includes_trans; [exact Hin |]. unfold topicExamplesText.
    do 4 apply includes_app_l. apply includes_app_r.
    by apply examplesText_includes.
  - eapply includes_trans; [exact Hin |]. unfold topicExamplesText.
    do 5 apply includes_app_l.
    change "*For more context, check the full documentation: use get-documentation with topic "
      with ("*For more context, check the full documentation: " +:+
            "use get-documentation with topic ").
    rewrite app_assoc_s. apply includes_app_l. rewrite <- !app_assoc_s.
    do 6 apply includes_app_r. rewrite !app_assoc_s. apply includes_refl.
Qed.

(** ** More on solve-problem *)

Lemma filter_sublist_mono {A} (f g : A -> bool) (l : list A) :
  (forall x, f x = true -> g x = true) ->
  sublist (List.filter f l) (List.filter g l).
Proof.
  intros H. induction l as [|x l IH]; [done |]. cbn [List.filter].
  destruct (f x) eqn:E.
  - rewrite (H _ E). by apply sublist_skip.
  - destruct (g x); [by apply sublist_cons | done].
Qed.

Lemma categoryMatches_mono (a p b : string) (cat : Category) :
  categoryMatches (JS.toLowerCase p) cat = true ->
  categoryMatches (JS.toLowerCase (a +:+ p +:+ b)) cat = true.
Proof.
  unfold categoryMatches. rewrite !existsb_exists.
  intros (keyword & Hk & Hin). exists keyword. split; [done |].
  eapply includes_trans; [| exact Hin].
  rewrite !toLowerCase_app. apply includes_intro.
Qed.

Lemma uniqueTopics_matched (problem : string) (t : Topic) :
  matchingCategories problem <> [] ->
  t ∈ uniqueTopics problem <->
  exists cat, cat ∈ matchingCategories problem /\ t ∈ topics cat.
Proof.
  intros Hne. unfold uniqueTopics, topicsToConsult.
  destruct (matchingCategories problem) as [|c cs]; [done |].
  cbn [length Nat.ltb Nat.leb]. rewrite uniq_keepFirst, keepFirst_elem_of.
  rewrite list_elem_of_In, in_flat_map. split.
  - intros (cat & Hcat & Ht). exists cat. by rewrite !list_elem_of_In.
  - intros (cat & Hcat & Ht). exists cat. by rewrite <- !list_elem_of_In.
Qed.

(** X16.  Saying more never loses a category.  Every category matched by a
    problem is matched by any text that contains the problem, and when the
    problem matched a category, every topic consulted for it is consulted
    for the longer text too. *)
Theorem more_text_keeps_categories (a problem b : string) :
  sublist (matchingCategories problem) (matchingCategories (a +:+ problem +:+ b)) /\
  (matchingCategories problem <> [] ->
   forall t, t ∈ uniqueTopics problem -> t ∈ uniqueTopics (a +:+ problem +:+ b)).
Proof.
  assert (sublist (matchingCategories problem) (matchingCategories (a +:+ problem +:+ b)))
    as Hsub.
  { apply filter_sublist_mono. intros cat. apply categoryMatches_mono. }
  split; [done |]. intros Hne t Ht.
  apply (uniqueTopics_matched _ _ Hne) in Ht as (cat & Hcat & Ht).
  assert (cat ∈ matchingCategories (a +:+ problem +:+ b)) as Hcat'.
  { eapply sublist_subseteq; [exact Hsub | exact Hcat]. }
  apply uniqueTopics_matched; [| by exists cat].
  intros E. rewrite E in Hcat'. by apply elem_of_nil in Hcat'.
Qed.

(** A keyword that contains a shorter one cannot match without it. *)
Ltac implied_keyword :=
  match goal with
  | H : JS.includes ?s ?long = true, I : JS.includes ?s ?short = false |- _ =>
      rewrite (includes_trans s long short H eq_refl) in I; discriminate I
  end.

(** X17.  Six keywords of the table never decide anything.  A keyword that
    contains another keyword of its category (authentication and
    unauthorized contain auth; send payment and failed payment contain
    payment; create payee and add payee contain payee) can be struck out:
    for every problem the categories matched with the remaining keywords are
    the categories matched with the full table. *)
Theorem redundant_keywords (problem : string) :
  map decidingKeywords problemCategories =
    [ ["api key"; "auth"; "401"];
      ["payment"; "transaction"];
      ["payee"; "recipient"];
      ["install"; "setup"; "configuration"; "sdk"; "initialize"];
      ["error"; "exception"; "crash"; "failed"] ] /\
  matchingCategories problem =
    List.filter
      (fun cat =>
         existsb (fun keyword => JS.includes (JS.toLowerCase problem) keyword)
                 (decidingKeywords cat))
      problemCategories.
Proof.
  split; [reflexivity |].
  unfold matchingCategories. apply filter_ext_in. intros cat Hcat.
  unfold categoryMatches. set (s := JS.toLowerCase problem).
  cbn [problemCategories In] in Hcat.
  destruct Hcat as [<- | [<- | [<- | [<- | [<- | []]]]]].
  - change (decidingKeywords _) with ["api key"; "auth"; "401"]. cbn [keywords existsb].
    destruct (JS.includes s "auth") eqn:?, (JS.includes s "authentication") eqn:?,
             (JS.includes s "unauthorized") eqn:?; try implied_keyword;
      rewrite ?orb_true_r, ?orb_false_r; reflexivity.
  - change (decidingKeywords _) with ["payment"; "transaction"]. cbn [keywords existsb].
    destruct (JS.includes s "payment") eqn:?, (JS.includes s "send payment") eqn:?,
             (JS.includes s "failed payment") eqn:?; try implied_keyword;
      rewrite ?orb_true_r, ?orb_false_r; reflexivity.
  - change (decidingKeywords _) with ["payee"; "recipient"]. cbn [keywords existsb].
    destruct (JS.includes s "payee") eqn:?, (JS.includes s "create payee") eqn:?,
             (JS.includes s "add payee") eqn:?; try implied_keyword;
      rewrite ?orb_true_r, ?orb_false_r; reflexivity.
  - reflexivity.
  - reflexivity.
Qed.

Lemma topicsToConsult_routed (problem : string) (t : Topic) :
  t ∈ topicsToConsult problem -> t ∈ routedTopics.
Proof.
  unfold topicsToConsult. destruct (0 <? _)%nat.
  - rewrite list_elem_of_In, in_flat_map. intros (cat & Hcat & Ht).
    unfold matchingCategories in Hcat. apply filter_In in Hcat as [Hcat _].
    cbn [problemCategories In] in Hcat.
    destruct Hcat as [<- | [<- | [<- | [<- | [<- | []]]]]];
      cbn [topics In] in Ht; destruct Ht as [<- | [<- | []]];
      apply (bool_decide_unpack _); by vm_compute.
  - intros Ht. apply list_elem_of_In in Ht. cbn [In] in Ht.
    destruct Ht as [<- | [<- | [<- | []]]]; apply (bool_decide_unpack _); by vm_compute.
Qed.

Lemma keepFirst_two {A} `{EqDecision A} (x y : A) (l : list A) :
  x <> y -> (2 <= length (keepFirst (x :: y :: l)))%nat.
Proof.
  intros Hne. cbn [keepFirst]. rewrite filter_cons_True by (by intros ->).
  simpl. lia.
Qed.

(** X18.  How many topics [solve-problem] consults, and which never.  The
    list of consulted topics has at least two and at most eight entries, all
    among the eight topics of the category table and the default; the
    playground, check-balances, bill-payment-agent and search-payees pages
    are never consulted, whatever the problem says. *)
Theorem consulted_topics_range (problem : string) :
  (2 <= length (uniqueTopics problem) <= 8)%nat /\
  Forall (fun t => t ∈ routedTopics) (uniqueTopics problem) /\
  Forall (fun t => t ∉ uniqueTopics problem)
         [Playground; CheckBalances; BillPaymentAgent; SearchPayees].
Proof.
  assert (forall t, t ∈ uniqueTopics problem -> t ∈ routedTopics) as Hrouted.
  { intros t. unfold uniqueTopics. rewrite uniq_keepFirst, keepFirst_elem_of.
    apply topicsToConsult_routed. }
  split; [split |]; [| | split].
  - unfold uniqueTopics, topicsToConsult. rewrite uniq_keepFirst.
    destruct (matchingCategories problem) as [|cat cats] eqn:E; [simpl; lia |].
    assert (cat ∈ problemCategories) as Hcat.
    { assert (cat ∈ matchingCategories problem) as H by (rewrite E; apply list_elem_of_here).
      unfold matchingCategories in H. by apply list_elem_of_In, filter_In in H as [H _];
        apply list_elem_of_In. }
    cbn [length Nat.ltb Nat.leb flat_map].
    apply list_elem_of_In in Hcat. cbn [problemCategories In] in Hcat.
    destruct Hcat as [<- | [<- | [<- | [<- | [<- | []]]]]];
      cbn [topics app]; by apply keepFirst_two.
  - change 8%nat with (length routedTopics). apply submseteq_length, NoDup_submseteq.
    + unfold uniqueTopics. rewrite uniq_keepFirst. apply keepFirst_NoDup.
    + exact Hrouted.
  - apply Forall_forall. exact Hrouted.
  - repeat (apply Forall_cons_2; [intros H%Hrouted; revert H;
                                  apply (bool_decide_unpack _); by vm_compute |]).
    apply Forall_nil_2.
Qed.

Lemma documentationLines_includes (consulted : list Topic) (t : Topic) :
  t ∈ consulted ->
  JS.includes (documentationLines consulted) (documentationLine t) = true.
Proof.
  induction consulted as [|x consulted IH]; intros H; [by apply elem_of_nil in H |].
  cbn [documentationLines]. apply elem_of_cons in H as [<- | H].
  - apply includes_here, startsWith_app.
  - apply includes_app_l. by apply IH.
Qed.

Lemma prefix_step (a b x t : string) : b = x +:+ t -> a +:+ b = (a +:+ x) +:+ t.
Proof. intros ->. by rewrite app_assoc_s. Qed.

(** X19.  The answer of [solve-problem].  It begins by restating the
    problem, names the matched categories when there are any, carries the
    guidance of the SDK when one is given, always carries the
    troubleshooting steps, and ends with the list of the consulted topics,
    which has the pointer line of every one of them. *)
Theorem solve_problem_answer (problem : string) (sdk : option Sdk) :
  JS.startsWith (solve_problem problem sdk)
    ("# Solution for: " +:+ dq +:+ problem +:+ dq +:+ nl +:+ nl) = true /\
  (matchingCategories problem <> [] ->
   JS.includes (solve_problem problem sdk)
     ("This appears to be a " +:+ JS.join "/" (map category (matchingCategories problem)) +:+
      " related issue.") = true) /\
  (forall s, sdk = Some s -> JS.includes (solve_problem problem sdk) (sdkGuidance s) = true) /\
  JS.includes (solve_problem problem sdk) troubleshootingSteps = true /\
  Forall (fun t => JS.includes (solve_problem problem sdk) (documentationLine t) = true)
         (uniqueTopics problem) /\
  exists before,
    solve_problem problem sdk =
      before +:+ "## Relevant Documentation" +:+ nl +:+ nl +:+
      documentationLines (uniqueTopics problem).
Proof.
  unfold solve_problem. split; [| split; [| split; [| split; [| split]]]].
  - do 5 apply startsWith_cong. apply startsWith_app.
  - intros Hne. destruct (matchingCategories problem) as [|c cs]; [done |].
    cbn [length Nat.ltb Nat.leb]. do 6 apply includes_app_l.
    rewrite !app_assoc_s. apply includes_here. do 2 apply startsWith_cong.
    apply startsWith_app.
  - intros s ->. do 7 apply includes_app_l. apply includes_here, startsWith_app.
  - do 8 apply includes_app_l. apply includes_here, startsWith_app.
  - apply Forall_forall. intros t Ht. do 12 apply includes_app_l.
    by apply documentationLines_includes.
  - eexists. do 9 apply prefix_step. symmetry. apply app_nil_s.
Qed.

(** ** Lines *)

Lemma join_cons (sep x : string) (l : list string) :
  l <> [] -> JS.join sep (x :: l) = x +:+ sep +:+ JS.join sep l.
Proof. by destruct l. Qed.

Lemma join_app (sep : string) (l1 l2 : list string) :
  l1 <> [] -> l2 <> [] ->
  JS.join sep (l1 ++ l2) = JS.join sep l1 +:+ sep +:+ JS.join sep l2.
Proof.
  intros H1 H2. induction l1 as [|x l1 IH]; [done |].
  destruct l1 as [|y l1].
  - cbn [app]. by rewrite join_cons.
  - change ((x :: y :: l1) ++ l2) with (x :: ((y :: l1) ++ l2)).
    rewrite !join_cons by done. rewrite IH by done. by rewrite !app_assoc_s.
Qed.

(** A run of consecutive lines, joined, is a part of the joined whole. *)
Lemma join_segment (sep : string) (a m b : list string) :
  JS.includes (JS.join sep (a ++ m ++ b)) (JS.join sep m) = true.
Proof.
  destruct m as [|x m]; [apply includes_here, startsWith_empty |].
  assert (JS.includes (JS.join sep ((x :: m) ++ b)) (JS.join sep (x :: m)) = true) as Hmb.
  { destruct b as [|y b]; [rewrite app_nil_r; apply includes_refl |].
    rewrite join_app by done. apply includes_here, startsWith_app. }
  destruct a as [|y a]; [done |].
  rewrite join_app by done. by do 2 apply includes_app_l.
Qed.

Lemma join_splitLines (s : string) : JS.join nl (JS.splitLines s) = s.
Proof.
  induction s as [|c s IH]; [done |]. cbn [JS.splitLines].
  pose proof (splitLines_nonempty s) as Hne.
  destruct (JS.isNL c) eqn:Hc.
  - rewrite <- eqb_NL in Hc. apply Ascii.eqb_eq in Hc. subst c.
    rewrite join_cons by done. by rewrite IH.
  - destruct (JS.splitLines s) as [|l ls]; [done |].
    destruct ls as [|l' ls].
    + cbn [JS.join] in *. by rewrite IH.
    + rewrite join_cons in IH by done. rewrite join_cons by done. sapp. by rewrite IH.
Qed.

(** X20.  Splitting into lines loses nothing.  Joining the lines of a text
    with newlines gives the text back; no line contains a newline; and a
    section is its heading line followed, when it has more lines, by a
    newline and its body. *)
Theorem lines_round_trip (s : string) :
  JS.join nl (JS.splitLines s) = s /\
  Forall (fun line => JS.includes line nl = false) (JS.splitLines s) /\
  (JS.includes s nl = false -> JS.splitLines s = [s]) /\
  (JS.includes s nl = true ->
   hd EmptyString (JS.splitLines s) +:+ nl +:+ sectionBody s = s).
Proof.
  split; [apply join_splitLines |]. split; [| split].
  - apply Forall_forall. intros line. apply splitLines_no_nl.
  - induction s as [|c s IH]; [done |]. rewrite includes_nl_cons.
    intros [Hc Hs]%orb_false_iff. cbn [JS.splitLines]. rewrite Hc, (IH Hs). done.
  - intros Hnl. pose proof (join_splitLines s) as Hjoin. unfold sectionBody.
    destruct (JS.splitLines s) as [|l ls] eqn:E; [by destruct (splitLines_nonempty s) |].
    destruct ls as [|l' ls].
    + cbn [JS.join] in Hjoin. subst l.
      assert (s ∈ JS.splitLines s) as Hin by (rewrite E; apply list_elem_of_here).
      apply splitLines_no_nl in Hin. congruence.
    + rewrite join_cons in Hjoin by done. cbn [hd].
      replace (JS.slice (l :: l' :: ls) 1 (Z.of_nat (length (l :: l' :: ls))))
        with (l' :: ls); [done |].
      unfold JS.slice, JS.relIndex.
      set (n := Z.of_nat (length (l :: l' :: ls))).
      assert (n = Z.of_nat (length ls) + 2) as Hn by (unfold n; cbn [length]; lia).
      destruct (Z.ltb_spec 1 0); [lia |].
      destruct (Z.ltb_spec n 0); [lia |].
      rewrite (Z.min_l 1 n), (Z.min_l n n) by lia.
      change (Z.to_nat 1) with 1%nat. cbn [drop].
      rewrite take_ge; [done |]. cbn [length]. lia.
Qed.

(** ** More on get-sdk-help *)

Lemma helpFound_nil (sdk : Sdk) (feature : string)
    (topics : list Topic) (contents : list string) :
  (forall topic c, helpOne sdk feature topic c = None) ->
  helpFound sdk feature topics contents = [].
Proof.
  intros Hnone. revert contents.
  induction topics as [|topic topics IH]; intros [|c contents]; try done.
  cbn [helpFound]. by rewrite Hnone.
Qed.

(** X21.  A feature that spans lines finds nothing.  When the feature
    contains a newline, no line can contain it, so no topic gives a result,
    whatever the documents say, and the answer is the no-help message. *)
Theorem multiline_feature_finds_nothing
    (env : Env) (cache : gmap string CacheEntry) (sdk : Sdk) (feature : string) :
  JS.includes feature nl = true ->
  (forall topic content, helpOne sdk feature topic content = None) /\
  (forall contents, helpResults sdk feature contents = []) /\
  output (get_sdk_help env cache sdk feature) =
    "No specific help found for " +:+ feature +:+ " in the " +:+ sdkName sdk +:+
    " SDK. Try checking the full SDK documentation with get-documentation " +:+
    "or using more generic terms.".
Proof.
  intros Hnl.
  assert (forall topic content, helpOne sdk feature topic content = None) as Hnone.
  { intros topic content. apply helpOne_none. intros line Hline.
    destruct (JS.includes (JS.toLowerCase line) (JS.toLowerCase feature)) eqn:E; [| done].
    apply splitLines_no_nl in Hline. rewrite <- includes_nl_lower in Hline.
    rewrite <- Hline. symmetry. eapply includes_trans; [exact E |].
    by rewrite includes_nl_lower. }
  assert (forall contents, helpResults sdk feature contents = []) as Hres.
  { intros contents. unfold helpResults. by rewrite helpFound_nil. }
  split; [done |]. split; [done |].
  unfold get_sdk_help.
  destruct (fetchAll env cache (map pathMap sdkTopics)) as [[cs c'] rq]. cbn [output].
  by rewrite Hres.
Qed.

Lemma multiline_feature_finds_nothing_witness :
  helpOne Python ("client" +:+ nl +:+ "pay") SendPayments
    ("# python" +:+ nl +:+ "client" +:+ nl +:+ "pay") = None.
Proof.
  destruct (multiline_feature_finds_nothing (envDown 0) ∅ Python ("client" +:+ nl +:+ "pay"))
    as (Hnone & _).
  - reflexivity.
  - apply Hnone.
Defined.

(** X22.  The empty feature.  Every line contains the empty string, so a
    result for the empty feature has the first line of the document as its
    heading and the first 20 lines of the document as its excerpt. *)
Theorem empty_feature_excerpt (sdk : Sdk) (topic : Topic) (content : string)
    (r : HelpResult) :
  helpOne sdk EmptyString topic content = Some r ->
  hr_heading r = hd EmptyString (JS.splitLines content) /\
  hr_content r = JS.join nl (take 20 (JS.splitLines content)) /\
  exists id k,
    id ∈ sdkIdentifier sdk /\
    JS.find (JS.toLowerCase content) id = Some k /\ (k < 500)%nat.
Proof.
  intros E.
  assert (relevant sdk EmptyString content = true) as Hrel.
  { unfold helpOne in E. by destruct (relevant sdk EmptyString content). }
  apply helpOne_inv in E as (f & line & Hline & _ & Hfirst & _ & Hh & Hc & _).
  assert (f = O) as ->.
  { destruct f as [|f]; [done |].
    destruct (JS.splitLines content) as [|l ls] eqn:El; [done |].
    specialize (Hfirst O l ltac:(lia) eq_refl).
    by rewrite (includes_here _ _ (startsWith_empty _)) in Hfirst. }
  cbn [walkUp] in *. rewrite Hh, Hc. cbn [drop].
  split; [by destruct (JS.splitLines content) | split; [done |]].
  unfold relevant in Hrel. apply existsb_exists in Hrel as (id & Hid & Hcond).
  apply andb_true_iff in Hcond as [Hcond Hdist].
  apply andb_true_iff in Hcond as [Hin _].
  apply find_includes in Hin as [k Hk].
  exists id, k. split; [by apply list_elem_of_In | split; [done |]].
  cbn [JS.toLowerCase] in Hdist. unfold JS.indexOf in Hdist.
  rewrite Hk, find_empty_needle in Hdist. apply Z.ltb_lt in Hdist. lia.
Qed.

Lemma empty_feature_excerpt_witness :
  exists r,
    helpOne Python EmptyString SendPayments ("# Python SDK" +:+ nl +:+ "pay") = Some r /\
    hr_content r = "# Python SDK" +:+ nl +:+ "pay".
Proof.
  eexists. split; [reflexivity |].
  apply (empty_feature_excerpt Python SendPayments ("# Python SDK" +:+ nl +:+ "pay")).
  reflexivity.
Defined.

(** X23.  The excerpt is a passage of the document.  The excerpt of a
    result stands in the document as it is; it begins with the heading of
    the result, which is one line. *)
Theorem sdk_excerpt_is_passage (sdk : Sdk) (feature : string) (topic : Topic)
    (content : string) (r : HelpResult) :
  helpOne sdk feature topic content = Some r ->
  JS.includes content (hr_content r) = true /\
  JS.startsWith (hr_content r) (hr_heading r) = true /\
  JS.includes (hr_heading r) nl = false.
Proof.
  intros E. apply helpOne_inv in E as (f & line & Hline & _ & _ & _ & Hh & Hc & _).
  pose proof (walkUp_spec (JS.splitLines content) f) as (Hle & _ & _).
  set (lines := JS.splitLines content) in *. set (h := walkUp lines f) in *.
  assert (h < length lines)%nat as Hlt.
  { apply lookup_lt_Some in Hline. lia. }
  destruct (lookup_lt_is_Some_2 lines h Hlt) as [heading Hheading].
  rewrite Hheading in Hh. cbn [default] in Hh. rewrite Hh, Hc.
  split; [| split].
  - rewrite <- (join_splitLines content). fold lines.
    rewrite <- (take_drop h lines) at 1.
    rewrite <- (take_drop (f + 20 - h) (drop h lines)) at 1.
    apply join_segment.
  - rewrite (drop_S lines heading h Hheading).
    replace (f + 20 - h)%nat with (S (f + 19 - h)) by lia. cbn [take].
    destruct (take (f + 19 - h) (drop (S h) lines)) as [|y ys];
      [cbn [JS.join]; rewrite <- (app_empty_r heading) at 1; apply startsWith_app
      | rewrite join_cons by done; apply startsWith_app].
  - apply (splitLines_no_nl content). apply list_elem_of_lookup. by exists h.
Qed.

Lemma sdk_excerpt_is_passage_witness :
  exists r,
    helpOne Python "pay" SendPayments
      ("intro" +:+ nl +:+ "# Python SDK" +:+ nl +:+ "client.pay()") = Some r /\
    JS.includes ("intro" +:+ nl +:+ "# Python SDK" +:+ nl +:+ "client.pay()")
      (hr_content r) = true.
Proof.
  eexists. split; [reflexivity |].
  apply (sdk_excerpt_is_passage Python "pay" SendPayments
           ("intro" +:+ nl +:+ "# Python SDK" +:+ nl +:+ "client.pay()")).
  reflexivity.
Defined.

Lemma sorted_two_scores (l : list HelpResult) :
  StronglySorted (fun a b => hr_relevance b <= hr_relevance a) l ->
  Forall (fun r => hr_relevance r = 4 \/ hr_relevance r = 5) l ->
  l = filter (fun r => hr_relevance r = 5) l ++ filter (fun r => hr_relevance r = 4) l.
Proof.
  induction 1 as [|x l Hsorted IH Hx]; intros Hall; [done |].
  apply Forall_cons in Hall as [Hscore Hall]. specialize (IH Hall).
  destruct Hscore as [H4 | H5].
  - assert (Forall (fun r => hr_relevance r = 4) l) as Hlow.
    { apply Forall_forall. intros r Hr.
      pose proof (proj1 (Forall_forall _ _) Hx r Hr) as Hle.
      pose proof (proj1 (Forall_forall _ _) Hall r Hr) as Hr45.
      cbv beta in Hle, Hr45. lia. }
    rewrite filter_cons_False by lia. rewrite filter_cons_True by done.
    assert (filter (fun r => hr_relevance r = 5) l = []) as ->.
    { clear -Hlow. induction Hlow as [|y l Hy _ IH]; [done |].
      rewrite filter_cons_False by lia. done. }
    assert (filter (fun r => hr_relevance r = 4) l = l) as ->.
    { clear -Hlow. induction Hlow as [|y l Hy _ IH]; [done |].
      rewrite filter_cons_True by done. by rewrite IH. }
    done.
  - rewrite filter_cons_True by done. rewrite filter_cons_False by lia.
    cbn [app]. by rewrite <- IH.
Qed.

Lemma helpFound_scores (sdk : Sdk) (feature : string)
    (topics : list Topic) (contents : list string) :
  Forall (fun r => hr_relevance r = 4 \/ hr_relevance r = 5)
         (helpFound sdk feature topics contents).
Proof.
  apply Forall_forall. intros r Hr.
  destruct (helpFound_elem _ _ _ _ _ Hr) as (i & topic & c & _ & _ & E).
  pose proof (helpOne_excerpt_has_feature _ _ _ _ _ E) as Hex.
  apply helpOne_inv in E as (f & line & _ & _ & _ & _ & _ & _ & ->).
  rewrite Hex. destruct (JS.includes (JS.toLowerCase c) (sdkName sdk)); [by right | by left].
Qed.

(** X24.  The order of the help results.  The results are the topics whose
    document names the SDK (score 5), in the order of the topic scan,
    followed by the other topics found (score 4), in the order of the topic
    scan. *)
Theorem sdk_help_order (sdk : Sdk) (feature : string) (contents : list string) :
  helpResults sdk feature contents =
    filter (fun r => hr_relevance r = 5) (helpFound sdk feature sdkTopics contents) ++
    filter (fun r => hr_relevance r = 4) (helpFound sdk feature sdkTopics contents) /\
  Forall
    (fun r =>
       exists i topic c,
         sdkTopics !! i = Some topic /\ contents !! i = Some c /\
         helpOne sdk feature topic c = Some r /\
         (hr_relevance r = 5 <-> JS.includes (JS.toLowerCase c) (sdkName sdk) = true))
    (helpFound sdk feature sdkTopics contents).
Proof.
  split.
  - unfold helpResults.
    rewrite <- (sort_stable 5), <- (sort_stable 4). apply sorted_two_scores.
    + apply sort_sorted.
    + assert (JS.sort byRelevance (helpFound sdk feature sdkTopics contents)
              ≡ₚ helpFound sdk feature sdkTopics contents) as -> by apply sort_perm.
      apply helpFound_scores.
  - apply Forall_forall. intros r Hr.
    destruct (helpFound_elem _ _ _ _ _ Hr) as (i & topic & c & Ht & Hc & E).
    exists i, topic, c. repeat split; try done.
    + pose proof (helpOne_excerpt_has_feature _ _ _ _ _ E) as Hex.
      apply helpOne_inv in E as (f & line & _ & _ & _ & _ & _ & _ & ->).
      rewrite Hex. by destruct (JS.includes (JS.toLowerCase c) (sdkName sdk)).
    + pose proof (helpOne_excerpt_has_feature _ _ _ _ _ E) as Hex.
      apply helpOne_inv in E as (f & line & _ & _ & _ & _ & _ & _ & ->).
      rewrite Hex. by intros ->.
Qed.

(** ** Documents without headings *)

Lemma hashRun_no_hash (c : ascii) (s : string) :
  Ascii.eqb "#" c = false -> JS.headingMarker (String c s) = None.
Proof.
  intros Hc. unfold JS.headingMarker. cbn [JS.hashRun].
  rewrite Ascii.eqb_sym, Hc. done.
Qed.

Lemma splitFrom_no_hash (bol : bool) (s : string) :
  JS.includes s "#" = false -> JS.splitFrom O bol s = [s].
Proof.
  revert bol. induction s as [|c s IH]; intros bol H; [done |].
  cbn [JS.includes JS.startsWith] in H. apply orb_false_iff in H as [Hc Hs].
  assert (Ascii.eqb "#" c = false) as Hc'.
  { by destruct (Ascii.eqb "#" c). }
  cbn [JS.splitFrom]. rewrite (hashRun_no_hash _ _ Hc').
  assert ((if bol then @None nat else None) = None) as -> by (by destruct bol).
  by rewrite (IH _ Hs).
Qed.

(** X25.  A document without [#] is one section.  The split gives the whole
    document as its only piece, so a match in it is reported with the first
    line of the document as the section heading and the excerpt taken from
    the lines after it. *)
Theorem heading_free_document (query : string) (topic : Topic) (content : string) :
  JS.includes content "#" = false ->
  JS.splitHeadings content = [content] /\
  (JS.includes (JS.toLowerCase content) (JS.toLowerCase query) = true ->
   exists r,
     searchOne query topic content = Some r /\
     sr_section r = hd EmptyString (JS.splitLines content) /\
     sr_excerpt r =
       JS.orElse (excerptOf (sectionBody content) (JS.toLowerCase query))
                 (JS.substring content 0 200 +:+ "...")).
Proof.
  intros Hfree.
  assert (JS.splitHeadings content = [content]) as Hsplit by (by apply splitFrom_no_hash).
  split; [done |]. intros Hin. unfold searchOne. rewrite Hin, Hsplit.
  cbn [scanSections]. rewrite Hin. eexists. split; [done |].
  cbn [sr_section sr_excerpt]. split; [| done].
  unfold sectionTitleOf, JS.orElse. by destruct (hd EmptyString (JS.splitLines content)).
Qed.

Lemma heading_free_document_witness :
  JS.splitHeadings ("Payments" +:+ nl +:+ "Send money.") = ["Payments" +:+ nl +:+ "Send money."].
Proof.
  apply (heading_free_document "money" SendPayments ("Payments" +:+ nl +:+ "Send money.")).
  reflexivity.
Defined.

(** ** Letter case of the arguments *)

Lemma searchResults_ext (a b : string) (docs : list Topic) (contents : list string) :
  JS.toLowerCase a = JS.toLowerCase b ->
  searchResults a docs contents = searchResults b docs contents.
Proof.
  intros H. revert contents. induction docs as [|topic docs IH]; intros [|c contents]; try done.
  cbn [searchResults]. unfold searchOne. rewrite H, IH. done.
Qed.

Lemma allExamples_ext (a b : string) (language : Sdk)
    (topics : list Topic) (contents : list string) :
  JS.toLowerCase a = JS.toLowerCase b ->
  allExamples a language topics contents = allExamples b language topics contents.
Proof.
  intros H. revert contents.
  induction topics as [|topic topics IH]; intros [|c contents]; try done.
  cbn [allExamples]. unfold examplesOne, relevantBlocks. rewrite H, IH. done.
Qed.

Lemma helpFound_ext (sdk : Sdk) (a b : string) (topics : list Topic) (contents : list string) :
  JS.toLowerCase a = JS.toLowerCase b ->
  helpFound sdk a topics contents = helpFound sdk b topics contents.
Proof.
  intros H. revert contents.
  induction topics as [|topic topics IH]; intros [|c contents]; try done.
  cbn [helpFound]. unfold helpOne, relevant. rewrite H, IH. done.
Qed.

(** X26.  Letter case of the argument never decides what is found.  Two
    arguments that are equal once lower-cased give the same search results
    (sections and excerpts included) and the same suggested topics, the same
    topics searched for code examples and the same examples, the same
    categories and consulted topics of a problem, and the same SDK help
    results; the answers differ only where they quote the argument. *)
Theorem letter_case_is_ignored (a b : string) :
  JS.toLowerCase a = JS.toLowerCase b ->
  (forall docs contents, searchResults a docs contents = searchResults b docs contents) /\
  possibleTopics a = possibleTopics b /\
  topicsToSearch a = topicsToSearch b /\
  (forall language topics contents,
      allExamples a language topics contents = allExamples b language topics contents) /\
  matchingCategories a = matchingCategories b /\
  uniqueTopics a = uniqueTopics b /\
  (forall sdk contents, helpResults sdk a contents = helpResults sdk b contents).
Proof.
  intros H.
  assert (matchingCategories a = matchingCategories b) as Hcat.
  { unfold matchingCategories, categoryMatches. by rewrite H. }
  split; [intros docs contents; by apply searchResults_ext |].
  split; [unfold possibleTopics; by rewrite H |].
  split; [unfold topicsToSearch, potentialTopics; by rewrite H |].
  split; [intros language topics contents; by apply allExamples_ext |].
  split; [done |].
  split; [unfold uniqueTopics, topicsToConsult; by rewrite Hcat |].
  intros sdk contents. unfold helpResults. by rewrite (helpFound_ext sdk a b).
Qed.

Lemma letter_case_is_ignored_witness :
  uniqueTopics "Payee API KEY" = uniqueTopics "payee api key".
Proof.
  apply (letter_case_is_ignored "Payee API KEY" "payee api key").
  reflexivity.
Defined.

(** ** Features of one line *)

Lemma first_line_app (q b : string) :
  JS.includes q nl = false -> exists l ls, JS.splitLines (q +:+ b) = (q +:+ l) :: ls.
Proof.
  induction q as [|c q IH]; intros H; sapp.
  - destruct (JS.splitLines b) as [|l ls] eqn:E; [by destruct (splitLines_nonempty b) |].
    by exists l, ls.
  - rewrite includes_nl_cons in H. apply orb_false_iff in H as [Hc Hq].
    destruct (IH Hq) as (l & ls & E). cbn [JS.splitLines]. rewrite Hc, E.
    exists l, ls. by sapp.
Qed.

(** An occurrence of a text without newline lies within one line. *)
Lemma line_holds_match (s q : string) :
  JS.includes q nl = false -> JS.includes s q = true ->
  exists line, line ∈ JS.splitLines s /\ JS.includes line q = true.
Proof.
  intros Hq Hin. apply includes_inv in Hin as (a & b & ->).
  induction a as [|c a (line & Hline & Hin)]; sapp.
  - destruct (first_line_app q b Hq) as (l & ls & E). rewrite E.
    exists (q +:+ l). split; [apply list_elem_of_here | apply includes_here, startsWith_app].
  - cbn [JS.splitLines]. destruct (JS.isNL c).
    + exists line. split; [by apply list_elem_of_further | done].
    + destruct (JS.splitLines (a +:+ q +:+ b)) as [|l ls]; [by apply elem_of_nil in Hline |].
      apply elem_of_cons in Hline as [<- | Hline].
      * exists (String c line). split; [apply list_elem_of_here | by apply includes_cons].
      * exists line. split; [by apply list_elem_of_further | done].
Qed.

Lemma splitLines_lower (s : string) :
  JS.splitLines (JS.toLowerCase s) = map JS.toLowerCase (JS.splitLines s).
Proof.
  induction s as [|c s IH]; [done |]. cbn [JS.toLowerCase JS.splitLines].
  rewrite isNL_lower, IH. destruct (JS.isNL c); [done |].
  by destruct (JS.splitLines s).
Qed.

Lemma relevant_includes (sdk : Sdk) (feature content : string) :
  relevant sdk feature content = true ->
  JS.includes (JS.toLowerCase content) (JS.toLowerCase feature) = true.
Proof.
  unfold relevant. intros (id & _ & H)%existsb_exists.
  apply andb_true_iff in H as [H _]. by apply andb_true_iff in H as [_ H].
Qed.

Lemma helpOne_multiline (sdk : Sdk) (feature : string) (topic : Topic) (content : string) :
  JS.includes feature nl = true -> helpOne sdk feature topic content = None.
Proof.
  intros Hnl. apply helpOne_none. intros line Hline.
  destruct (JS.includes (JS.toLowerCase line) (JS.toLowerCase feature)) eqn:E; [| done].
  apply splitLines_no_nl in Hline. rewrite <- includes_nl_lower in Hline.
  rewrite <- Hline. symmetry. eapply includes_trans; [exact E |].
  by rewrite includes_nl_lower.
Qed.

(** X27.  When a topic gives help.  A topic contributes a result exactly
    when its document passes the relevance test and the feature has no
    newline: for a feature of one line the search for the line never comes
    back empty after the relevance test has passed, so the second [return
    null] is reached by features of several lines only. *)
Theorem help_exactly_when_relevant
    (sdk : Sdk) (feature : string) (topic : Topic) (content : string) :
  is_Some (helpOne sdk feature topic content) <->
  relevant sdk feature content = true /\ JS.includes feature nl = false.
Proof.
  split.
  - intros [r E]. split.
    + unfold helpOne in E. by destruct (relevant sdk feature content).
    + destruct (JS.includes feature nl) eqn:Hnl; [| done].
      by rewrite helpOne_multiline in E.
  - intros [Hrel Hnl].
    pose proof (relevant_includes _ _ _ Hrel) as Hin.
    apply line_holds_match in Hin as (line' & Hline' & Hmatch);
      [| by rewrite includes_nl_lower].
    rewrite splitLines_lower in Hline'.
    apply list_elem_of_fmap in Hline' as (line & -> & Hline).
    unfold helpOne. rewrite Hrel. cbn [negb]. unfold JS.findIndex.
    destruct (findIndexFrom_spec
                (fun line => JS.includes (JS.toLowerCase line) (JS.toLowerCase feature))
                0 (JS.splitLines content))
      as [[_ Hall] | (f & x & E & _)].
    + by rewrite (Hall line Hline) in Hmatch.
    + rewrite E. destruct (Z.eqb_spec (0 + Z.of_nat f) (-1)) as [? | _]; [lia | done].
Qed.

(** * The excerpt window, on code units *)

Lemma ofString_cons (c : ascii) (s : string) :
  Wide.ofString (String c s) = N_of_ascii c :: Wide.ofString s.
Proof. reflexivity. Qed.

Lemma ofString_app (a b : string) :
  Wide.ofString (a +:+ b) = Wide.ofString a ++ Wide.ofString b.
Proof. induction a as [|c a IH]; sapp; [done |]. by rewrite !ofString_cons, IH. Qed.

Lemma length_ofString (s : string) : length (Wide.ofString s) = String.length s.
Proof. induction s as [|c s IH]; [done |]. rewrite ofString_cons. cbn. by rewrite IH. Qed.

Lemma ofString_inj (a b : string) : Wide.ofString a = Wide.ofString b -> a = b.
Proof.
  revert b. induction a as [|c a IH]; intros [|d b]; try done.
  rewrite !ofString_cons. intros [= Hc Hs]. f_equal; [| by apply IH].
  by rewrite <- (ascii_N_embedding c), Hc, ascii_N_embedding.
Qed.

(** The texts of the development are the texts of code units below 256. *)
Lemma ofString_units (l : list N) :
  Forall (fun u => (u < 256)%N) l <-> exists s, l = Wide.ofString s.
Proof.
  split.
  - induction 1 as [|u l Hu _ [s ->]]; [by exists EmptyString |].
    exists (String (ascii_of_N u) s). rewrite ofString_cons.
    by rewrite N_ascii_embedding.
  - intros [s ->]. induction s as [|c s IH]; [apply Forall_nil_2 |].
    rewrite ofString_cons. apply Forall_cons_2; [apply N_ascii_bounded | done].
Qed.

Lemma lowerUnit_ascii (c : ascii) :
  Wide.lowerUnit (N_of_ascii c) = Some [N_of_ascii (JS.lowerChar c)].
Proof.
  unfold Wide.lowerUnit. pose proof (N_ascii_bounded c) as H.
  apply N.ltb_lt in H. by rewrite H, ascii_N_embedding.
Qed.

Lemma toLowerCase_ofString (s : string) :
  Wide.toLowerCase (Wide.ofString s) = Some (Wide.ofString (JS.toLowerCase s)).
Proof.
  induction s as [|c s IH]; [done |]. cbn [JS.toLowerCase]. rewrite !ofString_cons.
  cbn [Wide.toLowerCase]. by rewrite lowerUnit_ascii, IH.
Qed.

Lemma eqb_N_of_ascii (a b : ascii) : (N_of_ascii a =? N_of_ascii b)%N = Ascii.eqb a b.
Proof.
  destruct (Ascii.eqb_spec a b) as [-> | Hne]; [apply N.eqb_refl |].
  apply N.eqb_neq. intros H. apply Hne.
  by rewrite <- (ascii_N_embedding a), H, ascii_N_embedding.
Qed.

Lemma startsWith_ofString (s p : string) :
  Wide.startsWith (Wide.ofString s) (Wide.ofString p) = JS.startsWith s p.
Proof.
  revert s. induction p as [|a p IH]; intros [|b s]; try done.
  rewrite !ofString_cons. cbn [Wide.startsWith JS.startsWith].
  by rewrite eqb_N_of_ascii, IH.
Qed.

Lemma find_ofString (s n : string) :
  Wide.find (Wide.ofString s) (Wide.ofString n) = JS.find s n.
Proof.
  induction s as [|c s IH].
  - cbn [JS.find]. by rewrite <- startsWith_ofString.
  - cbn [JS.find]. rewrite <- startsWith_ofString, <- IH. by rewrite ofString_cons.
Qed.

Lemma drop_ofString (n : nat) (s : string) :
  drop n (Wide.ofString s) = Wide.ofString (JS.sdrop n s).
Proof. revert s. induction n as [|n IH]; intros [|c s]; try done. apply IH. Qed.

Lemma take_ofString (n : nat) (s : string) :
  take n (Wide.ofString s) = Wide.ofString (JS.stake n s).
Proof.
  revert s. induction n as [|n IH]; intros [|c s]; try done.
  cbn [JS.stake]. rewrite !ofString_cons. cbn [take]. by rewrite IH.
Qed.

Lemma substring_ofString (s : string) (a b : Z) :
  Wide.substring (Wide.ofString s) a b = Wide.ofString (JS.substring s a b).
Proof.
  unfold Wide.substring, JS.substring, Wide.len, JS.len.
  by rewrite length_ofString, drop_ofString, take_ofString.
Qed.

Lemma collapseFrom_ofString (inRun : bool) (s : string) :
  Wide.collapseFrom inRun (Wide.ofString s) = Wide.ofString (JS.collapseFrom inRun s).
Proof.
  revert inRun. induction s as [|c s IH]; intros inRun; [done |].
  rewrite ofString_cons. cbn [Wide.collapseFrom JS.collapseFrom]. unfold JS.isNL.
  destruct (N_of_ascii c =? 10)%N.
  - destruct inRun; [apply IH |]. rewrite ofString_cons. by rewrite IH.
  - rewrite ofString_cons. by rewrite IH.
Qed.

(** On the texts of the development the computation on code units is the
    computation of the development. *)
Lemma excerptOf_ofString (body queryLower : string) :
  Wide.excerptOf (Wide.ofString body) (Wide.ofString queryLower) =
    Some (Wide.ofString (excerptOf body queryLower)).
Proof.
  unfold Wide.excerptOf, excerptOf. rewrite toLowerCase_ofString.
  unfold Wide.indexOf, JS.indexOf. rewrite find_ofString.
  unfold Wide.len, JS.len. rewrite !length_ofString. cbv zeta.
  rewrite substring_ofString. unfold Wide.collapseNewlines, JS.collapseNewlines.
  rewrite collapseFrom_ofString, !ofString_app. f_equal. f_equal; [| f_equal].
  - by destruct (0 <? _).
  - by destruct (_ <? _).
Qed.

Lemma windowSpec_ofString (body : string) (i q : nat) :
  Wide.windowSpec (Wide.ofString body) i q = Wide.ofString (windowSpec body i q).
Proof.
  unfold Wide.windowSpec, windowSpec. rewrite length_ofString. cbv zeta.
  rewrite drop_ofString, take_ofString. unfold Wide.collapseNewlines, JS.collapseNewlines.
  rewrite collapseFrom_ofString, !ofString_app. f_equal; [| f_equal].
  - by destruct (0 <? _)%nat.
  - by destruct (_ <? _)%nat.
Qed.

Lemma startsWith_stake_iff (s p : string) :
  JS.startsWith s p = true <-> JS.stake (String.length p) s = p.
Proof.
  split; [apply startsWith_stake |]. intros H.
  rewrite <- (stake_sdrop (String.length p) s), H. apply startsWith_app.
Qed.

(** Where the query stands in a text of the development, letter case apart,
    is where its lower-cased form stands in the lower-cased text. *)
Lemma occursAt_ofString (body query : string) (j : nat) :
  Wide.occursAt (Wide.ofString body) (Wide.ofString query) j = true <->
  (j + String.length query <= String.length body)%nat /\
  JS.startsWith (JS.sdrop j (JS.toLowerCase body)) (JS.toLowerCase query) = true.
Proof.
  unfold Wide.occursAt. rewrite !length_ofString, drop_ofString, take_ofString.
  rewrite !toLowerCase_ofString, andb_true_iff, !bool_decide_eq_true.
  rewrite lower_stake, lower_sdrop, startsWith_stake_iff, lowerChar_length.
  split; intros [Hroom H]; (split; [done |]).
  - by apply ofString_inj.
  - by rewrite H.
Qed.

Lemma find_complete (s n : string) (i : nat) :
  JS.startsWith (JS.sdrop i s) n = true ->
  (i <= String.length s)%nat ->
  (forall j, (j < i)%nat -> JS.startsWith (JS.sdrop j s) n = false) ->
  JS.find s n = Some i.
Proof.
  revert s. induction i as [|i IH]; intros s Hat Hlen Hbefore.
  - cbn [JS.sdrop] in Hat. destruct s; cbn [JS.find]; by rewrite Hat.
  - destruct s as [|c s]; [cbn in Hlen; lia |]. cbn [JS.find].
    pose proof (Hbefore O ltac:(lia)) as H0. cbn [JS.sdrop] in H0. rewrite H0.
    rewrite (IH s); [done | done | cbn in Hlen; lia |].
    intros j Hj. apply (Hbefore (S j)). lia.
Qed.

Lemma firstOccurrence_ofString (body query : string) (i : nat) :
  Wide.firstOccurrence (Wide.ofString body) (Wide.ofString query) i <->
  JS.find (JS.toLowerCase body) (JS.toLowerCase query) = Some i.
Proof.
  unfold Wide.firstOccurrence. rewrite occursAt_ofString, forallb_forall. split.
  - intros [[Hroom Hat] Hbefore].
    apply find_complete; [done | rewrite lowerChar_length; lia |]. intros j Hj.
    destruct (JS.startsWith (JS.sdrop j (JS.toLowerCase body)) (JS.toLowerCase query))
      eqn:E; [| done].
    assert (Wide.occursAt (Wide.ofString body) (Wide.ofString query) j = true) as Hocc.
    { apply occursAt_ofString. split; [| done].
      apply startsWith_inv in E as [r E]. apply (f_equal String.length) in E.
      rewrite length_sdrop, length_app_s, !lowerChar_length in E. lia. }
    specialize (Hbefore j). rewrite Hocc in Hbefore.
    symmetry. apply Hbefore, in_seq. lia.
  - intros Hfind. destruct (find_spec _ _ _ Hfind) as (Hat & Hroom & Hbefore).
    rewrite !lowerChar_length in Hroom. split; [done |].
    intros j [_ Hj]%in_seq. apply negb_true_iff.
    destruct (Wide.occursAt (Wide.ofString body) (Wide.ofString query) j) eqn:E; [| done].
    apply occursAt_ofString in E as [_ E]. rewrite Hbefore in E; [done | lia].
Qed.

(** On texts of code units below 256 the excerpt is the window of the
    specification. *)
Lemma excerptWindowed_units (body query : list N) :
  Forall (fun u => (u < 256)%N) body ->
  Forall (fun u => (u < 256)%N) query ->
  Wide.excerptWindowed body query.
Proof.
  intros [b ->]%ofString_units [q ->]%ofString_units queryLower i Hlower Hfirst.
  rewrite toLowerCase_ofString in Hlower. injection Hlower as <-.
  apply firstOccurrence_ofString in Hfirst.
  rewrite excerptOf_ofString, (excerptOf_window _ _ _ Hfirst).
  by rewrite windowSpec_ofString, length_ofString.
Qed.

(** C4, as stated, fails, whichever way "clipped" is read.  Read as the
    reach of 150 characters being cut at a bound of the body, it fails on an
    ordinary page: the body [Use sendPayment to pay.] is shorter than the
    reach on both sides and its excerpt carries no ellipsis.  Read as text
    of the body being left out, it fails on two counts.  For the empty query
    the section before the first heading is selected, its body is empty, the
    query occurs in it at index 0, and the window is the empty text; the
    result then carries the first 200 characters of the document followed by
    an ellipsis instead.  And in [Wide.dottedBody] the word needle first
    stands at index 201, while in the lower-cased body, where each of the
    200 capital I with dot above has become two units, it stands at index
    401: the body as it is gets cut from index 251 on, and the excerpt is an
    ellipsis and 257 letters z, without the word. *)
Lemma excerpt_window_fails :
  ~ excerptCutAtBounds "sendpayment" SendPayments
      ("# Payments" +:+ nl +:+ "Use sendPayment to pay.") /\
  ~ excerptWindowed EmptyString Quickstart ("# Title" +:+ nl +:+ "Some text") /\
  ~ Wide.excerptWindowed Wide.dottedBody (Wide.ofString "needle") /\
  Wide.firstOccurrence Wide.dottedBody (Wide.ofString "needle") 201 /\
  Wide.excerptOf Wide.dottedBody (Wide.ofString "needle") =
    Some (Wide.ofString "..." ++ replicate 257 122%N).
Proof.
  assert (Wide.firstOccurrence Wide.dottedBody (Wide.ofString "needle") 201) as Hfirst.
  { split; by vm_compute. }
  split; [| split; [| split; [| split; [done | by vm_compute]]]].
  - intros H.
    destruct (H ("Payments" +:+ nl +:+ "Use sendPayment to pay.") 4%nat) as (r & Hr & Hex).
    + exists [EmptyString], []. by vm_compute.
    + by vm_compute.
    + vm_compute in Hr. injection Hr as <-. vm_compute in Hex. discriminate Hex.
  - intros H. destruct (H EmptyString O) as (r & Hr & Hex).
    + exists [], ["Title" +:+ nl +:+ "Some text"]. by vm_compute.
    + by vm_compute.
    + vm_compute in Hr. injection Hr as <-. vm_compute in Hex. discriminate Hex.
  - intros H. specialize (H (Wide.ofString "needle") 201%nat eq_refl Hfirst).
    vm_compute in H. discriminate H.
Qed.

(** C4, amended.  The texts are those of code units below 256, on which
    lower-casing changes no length.  For the section the search selects,
    with the lower-cased query first occurring in the lower-cased body at
    index [i] -- which is where the query first stands in the body itself,
    letter case apart: the result names the section by its first line, and
    its excerpt is the window from [max(0, i - 150)] to
    [min(L, i + queryLength + 150)] of the body, newline runs collapsed to
    single spaces, with an ellipsis in front exactly when the window starts
    after the start of the body and one behind exactly when it ends before
    the end of the body -- unless that text is empty, which happens only for
    the empty query in an empty body; then the excerpt is the first 200
    characters of the document followed by an ellipsis.  The computation on
    code units gives the same window for this body and query. *)
Theorem excerpt_window
    (query : string) (topic : Topic) (content section : string) (i : nat) :
  selectedSection content (JS.toLowerCase query) section ->
  JS.find (JS.toLowerCase (sectionBody section)) (JS.toLowerCase query) = Some i ->
  exists r,
    searchOne query topic content = Some r /\
    sr_section r = sectionTitleOf section /\
    (windowSpec (sectionBody section) i (String.length query) <> EmptyString ->
     sr_excerpt r = windowSpec (sectionBody section) i (String.length query)) /\
    (windowSpec (sectionBody section) i (String.length query) = EmptyString ->
     sr_excerpt r = JS.substring content 0 200 +:+ "...") /\
    (windowSpec (sectionBody section) i (String.length query) = EmptyString <->
     query = EmptyString /\ sectionBody section = EmptyString) /\
    Wide.firstOccurrence (Wide.ofString (sectionBody section)) (Wide.ofString query) i /\
    Wide.excerptWindowed (Wide.ofString (sectionBody section)) (Wide.ofString query).
Proof.
  intros Hsel Hfind.
  pose proof (selectedSection_content _ _ _ Hsel) as Hcontent.
  destruct Hsel as (pre & post & Hsplit & Hpre & Hin).
  unfold searchOne. rewrite Hcontent, Hsplit.
  rewrite (scanSections_selected _ _ _ _ Hpre Hin).
  rewrite (excerptOf_window _ _ _ Hfind).
  eexists. split; [done |]. cbn [sr_section sr_excerpt]. split; [done |].
  split; [| split; [| split; [| split]]].
  - intros Hne. unfold JS.orElse.
    by destruct (windowSpec (sectionBody section) i (String.length query)).
  - by intros ->.
  - by apply windowSpec_empty.
  - by apply firstOccurrence_ofString.
  - apply excerptWindowed_units; apply ofString_units; by eexists.
Qed.

Lemma excerpt_window_witness :
  exists r,
    searchOne "sendpayment" SendPayments
      ("# Payments" +:+ nl +:+ "Use sendPayment to pay.") = Some r /\
    sr_section r = "Payments" /\
    sr_excerpt r = "Use sendPayment to pay.".
Proof.
  destruct (excerpt_window "sendpayment" SendPayments
              ("# Payments" +:+ nl +:+ "Use sendPayment to pay.")
              ("Payments" +:+ nl +:+ "Use sendPayment to pay.") 4)
    as (r & Hr & Hsec & Hex & _).
  - exists [EmptyString], []. by vm_compute.
  - by vm_compute.
  - exists r. split; [exact Hr |]. split; [exact Hsec |].
    apply Hex. by vm_compute.
Defined.
